(** * VeilPlay playback access broker: token service, stream cache, proxy

    A shallow embedding of the Flask backend
    ([Backend/app/utils/video_token.py], [Backend/app/models/video.py],
    [Backend/app/routes/video.py], and of
    [Backend/app/utils/validators.py], [Backend/app/database.py] and
    [Backend/seed_data.py] what the further properties need) and the
    properties its specification states about it.

    Conventions.
    - Python code that reads the clock, the environment or the cache, calls
      a third-party library, or may raise, is a computation in the monad
      [Py]: a function from the process state ([World]) to an [Outcome],
      which either [Returns] a value or [Raises] an exception, with the
      state reached in both cases.  [try ... except] is [try_except].
    - Third-party libraries (PyJWT, bson, pymongo, yt-dlp, requests) are the
      fields of the class [Collaborators]; the theorems hold for every
      instance.  [Reference.collaborators] is an executable instance (PyJWT's
      HS256 with a real HMAC-SHA256) on which the concrete scenarios run.
    - Clock readings ([time.time()], [datetime.utcnow()], the clock PyJWT
      reads) are integers, in seconds; [clock n] is the n-th reading made by
      the process.
    - A response is what the view returns: its status, the headers the view
      sets, and its body.  What Flask and its extensions add afterwards, the
      output of [print], and failures of the upstream connection while the
      body is being streamed are outside the model. *)

From Stdlib Require Import ZArith Ascii String.
From stdpp Require Import gmap strings list fin_maps pretty.
Local Open Scope Z_scope.
Set Warnings "-register-all".

(** ** Python values *)

(** JSON-like values: what a decoded token payload or a [jsonify] body
    holds.  Dictionaries keep insertion order. *)
Inductive Json : Type :=
  | JNull
  | JBool (b : bool)
  | JInt (z : Z)
  | JStr (s : string)
  | JList (l : list Json)
  | JDict (d : list (string * Json)).

Abbreviation Payload := (list (string * Json)).
Abbreviation Headers := (gmap string string).

(** [d.get(key)] on an insertion-ordered dictionary. *)
Fixpoint dict_get (d : Payload) (key : string) : option Json :=
  match d with
  | [] => None
  | (k, v) :: rest => if bool_decide (k = key) then Some v else dict_get rest key
  end.

(** [d.get(key) != s] for a [str] [s]: only an equal [str] compares equal. *)
Definition get_ne_str (d : Payload) (key s : string) : bool :=
  match dict_get d key with
  | Some (JStr s') => negb (bool_decide (s' = s))
  | _ => true
  end.

(** Truthiness of [str | None], of a dictionary, of [dict | None]. *)
Definition truthy_str (s : option string) : bool :=
  match s with
  | Some s => negb (bool_decide (s = ""))
  | None => false
  end.

Definition has_key {A} (field : option A) : bool :=
  match field with
  | Some _ => true
  | None => false
  end.

Definition truthy_dict (d : option Payload) : bool :=
  match d with
  | Some (_ :: _) => true
  | _ => false
  end.

(** [str.lower()] on ASCII letters; header names are ASCII. *)
Definition lower_ascii (c : ascii) : ascii :=
  let n := N_of_ascii c in
  if ((65 <=? n) && (n <=? 90))%N then ascii_of_N (n + 32) else c.

Fixpoint lower (s : string) : string :=
  match s with
  | EmptyString => EmptyString
  | String c rest => String (lower_ascii c) (lower rest)
  end.

(** [s in t] on strings. *)
Fixpoint includes (s t : string) : bool :=
  String.prefix s t ||
  match t with
  | EmptyString => false
  | String _ rest => includes s rest
  end.

(** Lookup in a case-insensitive header mapping (keys stored lower-cased). *)
Definition ci_get (h : Headers) (name : string) : option string :=
  h !! lower name.

(** ** HTTP requests and responses *)

(** What [@jwt_required()] finds in the [Authorization] header. *)
Inductive JwtAuth : Type :=
  | AuthIdentity (identity : string)
  | AuthMissing
  | AuthExpired
  | AuthInvalid.

Record Request : Type := {
  req_token : option string;   (* request.args.get('token') *)
  req_range : option string;   (* request.headers.get('Range') *)
  req_auth : JwtAuth
}.

Inductive Body : Type :=
  | BodyText (text : string)
  | BodyJson (json : Payload)
  | BodyStream (chunks : list string).

(** [resp_headers] holds the headers the view sets itself. *)
Record Response : Type := {
  status : Z;
  resp_headers : Headers;
  body : Body
}.

(** *** routes/video.py: the player page *)

(** The literal parts of the two f-strings below are written with a
    backquote wherever the source has a double quote; [dq] puts the double
    quotes back.  The doubled braces of the f-strings are single here. *)
Definition dq_ascii (c : ascii) : ascii :=
  if (N_of_ascii c =? 96)%N then ascii_of_N 34 else c.

Fixpoint dq (s : string) : string :=
  match s with
  | EmptyString => EmptyString
  | String c rest => String (dq_ascii c) (dq rest)
  end.

(** [html_content] up to [{video.title}]. *)
Definition player_html_head : string := dq
"
<!DOCTYPE html>
<html lang=`en`>
<head>
    <meta charset=`UTF-8`>
    <meta name=`viewport` content=`width=device-width, initial-scale=1.0, maximum-scale=1.0, user-scalable=no`>
    <title>".

(** [html_content] between [{video.title}] and [{video.youtube_id}]. *)
Definition player_html_middle : string := dq
"</title>
    <style>
        * {
            margin: 0;
            padding: 0;
            box-sizing: border-box;
        }
        html, body {
            width: 100%;
            height: 100%;
            background-color: #000;
            overflow: hidden;
            touch-action: manipulation;
        }
        .player-wrapper {
            position: relative;
            width: 100%;
            height: 100%;
        }
        #player {
            position: absolute;
            top: 0;
            left: 0;
            width: 100%;
            height: 100%;
        }
        /* Custom controls overlay */
        .controls {
            position: absolute;
            bottom: 0;
            left: 0;
            right: 0;
            padding: 15px;
            background: linear-gradient(transparent, rgba(0,0,0,0.8));
            z-index: 100;
            display: flex;
            align-items: center;
            gap: 15px;
        }
        .play-btn {
            width: 44px;
            height: 44px;
            background: rgba(255,255,255,0.2);
            border: none;
            border-radius: 50%;
            color: white;
            font-size: 18px;
            cursor: pointer;
            display: flex;
            align-items: center;
            justify-content: center;
        }
        .progress-container {
            flex: 1;
            height: 6px;
            background: rgba(255,255,255,0.3);
            border-radius: 3px;
            cursor: pointer;
        }
        .progress-bar {
            height: 100%;
            background: #ff0000;
            border-radius: 3px;
            width: 0%;
            transition: width 0.1s;
        }
        .time {
            color: white;
            font-size: 12px;
            font-family: Arial, sans-serif;
            min-width: 80px;
            text-align: right;
        }
        .mute-btn {
            width: 40px;
            height: 40px;
            background: transparent;
            border: none;
            color: white;
            font-size: 20px;
            cursor: pointer;
        }
        /* Tap area for play/pause */
        .tap-area {
            position: absolute;
            top: 0;
            left: 0;
            right: 0;
            bottom: 60px;
            z-index: 50;
        }
        /* Center play button */
        .center-play {
            position: absolute;
            top: 50%;
            left: 50%;
            transform: translate(-50%, -50%);
            width: 70px;
            height: 70px;
            background: rgba(0,0,0,0.6);
            border-radius: 50%;
            display: flex;
            align-items: center;
            justify-content: center;
            font-size: 30px;
            color: white;
            z-index: 60;
            opacity: 0;
            transition: opacity 0.2s;
            pointer-events: none;
        }
        .center-play.visible {
            opacity: 1;
        }
    </style>
</head>
<body>
    <div class=`player-wrapper`>
        <div id=`player`></div>
        
        <!-- Tap area for play/pause -->
        <div class=`tap-area` id=`tapArea`></div>
        
        <!-- Center play indicator -->
        <div class=`center-play` id=`centerPlay`>‚ñ∂</div>
        
        <!-- Custom controls -->
        <div class=`controls`>
            <button class=`play-btn` id=`playBtn`>‚ñ∂</button>
            <div class=`progress-container` id=`progressContainer`>
                <div class=`progress-bar` id=`progressBar`></div>
            </div>
            <span class=`time` id=`timeDisplay`>0:00 / 0:00</span>
            <button class=`mute-btn` id=`muteBtn`>üîä</button>
        </div>
    </div>

    <script>
        // Load YouTube IFrame API
        var tag = document.createElement('script');
        tag.src = `https://www.youtube.com/iframe_api`;
        var firstScriptTag = document.getElementsByTagName('script')[0];
        firstScriptTag.parentNode.insertBefore(tag, firstScriptTag);

        var player;
        var isPlaying = false;
        var isMuted = false;
        var updateInterval;

        function onYouTubeIframeAPIReady() {
            player = new YT.Player('player', {
                videoId: '".

(** [html_content] after [{video.youtube_id}]. *)
Definition player_html_tail : string := dq
"',
                playerVars: {
                    'autoplay': 1,
                    'controls': 0,
                    'rel': 0,
                    'modestbranding': 1,
                    'playsinline': 1,
                    'fs': 0,
                    'iv_load_policy': 3,
                    'disablekb': 1,
                    'origin': window.location.origin
                },
                events: {
                    'onReady': onPlayerReady,
                    'onStateChange': onPlayerStateChange
                }
            });
        }

        function onPlayerReady(event) {
            event.target.playVideo();
            startProgressUpdate();
        }

        function onPlayerStateChange(event) {
            isPlaying = (event.data === YT.PlayerState.PLAYING);
            updatePlayButton();
        }

        function updatePlayButton() {
            document.getElementById('playBtn').textContent = isPlaying ? '‚è∏' : '‚ñ∂';
            document.getElementById('centerPlay').textContent = isPlaying ? '‚è∏' : '‚ñ∂';
        }

        function togglePlay() {
            if (isPlaying) {
                player.pauseVideo();
            } else {
                player.playVideo();
            }
            // Show center indicator briefly
            var center = document.getElementById('centerPlay');
            center.classList.add('visible');
            setTimeout(function() {
                center.classList.remove('visible');
            }, 500);
        }

        function toggleMute() {
            if (isMuted) {
                player.unMute();
                isMuted = false;
                document.getElementById('muteBtn').textContent = 'üîä';
            } else {
                player.mute();
                isMuted = true;
                document.getElementById('muteBtn').textContent = 'üîá';
            }
        }

        function formatTime(seconds) {
            var mins = Math.floor(seconds / 60);
            var secs = Math.floor(seconds % 60);
            return mins + ':' + (secs < 10 ? '0' : '') + secs;
        }

        function startProgressUpdate() {
            updateInterval = setInterval(function() {
                if (player && player.getCurrentTime) {
                    var current = player.getCurrentTime();
                    var duration = player.getDuration();
                    var percent = (current / duration) * 100;
                    document.getElementById('progressBar').style.width = percent + '%';
                    document.getElementById('timeDisplay').textContent = 
                        formatTime(current) + ' / ' + formatTime(duration);
                }
            }, 250);
        }

        function seek(e) {
            var container = document.getElementById('progressContainer');
            var rect = container.getBoundingClientRect();
            var percent = (e.clientX - rect.left) / rect.width;
            var duration = player.getDuration();
            player.seekTo(percent * duration, true);
        }

        // Event listeners
        document.getElementById('playBtn').addEventListener('click', togglePlay);
        document.getElementById('tapArea').addEventListener('click', togglePlay);
        document.getElementById('muteBtn').addEventListener('click', toggleMute);
        document.getElementById('progressContainer').addEventListener('click', seek);

        // Block any navigation attempts
        window.open = function() { return null; };
    </script>
</body>
</html>
".

(** [_error_html]'s page before and after [{message}]. *)
Definition error_html_head : string := dq
"
<!DOCTYPE html>
<html>
<head>
    <meta name=`viewport` content=`width=device-width, initial-scale=1.0`>
    <style>
        body {
            background-color: #1a1a1a;
            color: #fff;
            font-family: Arial, sans-serif;
            display: flex;
            justify-content: center;
            align-items: center;
            height: 100vh;
            margin: 0;
        }
        .error-container {
            text-align: center;
            padding: 20px;
        }
        h1 {
            color: #ff4444;
            margin-bottom: 10px;
        }
        p {
            color: #ccc;
        }
    </style>
</head>
<body>
    <div class=`error-container`>
        <h1>Error</h1>
        <p>".

Definition error_html_tail : string := dq
"</p>
    </div>
</body>
</html>
".

(** ** Exceptions *)

(** The exceptions of [jwt.exceptions], all of them [PyJWTError]s.
    PyJWT reports a token it rejects with one of the first seven, which
    derive from [InvalidTokenError]; [InvalidKeyError] does not: it is what
    [jwt.encode] and [jwt.decode] raise for a secret they take for an
    asymmetric key (a PEM block, an OpenSSH key). *)
Inductive JwtError : Type :=
  | ExpiredSignatureError
  | ImmatureSignatureError
  | InvalidSignatureError
  | InvalidAlgorithmError
  | InvalidAudienceError
  | InvalidIssuedAtError
  | DecodeError
  | InvalidKeyError.

Inductive PyExc : Type :=
  | PyJWTError (e : JwtError)
  (* bson.errors *)
  | InvalidId
  (* pymongo.errors *)
  | PyMongoError
  (* builtins *)
  | KeyError (key : string)
  | TypeError
  | AttributeError
  (* yt_dlp.utils *)
  | DownloadError
  (* requests.exceptions: ConnectTimeout and ReadTimeout derive from Timeout *)
  | ConnectTimeout
  | ReadTimeout
  | ConnectionError.

Definition isinstance_ExpiredSignatureError (e : PyExc) : bool :=
  match e with PyJWTError ExpiredSignatureError => true | _ => false end.

(** [InvalidKeyError] derives from [PyJWTError] alone; the other errors
    of PyJWT modelled here derive from [InvalidTokenError]. *)
Definition isinstance_InvalidTokenError (e : PyExc) : bool :=
  match e with
  | PyJWTError InvalidKeyError => false
  | PyJWTError _ => true
  | _ => false
  end.

Definition isinstance_Timeout (e : PyExc) : bool :=
  match e with ConnectTimeout | ReadTimeout => true | _ => false end.

(** Every modelled exception derives from [Exception]. *)
Definition isinstance_Exception (e : PyExc) : bool := true.

(** ** Process state *)

(** A value of [_stream_cache]: [{'url', 'headers', 'expires_at'}]. *)
Record CacheEntry : Type := {
  url : string;
  headers : Headers;
  expires_at : Z
}.

Record World : Type := {
  ticks : nat;                             (* clock readings made so far *)
  environ : gmap string string;            (* os.environ *)
  stream_cache : gmap string CacheEntry;   (* _stream_cache *)
  ydl_calls : list string;                 (* URLs given to extract_info, newest first *)
  upstream_calls : list (string * Headers) (* requests.get calls, newest first *)
}.

Definition set_ticks (n : nat) (w : World) : World :=
  {| ticks := n; environ := environ w; stream_cache := stream_cache w;
     ydl_calls := ydl_calls w; upstream_calls := upstream_calls w |}.

Definition set_stream_cache (c : gmap string CacheEntry) (w : World) : World :=
  {| ticks := ticks w; environ := environ w; stream_cache := c;
     ydl_calls := ydl_calls w; upstream_calls := upstream_calls w |}.

Definition set_ydl_calls (l : list string) (w : World) : World :=
  {| ticks := ticks w; environ := environ w; stream_cache := stream_cache w;
     ydl_calls := l; upstream_calls := upstream_calls w |}.

Definition set_upstream_calls (l : list (string * Headers)) (w : World) : World :=
  {| ticks := ticks w; environ := environ w; stream_cache := stream_cache w;
     ydl_calls := ydl_calls w; upstream_calls := l |}.

(** ** The monad of Python computations *)

Inductive Outcome (A : Type) : Type :=
  | Returns (a : A) (w : World)
  | Raises (e : PyExc) (w : World).
Arguments Returns {A} a w.
Arguments Raises {A} e w.

Definition Py (A : Type) : Type := World → Outcome A.

Definition ret {A} (a : A) : Py A := fun w => Returns a w.

Definition raise {A} (e : PyExc) : Py A := fun w => Raises e w.

Definition bind {A B} (m : Py A) (k : A → Py B) : Py B :=
  fun w => match m w with
           | Returns a w' => k a w'
           | Raises e w' => Raises e w'
           end.

Notation "x <- m ;; k" := (bind m (fun x => k))
  (at level 100, m at next level, right associativity, only parsing).
Notation "m ;;; k" := (bind m (fun _ => k))
  (at level 100, right associativity, only parsing).

(** A library call that returns or raises without touching the state. *)
Definition lift {A} (r : PyExc + A) : Py A :=
  match r with
  | inl e => raise e
  | inr a => ret a
  end.

(** [try: body  except ...: handler]: [handler e] is [None] when no
    [except] clause matches [e], which then propagates. *)
Definition try_except {A} (body : Py A) (handler : PyExc → option (Py A)) : Py A :=
  fun w => match body w with
           | Returns a w' => Returns a w'
           | Raises e w' => match handler e with
                            | Some h => h w'
                            | None => Raises e w'
                            end
           end.

Definition outcome_world {A} (o : Outcome A) : World :=
  match o with Returns _ w => w | Raises _ w => w end.

Definition outcome_value {A} (o : Outcome A) : option A :=
  match o with Returns a _ => Some a | Raises _ _ => None end.

(** ** Third-party collaborators *)

(** A document of the [videos] collection; a field is [None] when the
    document lacks the key. *)
Record VideoDoc : Type := {
  doc__id : option string;
  doc_title : option string;
  doc_description : option string;
  doc_youtube_id : option string;
  doc_thumbnail_url : option string;
  doc_is_active : option bool;
  doc_created_at : option Z
}.

(** An entry of [info['formats']] and the [info] dictionary that
    [YoutubeDL.extract_info] returns. *)
Record YdlFormat : Type := {
  fmt_url : option string;
  fmt_ext : option string;
  fmt_http_headers : option Headers
}.

Record YdlInfo : Type := {
  info_url : option string;
  info_http_headers : option Headers;
  info_formats : option (list YdlFormat)
}.

(** What [requests.get(..., stream=True)] returns: [up_headers] is the
    case-insensitive [resp.headers], keyed by lower-cased header name;
    [up_chunks] is what [iter_content] yields. *)
Record UpstreamResponse : Type := {
  up_status : Z;
  up_headers : Headers;
  up_chunks : list string
}.

Class Collaborators : Type := {
  (** the n-th reading of the system clock, in seconds *)
  clock : nat → Z;
  (** [jwt.encode(payload, key, algorithm='HS256')]: the token, or
      [InvalidKeyError] *)
  jwt_encode : Payload → string → JwtError + string;
  (** what [jwt.decode(token, key, algorithms=['HS256'])] does before it
      reads the clock: the parsing of the token, the test of the key, the
      signature check and the parsing of the payload *)
  jws_decode : string → string → JwtError + Payload;
  (** the checks of the registered claims that [jwt.decode] then makes
      against its clock reading; [None] when they pass *)
  jwt_validate_claims : Payload → Z → option JwtError;
  (** [bson.ObjectId(s)]: the identifier, or [InvalidId] *)
  bson_ObjectId : string → PyExc + string;
  (** [db['videos'].find_one({'_id': oid})]; raises when the database is
      unreachable or [get_db()] is still [None] *)
  videos_find_one : string → PyExc + option VideoDoc;
  (** [ydl.extract_info(url, download=False)], as the n-th invocation *)
  ydl_extract_info : nat → string → PyExc + option YdlInfo;
  (** [requests.get(url, headers=..., stream=True, timeout=30)], as the
      n-th fetch *)
  requests_get : nat → string → Headers → PyExc + UpstreamResponse
}.

(** ** The program *)

Section Program.
Context {lib : Collaborators}.

(** [time.time()], [datetime.utcnow()]: the next clock reading. *)
Definition time_time : Py Z :=
  fun w => Returns (clock (ticks w)) (set_ticks (S (ticks w)) w).

(** [os.getenv(name, fallback)] *)
Definition os_getenv (name fallback : string) : Py string :=
  fun w => Returns (default fallback (environ w !! name)) w.

(** [jwt.decode]: it reads the clock itself, and only for a token that
    passed the signature check, to check the registered claims. *)
Definition jwt_decode_now (token key : string) : Py Payload :=
  match jws_decode token key with
  | inr payload =>
      now <- time_time ;;
      match jwt_validate_claims payload now with
      | None => ret payload
      | Some e => raise (PyJWTError e)
      end
  | inl e => raise (PyJWTError e)
  end.

(** *** utils/video_token.py *)

Definition get_video_secret : Py string :=
  base <- os_getenv "JWT_SECRET_KEY" "video-secret-key" ;;
  ret (base +:+ "-video").

(** PyJWT serialises the two [datetime] claims as integer timestamps;
    [timedelta(hours=1)] is 3600 seconds. *)
Definition generate_playback_token (video_id user_id : string) : Py string :=
  iat <- time_time ;;
  utcnow <- time_time ;;
  let payload := [ ("video_id", JStr video_id);
                   ("user_id", JStr user_id);
                   ("type", JStr "playback");
                   ("iat", JInt iat);
                   ("exp", JInt (utcnow + 3600)) ] in
  secret <- get_video_secret ;;
  match jwt_encode payload secret with
  | inr token => ret token
  | inl e => raise (PyJWTError e)
  end.

Definition verify_playback_token (token video_id user_id : string)
  : Py (option Payload) :=
  try_except
    (secret <- get_video_secret ;;
     payload <- jwt_decode_now token secret ;;
     if get_ne_str payload "type" "playback" then ret None
     else if get_ne_str payload "video_id" video_id then ret None
     else if get_ne_str payload "user_id" user_id then ret None
     else ret (Some payload))
    (fun e =>
       if isinstance_ExpiredSignatureError e then Some (ret None)
       else if isinstance_InvalidTokenError e then Some (ret None)
       else None).

(** *** routes/video.py: verify_playback_token_without_user *)

Definition verify_playback_token_without_user (token video_id : string)
  : Py (option Payload) :=
  try_except
    (base <- os_getenv "JWT_SECRET_KEY" "jwt-secret-key" ;;
     let secret := base +:+ "-video" in
     payload <- jwt_decode_now token secret ;;
     if get_ne_str payload "type" "playback" then ret None
     else if get_ne_str payload "video_id" video_id then ret None
     else ret (Some payload))
    (fun e =>
       if isinstance_ExpiredSignatureError e then Some (ret None)
       else if isinstance_InvalidTokenError e then Some (ret None)
       else None).

(** *** models/video.py *)

Record Video : Type := {
  _id : string;
  title : string;
  description : string;
  youtube_id : string;
  thumbnail_url : string;
  is_active : bool;
  created_at : Z
}.

(** [data[key]]: [KeyError] when the document lacks the key. *)
Definition getitem {A} (key : string) (field : option A) : Py A :=
  match field with
  | Some v => ret v
  | None => raise (KeyError key)
  end.

(** A document is falsy only when it has no key at all. *)
Definition truthy_doc (data : VideoDoc) : bool :=
  has_key (doc__id data) || has_key (doc_title data)
  || has_key (doc_description data) || has_key (doc_youtube_id data)
  || has_key (doc_thumbnail_url data) || has_key (doc_is_active data)
  || has_key (doc_created_at data).

(** [Video.__init__] as called by [find_by_id]: [_id] is given, and
    [created_at or datetime.utcnow()] reads the clock when the document
    has no creation time. *)
Definition Video_init (title description youtube_id thumbnail_url : string)
    (is_active : bool) (_id : string) (created_at : option Z) : Py Video :=
  created_at <- match created_at with
                | Some t => ret t
                | None => time_time
                end ;;
  ret {| _id := _id; title := title; description := description;
         youtube_id := youtube_id; thumbnail_url := thumbnail_url;
         is_active := is_active; created_at := created_at |}.

(** [get_db()] returns the module's global and cannot raise.  The body of
    the [try] yields [Some video] at [return cls(...)] and [None] when
    control falls through to the final [return None], where
    [except Exception: pass] also leads. *)
Definition find_by_id (video_id : string) : Py (option Video) :=
  try_except
    (oid <- lift (bson_ObjectId video_id) ;;
     data <- lift (videos_find_one oid) ;;
     match data with
     | Some data =>
         if truthy_doc data then
           title <- getitem "title" (doc_title data) ;;
           description <- getitem "description" (doc_description data) ;;
           youtube_id <- getitem "youtube_id" (doc_youtube_id data) ;;
           thumbnail_url <- getitem "thumbnail_url" (doc_thumbnail_url data) ;;
           let is_active := default true (doc_is_active data) in
           _id <- getitem "_id" (doc__id data) ;;
           video <- Video_init title description youtube_id thumbnail_url
                      is_active _id (doc_created_at data) ;;
           ret (Some video)
         else ret None
     | None => ret None
     end)
    (fun e => if isinstance_Exception e then Some (ret None) else None).

(** *** routes/video.py: the stream cache *)

Definition CACHE_DURATION : Z := 3600.

(** The body of [with _cache_lock:] runs without interference; the lock
    itself appears in the thread model below. *)
Definition _get_cached_stream_data (youtube_id : string)
  : Py (option CacheEntry) :=
  fun w =>
    match stream_cache w !! youtube_id with
    | Some cached =>
        (now <- time_time ;;
         if expires_at cached >? now then ret (Some cached)
         else fun w' =>
           Returns None (set_stream_cache (delete youtube_id (stream_cache w')) w')) w
    | None => Returns None w
    end.

Definition _cache_stream_data (youtube_id url : string) (headers : Headers)
  : Py unit :=
  now <- time_time ;;
  fun w =>
    Returns tt
      (set_stream_cache
         (<[youtube_id := {| url := url; headers := headers;
                             expires_at := now + CACHE_DURATION |}]>
            (stream_cache w)) w).

(** [ydl.extract_info(youtube_url, download=False)]: one more resolver
    invocation. *)
Definition extract_info (youtube_url : string) : Py (option YdlInfo) :=
  fun w =>
    let w' := set_ydl_calls (youtube_url :: ydl_calls w) w in
    match ydl_extract_info (length (ydl_calls w)) youtube_url with
    | inr info => Returns info w'
    | inl e => Raises e w'
    end.

(** [info.get(...)] on the value [extract_info] returned. *)
Definition info_dict (info : option YdlInfo) : Py YdlInfo :=
  match info with
  | Some info => ret info
  | None => raise AttributeError
  end.

Definition usable_mp4 (fmt : YdlFormat) : bool :=
  truthy_str (fmt_url fmt) && bool_decide (fmt_ext fmt = Some "mp4").

Definition usable (fmt : YdlFormat) : bool := truthy_str (fmt_url fmt).

Definition _extract_stream_data (youtube_id : string)
  : Py (option string * option Headers) :=
  try_except
    (cached <- _get_cached_stream_data youtube_id ;;
     match cached with
     | Some cached => ret (Some (url cached), Some (headers cached))
     | None =>
         let youtube_url := "https://www.youtube.com/watch?v=" +:+ youtube_id in
         info <- extract_info youtube_url ;;
         info <- info_dict info ;;
         let stream_url := info_url info in
         let http_headers := default ∅ (info_http_headers info) in
         if truthy_str stream_url then
           _cache_stream_data youtube_id (default "" stream_url) http_headers ;;;
           ret (stream_url, Some http_headers)
         else
           let formats := default [] (info_formats info) in
           match find usable_mp4 (reverse formats) with
           | Some fmt =>
               let url := default "" (fmt_url fmt) in
               let headers := default http_headers (fmt_http_headers fmt) in
               _cache_stream_data youtube_id url headers ;;;
               ret (Some url, Some headers)
           | None =>
               match find usable (reverse formats) with
               | Some fmt =>
                   let url := default "" (fmt_url fmt) in
                   let headers := default http_headers (fmt_http_headers fmt) in
                   _cache_stream_data youtube_id url headers ;;;
                   ret (Some url, Some headers)
               | None => ret (None, None)
               end
           end
     end)
    (fun e => if isinstance_Exception e then Some (ret (None, None)) else None).

(** *** routes/video.py: the endpoints *)

Definition text_response (text : string) (code : Z) : Response :=
  {| status := code; resp_headers := ∅; body := BodyText text |}.

Definition jsonify (json : Payload) (code : Z) : Response :=
  {| status := code; resp_headers := ∅; body := BodyJson json |}.

(** [@jwt_required()] with the loaders of [app/__init__.py]: without a
    valid access token the view is not entered and the answer is 401. *)
Definition jwt_required (request : Request) (view : string → Py Response)
  : Py Response :=
  match req_auth request with
  | AuthIdentity identity => view identity
  | AuthMissing =>
      ret (jsonify [("error", JStr "Authorization required");
                    ("message", JStr "No token provided")] 401)
  | AuthExpired =>
      ret (jsonify [("error", JStr "Token has expired");
                    ("message", JStr "Please log in again")] 401)
  | AuthInvalid =>
      ret (jsonify [("error", JStr "Invalid token");
                    ("message", JStr "Token verification failed")] 401)
  end.

Definition internal_server_error (e : PyExc) : option (Py Response) :=
  if isinstance_Exception e
  then Some (ret (jsonify [("error", JStr "Internal server error")] 500))
  else None.

Definition stream_video (video_id : string) (request : Request) : Py Response :=
  jwt_required request (fun user_id =>
    try_except
      (let playback_token := req_token request in
       if negb (truthy_str playback_token) then
         ret (jsonify [("error", JStr "Playback token is required")] 400)
       else
         token_data <- verify_playback_token (default "" playback_token)
                         video_id user_id ;;
         if negb (truthy_dict token_data) then
           ret (jsonify [("error", JStr "Invalid or expired playback token")] 400)
         else
           video <- find_by_id video_id ;;
           match video with
           | None => ret (jsonify [("error", JStr "Video not found")] 404)
           | Some video =>
               if negb (is_active video) then
                 ret (jsonify [("error", JStr "Video is not available")] 404)
               else
                 let proxy_url :=
                   "/video/" +:+ video_id +:+ "/proxy?token="
                   +:+ default "" playback_token in
                 ret (jsonify [ ("stream_url", JStr proxy_url);
                                ("video_id", JStr video_id);
                                ("title", JStr (title video));
                                ("description", JStr (description video));
                                ("thumbnail_url", JStr (thumbnail_url video));
                                ("expires_in", JInt 3600) ] 200)
           end)
      internal_server_error).

(** [requests.get(stream_url, headers=req_headers, stream=True, timeout=30)] *)
Definition requests_get_call (stream_url : string) (req_headers : Headers)
  : Py UpstreamResponse :=
  fun w =>
    let w' := set_upstream_calls ((stream_url, req_headers) :: upstream_calls w) w in
    match requests_get (length (upstream_calls w)) stream_url req_headers with
    | inr resp => Returns resp w'
    | inl e => Raises e w'
    end.

(** The three headers always set, then the two copied when upstream has
    them. *)
Definition build_response_headers (resp : UpstreamResponse) : Headers :=
  let response_headers : Headers :=
    <["Content-Type" := default "video/mp4" (ci_get (up_headers resp) "Content-Type")]>
    (<["Accept-Ranges" := "bytes"]>
    (<["Access-Control-Allow-Origin" := "*"]> ∅)) in
  let response_headers :=
    match ci_get (up_headers resp) "Content-Length" with
    | Some v => <["Content-Length" := v]> response_headers
    | None => response_headers
    end in
  match ci_get (up_headers resp) "Content-Range" with
  | Some v => <["Content-Range" := v]> response_headers
  | None => response_headers
  end.

(** [generate()]: the non-empty chunks of [resp.iter_content]. *)
Definition generate (resp : UpstreamResponse) : list string :=
  filter (fun chunk => chunk ≠ "") (up_chunks resp).

Definition proxy_video (video_id : string) (request : Request) : Py Response :=
  try_except
    (let playback_token := req_token request in
     if negb (truthy_str playback_token) then ret (text_response "Token required" 400)
     else
       token_data <- verify_playback_token_without_user
                       (default "" playback_token) video_id ;;
       if negb (truthy_dict token_data) then
         ret (text_response "Invalid or expired token" 400)
       else
         video <- find_by_id video_id ;;
         match video with
         | None => ret (text_response "Video not found" 404)
         | Some video =>
             if negb (is_active video) then
               ret (text_response "Video not available" 404)
             else
               stream <- _extract_stream_data (youtube_id video) ;;
               let stream_url := fst stream in
               let stream_headers := snd stream in
               if negb (truthy_str stream_url) then
                 ret (text_response "Failed to get video stream" 500)
               else
                 let range_header := req_range request in
                 let req_headers := default ∅ stream_headers in
                 let req_headers :=
                   if truthy_str range_header
                   then <["Range" := default "" range_header]> req_headers
                   else req_headers in
                 resp <- requests_get_call (default "" stream_url) req_headers ;;
                 let response_headers := build_response_headers resp in
                 let status_code :=
                   if truthy_str range_header && bool_decide (up_status resp = 206)
                   then 206 else 200 in
                 ret {| status := status_code;
                        resp_headers := response_headers;
                        body := BodyStream (generate resp) |}
         end)
    (fun e =>
       if isinstance_Timeout e then Some (ret (text_response "Stream timeout" 504))
       else if isinstance_Exception e
       then Some (ret (text_response "Failed to stream video" 500))
       else None).

Definition _error_html (message : string) : Response :=
  let html := error_html_head +:+ message +:+ error_html_tail in
  {| status := 200;
     resp_headers := <["Content-Type" := "text/html"]> ∅;
     body := BodyText html |}.

(** [return response, code] *)
Definition with_status (response : Response) (code : Z) : Response :=
  {| status := code; resp_headers := resp_headers response;
     body := body response |}.

Definition video_player (video_id : string) (request : Request) : Py Response :=
  try_except
    (let playback_token := req_token request in
     if negb (truthy_str playback_token) then
       ret (with_status (_error_html "Playback token is required") 400)
     else
       token_data <- verify_playback_token_without_user
                       (default "" playback_token) video_id ;;
       if negb (truthy_dict token_data) then
         ret (with_status (_error_html "Invalid or expired playback token") 400)
       else
         video <- find_by_id video_id ;;
         match video with
         | None => ret (with_status (_error_html "Video not found") 404)
         | Some video =>
             if negb (is_active video) then
               ret (with_status (_error_html "Video is not available") 404)
             else
               let html_content :=
                 player_html_head +:+ title video +:+ player_html_middle
                 +:+ youtube_id video +:+ player_html_tail in
               ret {| status := 200;
                      resp_headers :=
                        <["Pragma" := "no-cache"]>
                        (<["Cache-Control" :=
                             "no-store, no-cache, must-revalidate, max-age=0"]>
                        (<["Content-Type" := "text/html"]> ∅));
                      body := BodyText html_content |}
         end)
    (fun e =>
       if isinstance_Exception e
       then Some (ret (with_status (_error_html "Internal server error") 500))
       else None).

End Program.

(** ** Concurrent calls of [_extract_stream_data]

    Request threads interleave at the granularity the source fixes: the
    two [with _cache_lock:] blocks are atomic once the lock is taken, and
    everything between them, the resolver call included, runs with the lock
    free. *)

Section Threads.
Context {lib : Collaborators}.

(** What [_extract_stream_data] picks from [info]: lines 68-91 without
    the calls of [_cache_stream_data]. *)
Definition choose_stream (info : YdlInfo) : option (string * Headers) :=
  let http_headers := default ∅ (info_http_headers info) in
  if truthy_str (info_url info) then
    Some (default "" (info_url info), http_headers)
  else
    let formats := default [] (info_formats info) in
    match find usable_mp4 (reverse formats) with
    | Some fmt =>
        Some (default "" (fmt_url fmt),
              default http_headers (fmt_http_headers fmt))
    | None =>
        match find usable (reverse formats) with
        | Some fmt =>
            Some (default "" (fmt_url fmt),
                  default http_headers (fmt_http_headers fmt))
        | None => None
        end
    end.

(** The resolver invocation of one call. *)
Definition resolve (youtube_id : string) : Py (option (string * Headers)) :=
  info <- extract_info ("https://www.youtube.com/watch?v=" +:+ youtube_id) ;;
  info <- info_dict info ;;
  ret (choose_stream info).

(** Where a thread stands inside [_extract_stream_data]. *)
Inductive Pc : Type :=
  | AtLookup                                  (* waiting for the lock, line 23 *)
  | InLookup                                  (* holding it, lines 24-29 *)
  | AtResolve                                 (* after a miss, lines 55-65 *)
  | AtStore (url : string) (headers : Headers) (* waiting for the lock, line 35 *)
  | InStore (url : string) (headers : Headers) (* holding it, lines 36-40 *)
  | Finished (result : option string * option Headers).

Record Thread : Type := {
  thr_youtube_id : string;
  thr_pc : Pc
}.

Record System : Type := {
  sys_world : World;
  sys_locked : bool;            (* _cache_lock is held *)
  sys_threads : list Thread
}.

Definition at_pc (t : Thread) (pc : Pc) : Thread :=
  {| thr_youtube_id := thr_youtube_id t; thr_pc := pc |}.

(** One step of a thread; [None] when it is blocked on the lock or has
    finished.  An exception anywhere ends the call with [(None, None)] and
    leaves the lock free, as [with] and [except Exception] do. *)
Definition thread_step (t : Thread) (locked : bool) (w : World)
  : option (Thread * bool * World) :=
  let youtube_id := thr_youtube_id t in
  match thr_pc t with
  | AtLookup =>
      if locked then None else Some (at_pc t InLookup, true, w)
  | InLookup =>
      match _get_cached_stream_data youtube_id w with
      | Returns (Some cached) w' =>
          Some (at_pc t (Finished (Some (url cached), Some (headers cached))),
                false, w')
      | Returns None w' => Some (at_pc t AtResolve, false, w')
      | Raises _ w' => Some (at_pc t (Finished (None, None)), false, w')
      end
  | AtResolve =>
      match resolve youtube_id w with
      | Returns (Some (url, headers)) w' =>
          Some (at_pc t (AtStore url headers), locked, w')
      | Returns None w' => Some (at_pc t (Finished (None, None)), locked, w')
      | Raises _ w' => Some (at_pc t (Finished (None, None)), locked, w')
      end
  | AtStore url headers =>
      if locked then None else Some (at_pc t (InStore url headers), true, w)
  | InStore url headers =>
      match _cache_stream_data youtube_id url headers w with
      | Returns _ w' =>
          Some (at_pc t (Finished (Some url, Some headers)), false, w')
      | Raises _ w' => Some (at_pc t (Finished (None, None)), false, w')
      end
  | Finished _ => None
  end.

(** Thread [i] takes its next step. *)
Definition step (i : nat) (s : System) : option System :=
  match sys_threads s !! i with
  | Some t =>
      match thread_step t (sys_locked s) (sys_world s) with
      | Some (t', locked', w') =>
          Some {| sys_world := w'; sys_locked := locked';
                  sys_threads := <[i := t']> (sys_threads s) |}
      | None => None
      end
  | None => None
  end.

(** A schedule names the thread that moves at each step. *)
Fixpoint run (schedule : list nat) (s : System) : option System :=
  match schedule with
  | [] => Some s
  | i :: rest =>
      match step i s with
      | Some s' => run rest s'
      | None => None
      end
  end.

(** The calls start together: every thread is about to look up. *)
Definition start (youtube_ids : list string) (w : World) : System :=
  {| sys_world := w; sys_locked := false;
     sys_threads :=
       map (fun y => {| thr_youtube_id := y; thr_pc := AtLookup |}) youtube_ids |}.

(** A thread that has not invoked the resolver yet and may still do so. *)
Definition may_resolve (t : Thread) : bool :=
  match thr_pc t with
  | AtLookup | InLookup | AtResolve => true
  | _ => false
  end.

Definition result_of (s : System) (i : nat) : option (option string * option Headers) :=
  match sys_threads s !! i with
  | Some {| thr_pc := Finished r |} => Some r
  | _ => None
  end.

End Threads.

(** ** Reference collaborators

    An executable instance of [Collaborators], used to run the program on
    concrete requests.  Its PyJWT is the HS256 path of the library: compact
    JWS serialisation, base64url without padding, HMAC-SHA256 (FIPS 180-4,
    RFC 2104), the test of the key and the registered-claim checks.  It
    reads strings as bytes, accepts integers as the only JSON numbers,
    rejects a segment that has a character outside the URL-safe alphabet,
    and takes a key for an asymmetric one by the test of PyJWT 1.x. *)

Module SHA256.

Definition w32 (x : Z) : Z := Z.land x 0xFFFFFFFF.
Definition add32 (x y : Z) : Z := w32 (x + y).
Definition rotr (n x : Z) : Z :=
  Z.lor (Z.shiftr x n) (w32 (Z.shiftl x (32 - n))).
Definition not32 (x : Z) : Z := Z.lxor x 0xFFFFFFFF.

Definition Ch (x y z : Z) : Z := Z.lxor (Z.land x y) (Z.land (not32 x) z).
Definition Maj (x y z : Z) : Z :=
  Z.lxor (Z.lxor (Z.land x y) (Z.land x z)) (Z.land y z).
Definition Sigma0 (x : Z) : Z := Z.lxor (Z.lxor (rotr 2 x) (rotr 13 x)) (rotr 22 x).
Definition Sigma1 (x : Z) : Z := Z.lxor (Z.lxor (rotr 6 x) (rotr 11 x)) (rotr 25 x).
Definition sigma0 (x : Z) : Z := Z.lxor (Z.lxor (rotr 7 x) (rotr 18 x)) (Z.shiftr x 3).
Definition sigma1 (x : Z) : Z := Z.lxor (Z.lxor (rotr 17 x) (rotr 19 x)) (Z.shiftr x 10).

Definition K256 : list Z :=
  [ 0x428A2F98; 0x71374491; 0xB5C0FBCF; 0xE9B5DBA5;
    0x3956C25B; 0x59F111F1; 0x923F82A4; 0xAB1C5ED5;
    0xD807AA98; 0x12835B01; 0x243185BE; 0x550C7DC3;
    0x72BE5D74; 0x80DEB1FE; 0x9BDC06A7; 0xC19BF174;
    0xE49B69C1; 0xEFBE4786; 0x0FC19DC6; 0x240CA1CC;
    0x2DE92C6F; 0x4A7484AA; 0x5CB0A9DC; 0x76F988DA;
    0x983E5152; 0xA831C66D; 0xB00327C8; 0xBF597FC7;
    0xC6E00BF3; 0xD5A79147; 0x06CA6351; 0x14292967;
    0x27B70A85; 0x2E1B2138; 0x4D2C6DFC; 0x53380D13;
    0x650A7354; 0x766A0ABB; 0x81C2C92E; 0x92722C85;
    0xA2BFE8A1; 0xA81A664B; 0xC24B8B70; 0xC76C51A3;
    0xD192E819; 0xD6990624; 0xF40E3585; 0x106AA070;
    0x19A4C116; 0x1E376C08; 0x2748774C; 0x34B0BCB5;
    0x391C0CB3; 0x4ED8AA4A; 0x5B9CCA4F; 0x682E6FF3;
    0x748F82EE; 0x78A5636F; 0x84C87814; 0x8CC70208;
    0x90BEFFFA; 0xA4506CEB; 0xBEF9A3F7; 0xC67178F2 ].

Record state : Type := State {
  va : Z; vb : Z; vc : Z; vd : Z; ve : Z; vf : Z; vg : Z; vh : Z
}.

Definition initial : state :=
  State 0x6A09E667 0xBB67AE85 0x3C6EF372 0xA54FF53A
        0x510E527F 0x9B05688C 0x1F83D9AB 0x5BE0CD19.

(** One round, on the round constant and the schedule word. *)
Definition round (s : state) (kw : Z * Z) : state :=
  let t1 := add32 (add32 (add32 (add32 (vh s) (Sigma1 (ve s)))
                                (Ch (ve s) (vf s) (vg s))) (fst kw)) (snd kw) in
  let t2 := add32 (Sigma0 (va s)) (Maj (va s) (vb s) (vc s)) in
  State (add32 t1 t2) (va s) (vb s) (vc s) (add32 (vd s) t1) (ve s) (vf s) (vg s).

(** Schedule words 16..63; [recent] is the last sixteen, newest first. *)
Fixpoint schedule (n : nat) (recent : list Z) : list Z :=
  match n with
  | O => []
  | S n' =>
      let wt := add32 (add32 (add32 (sigma1 (nth 1 recent 0)) (nth 6 recent 0))
                             (sigma0 (nth 14 recent 0))) (nth 15 recent 0) in
      wt :: schedule n' (wt :: firstn 15 recent)
  end.

Fixpoint be_words (bytes : list Z) : list Z :=
  match bytes with
  | b0 :: b1 :: b2 :: b3 :: rest =>
      Z.lor (Z.shiftl b0 24) (Z.lor (Z.shiftl b1 16) (Z.lor (Z.shiftl b2 8) b3))
      :: be_words rest
  | _ => []
  end.

Definition compress (s : state) (block : list Z) : state :=
  let w16 := be_words block in
  let ws := w16 ++ schedule 48 (rev w16) in
  let r := fold_left round (combine K256 ws) s in
  State (add32 (va s) (va r)) (add32 (vb s) (vb r)) (add32 (vc s) (vc r))
        (add32 (vd s) (vd r)) (add32 (ve s) (ve r)) (add32 (vf s) (vf r))
        (add32 (vg s) (vg r)) (add32 (vh s) (vh r)).

(** The [n] low bytes of [x], most significant first. *)
Definition be_bytes (n : nat) (x : Z) : list Z :=
  map (fun i => Z.land (Z.shiftr x (8 * Z.of_nat i)) 0xFF) (rev (seq 0 n)).

Definition pad (msg : list Z) : list Z :=
  let len := Z.of_nat (length msg) in
  msg ++ [0x80] ++ repeat 0 (Z.to_nat ((55 - len) mod 64)) ++ be_bytes 8 (8 * len).

Fixpoint absorb (n : nat) (bytes : list Z) (s : state) : state :=
  match n with
  | O => s
  | S n' =>
      match bytes with
      | [] => s
      | _ => absorb n' (skipn 64 bytes) (compress s (firstn 64 bytes))
      end
  end.

Definition digest (msg : list Z) : list Z :=
  let p := pad msg in
  let s := absorb (length p) p initial in
  flat_map (be_bytes 4) [va s; vb s; vc s; vd s; ve s; vf s; vg s; vh s].

End SHA256.

Module HMAC.

Definition xor_with (c : Z) (key : list Z) : list Z := map (Z.lxor c) key.

(** HMAC-SHA256, block size 64. *)
Definition hmac_sha256 (key msg : list Z) : list Z :=
  let k0 := if 64 <? Z.of_nat (length key) then SHA256.digest key else key in
  let k := k0 ++ repeat 0 (64 - length k0)%nat in
  SHA256.digest (xor_with 0x5C k ++ SHA256.digest (xor_with 0x36 k ++ msg)).

End HMAC.

Definition bytes_of_string (s : string) : list Z :=
  map (fun c => Z.of_N (N_of_ascii c)) (list_ascii_of_string s).

Definition string_of_bytes (bytes : list Z) : string :=
  string_of_list_ascii (map (fun b => ascii_of_N (Z.to_N b)) bytes).

Definition hex_digit (d : Z) : ascii :=
  ascii_of_N (Z.to_N (if d <? 10 then 48 + d else 87 + d)).

Fixpoint hex (bytes : list Z) : string :=
  match bytes with
  | [] => EmptyString
  | b :: rest => String (hex_digit (b / 16)) (String (hex_digit (b mod 16)) (hex rest))
  end.

Module Base64url.

Definition alphabet : list ascii :=
  list_ascii_of_string
    "ABCDEFGHIJKLMNOPQRSTUVWXYZabcdefghijklmnopqrstuvwxyz0123456789-_".

Definition enc (v : Z) : ascii := nth (Z.to_nat v) alphabet "A"%char.

Fixpoint index_of (c : ascii) (l : list ascii) (i : Z) : option Z :=
  match l with
  | [] => None
  | x :: rest => if bool_decide (x = c) then Some i else index_of c rest (i + 1)
  end.

Definition dec (c : ascii) : option Z := index_of c alphabet 0.

(** [base64.urlsafe_b64encode(bytes).replace(b'=', b'')] *)
Fixpoint encode (bytes : list Z) : list ascii :=
  match bytes with
  | b0 :: b1 :: b2 :: rest =>
      enc (Z.shiftr b0 2)
      :: enc (Z.lor (Z.shiftl (Z.land b0 3) 4) (Z.shiftr b1 4))
      :: enc (Z.lor (Z.shiftl (Z.land b1 15) 2) (Z.shiftr b2 6))
      :: enc (Z.land b2 63) :: encode rest
  | [b0; b1] =>
      [ enc (Z.shiftr b0 2);
        enc (Z.lor (Z.shiftl (Z.land b0 3) 4) (Z.shiftr b1 4));
        enc (Z.shiftl (Z.land b1 15) 2) ]
  | [b0] => [ enc (Z.shiftr b0 2); enc (Z.shiftl (Z.land b0 3) 4) ]
  | [] => []
  end.

Fixpoint sextets (cs : list ascii) : option (list Z) :=
  match cs with
  | [] => Some []
  | c :: rest =>
      match dec c, sextets rest with
      | Some v, Some vs => Some (v :: vs)
      | _, _ => None
      end
  end.

Fixpoint octets (vs : list Z) : option (list Z) :=
  match vs with
  | v0 :: v1 :: v2 :: v3 :: rest =>
      match octets rest with
      | Some bytes =>
          Some (Z.lor (Z.shiftl v0 2) (Z.shiftr v1 4)
                :: Z.lor (Z.shiftl (Z.land v1 15) 4) (Z.shiftr v2 2)
                :: Z.lor (Z.shiftl (Z.land v2 3) 6) v3 :: bytes)
      | None => None
      end
  | [v0; v1; v2] =>
      Some [ Z.lor (Z.shiftl v0 2) (Z.shiftr v1 4);
             Z.lor (Z.shiftl (Z.land v1 15) 4) (Z.shiftr v2 2) ]
  | [v0; v1] => Some [ Z.lor (Z.shiftl v0 2) (Z.shiftr v1 4) ]
  | [_] => None
  | [] => Some []
  end.

Definition decode (cs : list ascii) : option (list Z) :=
  match sextets cs with
  | Some vs => octets vs
  | None => None
  end.

End Base64url.

Module JSON.

Definition quote : ascii := ascii_of_N 34.
Definition backslash : ascii := ascii_of_N 92.

(** [json.dumps] escapes: the quote, the backslash, the control
    characters, and everything outside ASCII. *)
Definition escape (c : ascii) : string :=
  let n := Z.of_N (N_of_ascii c) in
  if n =? 34 then String backslash (String quote EmptyString)
  else if n =? 92 then String backslash (String backslash EmptyString)
  else if n =? 10 then "\n"
  else if n =? 13 then "\r"
  else if n =? 9 then "\t"
  else if n =? 8 then "\b"
  else if n =? 12 then "\f"
  else if (n <? 32) || (126 <? n) then "\u00" +:+ hex [n]
  else String c EmptyString.

Fixpoint escape_all (s : string) : string :=
  match s with
  | EmptyString => EmptyString
  | String c rest => escape c +:+ escape_all rest
  end.

Definition dumps_str (s : string) : string :=
  String quote (escape_all s) +:+ String quote EmptyString.

(** [json.dumps(value, separators=(',', ':'))] *)
Fixpoint dumps (j : Json) : string :=
  match j with
  | JNull => "null"
  | JBool true => "true"
  | JBool false => "false"
  | JInt z => pretty z
  | JStr s => dumps_str s
  | JList l =>
      "[" +:+ (fix items (l : list Json) : string :=
                 match l with
                 | [] => ""
                 | x :: rest =>
                     match rest with
                     | [] => dumps x
                     | _ => dumps x +:+ "," +:+ items rest
                     end
                 end) l +:+ "]"
  | JDict d =>
      "{" +:+ (fix members (d : list (string * Json)) : string :=
                 match d with
                 | [] => ""
                 | (k, v) :: rest =>
                     match rest with
                     | [] => dumps_str k +:+ ":" +:+ dumps v
                     | _ => dumps_str k +:+ ":" +:+ dumps v +:+ "," +:+ members rest
                     end
                 end) d +:+ "}"
  end.

Definition code (c : ascii) : Z := Z.of_N (N_of_ascii c).

Definition is_ws (c : ascii) : bool :=
  (code c =? 32) || (code c =? 9) || (code c =? 10) || (code c =? 13).

Definition is_digit (c : ascii) : bool := (48 <=? code c) && (code c <=? 57).

Fixpoint skip_ws (cs : list ascii) : list ascii :=
  match cs with
  | c :: rest => if is_ws c then skip_ws rest else cs
  | [] => []
  end.

(** [cs] without the literal [lit] in front of it. *)
Fixpoint expect (lit cs : list ascii) : option (list ascii) :=
  match lit, cs with
  | [], _ => Some cs
  | l :: lit', c :: cs' => if bool_decide (l = c) then expect lit' cs' else None
  | _ :: _, [] => None
  end.

Fixpoint digits (cs : list ascii) (acc : Z) : Z * list ascii :=
  match cs with
  | c :: rest => if is_digit c then digits rest (10 * acc + (code c - 48)) else (acc, cs)
  | [] => (acc, [])
  end.

(** An integer: no leading zero, and no fraction or exponent after it. *)
Definition parse_nat (cs : list ascii) : option (Z * list ascii) :=
  match cs with
  | c :: rest =>
      if negb (is_digit c) then None
      else
        let '(n, rest') := if code c =? 48 then (0, rest) else digits cs 0 in
        match rest' with
        | d :: _ =>
            if (code d =? 46) || (code d =? 101) || (code d =? 69) then None
            else Some (n, rest')
        | [] => Some (n, rest')
        end
  | [] => None
  end.

Definition parse_int (cs : list ascii) : option (Z * list ascii) :=
  match cs with
  | c :: rest =>
      if code c =? 45 then
        match parse_nat rest with
        | Some (n, rest') => Some (- n, rest')
        | None => None
        end
      else parse_nat cs
  | [] => None
  end.

Definition hex_value (c : ascii) : option Z :=
  let n := code c in
  if (48 <=? n) && (n <=? 57) then Some (n - 48)
  else if (97 <=? n) && (n <=? 102) then Some (n - 87)
  else if (65 <=? n) && (n <=? 70) then Some (n - 55)
  else None.

Definition unescape (c : ascii) : option ascii :=
  let n := code c in
  if (n =? 34) || (n =? 92) || (n =? 47) then Some c
  else if n =? 110 then Some (ascii_of_N 10)
  else if n =? 114 then Some (ascii_of_N 13)
  else if n =? 116 then Some (ascii_of_N 9)
  else if n =? 98 then Some (ascii_of_N 8)
  else if n =? 102 then Some (ascii_of_N 12)
  else None.

(** The rest of a string literal, after its opening quote. *)
Fixpoint parse_string (cs : list ascii) : option (string * list ascii) :=
  match cs with
  | [] => None
  | c :: rest =>
      if code c =? 34 then Some (EmptyString, rest)
      else if code c =? 92 then
        match rest with
        | e :: rest1 =>
            if code e =? 117 then
              match rest1 with
              | h1 :: h2 :: h3 :: h4 :: rest2 =>
                  match hex_value h1, hex_value h2, hex_value h3, hex_value h4 with
                  | Some 0, Some 0, Some d3, Some d4 =>
                      match parse_string rest2 with
                      | Some (s, r) =>
                          Some (String (ascii_of_N (Z.to_N (16 * d3 + d4))) s, r)
                      | None => None
                      end
                  | _, _, _, _ => None
                  end
              | _ => None
              end
            else
              match unescape e, parse_string rest1 with
              | Some c', Some (s, r) => Some (String c' s, r)
              | _, _ => None
              end
        | [] => None
        end
      else if code c <? 32 then None
      else
        match parse_string rest with
        | Some (s, r) => Some (String c s, r)
        | None => None
        end
  end.

(** Assignment to a dictionary key: the last value wins, at the place of
    the first. *)
Fixpoint dict_set (d : Payload) (key : string) (v : Json) : Payload :=
  match d with
  | [] => [(key, v)]
  | (k, v0) :: rest =>
      if bool_decide (k = key) then (k, v) :: rest else (k, v0) :: dict_set rest key v
  end.

Section Containers.
Variable value : list ascii → option (Json * list ascii).

(** The elements after [[], up to the closing bracket. *)
Fixpoint parse_items (n : nat) (cs : list ascii) : option (list Json * list ascii) :=
  match n with
  | O => None
  | S n' =>
      match value cs with
      | Some (v, rest) =>
          match skip_ws rest with
          | c :: rest' =>
              if code c =? 44 then
                match parse_items n' rest' with
                | Some (vs, r) => Some (v :: vs, r)
                | None => None
                end
              else if code c =? 93 then Some ([v], rest')
              else None
          | [] => None
          end
      | None => None
      end
  end.

(** The members after [{], up to the closing brace. *)
Fixpoint parse_members (n : nat) (cs : list ascii) (acc : Payload)
  : option (Payload * list ascii) :=
  match n with
  | O => None
  | S n' =>
      match expect [quote] (skip_ws cs) with
      | Some rest =>
          match parse_string rest with
          | Some (key, rest1) =>
              match expect [":"%char] (skip_ws rest1) with
              | Some rest2 =>
                  match value rest2 with
                  | Some (v, rest3) =>
                      match skip_ws rest3 with
                      | c :: rest4 =>
                          if code c =? 44 then parse_members n' rest4 (dict_set acc key v)
                          else if code c =? 125 then Some (dict_set acc key v, rest4)
                          else None
                      | [] => None
                      end
                  | None => None
                  end
              | None => None
              end
          | None => None
          end
      | None => None
      end
  end.

End Containers.

Fixpoint parse_value (fuel : nat) (cs : list ascii) : option (Json * list ascii) :=
  match fuel with
  | O => None
  | S fuel' =>
      match skip_ws cs with
      | [] => None
      | c :: rest =>
          if code c =? 34 then
            match parse_string rest with
            | Some (s, r) => Some (JStr s, r)
            | None => None
            end
          else if code c =? 91 then
            match expect ["]"%char] (skip_ws rest) with
            | Some r => Some (JList [], r)
            | None =>
                match parse_items (parse_value fuel') (length rest) rest with
                | Some (vs, r) => Some (JList vs, r)
                | None => None
                end
            end
          else if code c =? 123 then
            match expect ["}"%char] (skip_ws rest) with
            | Some r => Some (JDict [], r)
            | None =>
                match parse_members (parse_value fuel') (length rest) rest [] with
                | Some (d, r) => Some (JDict d, r)
                | None => None
                end
            end
          else
            match expect (list_ascii_of_string "null") (c :: rest),
                  expect (list_ascii_of_string "true") (c :: rest),
                  expect (list_ascii_of_string "false") (c :: rest) with
            | Some r, _, _ => Some (JNull, r)
            | _, Some r, _ => Some (JBool true, r)
            | _, _, Some r => Some (JBool false, r)
            | None, None, None =>
                match parse_int (c :: rest) with
                | Some (z, r) => Some (JInt z, r)
                | None => None
                end
            end
      end
  end.

(** [json.loads]: one value and nothing but blanks after it. *)
Definition loads (s : string) : option Json :=
  let cs := list_ascii_of_string s in
  match parse_value (S (length cs)) cs with
  | Some (j, rest) =>
      match skip_ws rest with
      | [] => Some j
      | _ => None
      end
  | None => None
  end.

End JSON.

Module PyJWT.

Definition dot : ascii := "."%char.

Definition header : Payload := [("alg", JStr "HS256"); ("typ", JStr "JWT")].

Definition b64_json (d : Payload) : list ascii :=
  Base64url.encode (bytes_of_string (JSON.dumps (JDict d))).

(** HS256 over the signing input, keyed with the bytes of [key]. *)
Definition sign (key : string) (signing_input : list ascii) : list Z :=
  HMAC.hmac_sha256 (bytes_of_string key) (map JSON.code signing_input).

(** [HMACAlgorithm.prepare_key] refuses a key that holds one of these
    (PyJWT 1.x; later versions refuse these and more). *)
Definition invalid_strings : list string :=
  [ "-----BEGIN PUBLIC KEY-----"; "-----BEGIN CERTIFICATE-----";
    "-----BEGIN RSA PUBLIC KEY-----"; "ssh-rsa" ].

Definition asymmetric (key : string) : bool :=
  existsb (fun string_value => includes string_value key) invalid_strings.

(** [jwt.encode(payload, key, algorithm='HS256')] *)
Definition encode (payload : Payload) (key : string) : JwtError + string :=
  if asymmetric key then inl InvalidKeyError
  else
    let signing_input := b64_json header ++ dot :: b64_json payload in
    inr (string_of_list_ascii
           (signing_input ++ dot :: Base64url.encode (sign key signing_input))).

(** [cs.split('.', 1)] when there is a dot. *)
Fixpoint split_first (cs : list ascii) : option (list ascii * list ascii) :=
  match cs with
  | [] => None
  | c :: rest =>
      if bool_decide (c = dot) then Some ([], rest)
      else match split_first rest with
           | Some (before, after) => Some (c :: before, after)
           | None => None
           end
  end.

(** [cs.rsplit('.', 1)] when there is a dot. *)
Definition split_last (cs : list ascii) : option (list ascii * list ascii) :=
  match split_first (rev cs) with
  | Some (after, before) => Some (rev before, rev after)
  | None => None
  end.

(** [int(payload[claim])] for the values the parser yields. *)
Definition int_claim (v : Json) : option Z :=
  match v with
  | JInt z => Some z
  | JBool b => Some (if b then 1 else 0)
  | _ => None
  end.

Definition truthy_json (v : Json) : bool :=
  match v with
  | JNull | JBool false | JInt 0 | JStr EmptyString | JList [] | JDict [] => false
  | _ => true
  end.

(** The checks of the registered claims with the default options and no
    leeway, audience or issuer: [iat], [nbf], [exp], then [aud]. *)
Definition validate_claims (payload : Payload) (now : Z) : option JwtError :=
  let iat_ok :=
    match dict_get payload "iat" with
    | Some v =>
        match int_claim v with
        | Some iat => if now <? iat then inl ImmatureSignatureError else inr tt
        | None => inl InvalidIssuedAtError
        end
    | None => inr tt
    end in
  let nbf_ok :=
    match dict_get payload "nbf" with
    | Some v =>
        match int_claim v with
        | Some nbf => if now <? nbf then inl ImmatureSignatureError else inr tt
        | None => inl DecodeError
        end
    | None => inr tt
    end in
  let exp_ok :=
    match dict_get payload "exp" with
    | Some v =>
        match int_claim v with
        | Some exp => if exp <=? now then inl ExpiredSignatureError else inr tt
        | None => inl DecodeError
        end
    | None => inr tt
    end in
  let aud_ok :=
    match dict_get payload "aud" with
    | Some v => if truthy_json v then inl InvalidAudienceError else inr tt
    | None => inr tt
    end in
  match iat_ok, nbf_ok, exp_ok, aud_ok with
  | inl e, _, _, _ => Some e
  | _, inl e, _, _ => Some e
  | _, _, inl e, _ => Some e
  | _, _, _, inl e => Some e
  | inr _, inr _, inr _, inr _ => None
  end.

(** [jwt.decode(token, key, algorithms=['HS256'])] up to the registered
    claims: the segments, the header, the algorithm, the key, the
    signature, the payload. *)
Definition jws_decode (token key : string) : JwtError + Payload :=
  match split_last (list_ascii_of_string token) with
  | None => inl DecodeError
  | Some (signing_input, crypto_segment) =>
      match split_first signing_input with
      | None => inl DecodeError
      | Some (header_segment, payload_segment) =>
          match Base64url.decode header_segment with
          | None => inl DecodeError
          | Some header_data =>
              match JSON.loads (string_of_bytes header_data) with
              | Some (JDict header) =>
                  match Base64url.decode payload_segment,
                        Base64url.decode crypto_segment with
                  | Some payload_data, Some signature =>
                      if get_ne_str header "alg" "HS256" then inl InvalidAlgorithmError
                      else if asymmetric key then inl InvalidKeyError
                      else if negb (bool_decide (sign key signing_input = signature))
                      then inl InvalidSignatureError
                      else
                        match JSON.loads (string_of_bytes payload_data) with
                        | Some (JDict payload) => inr payload
                        | _ => inl DecodeError
                        end
                  | _, _ => inl DecodeError
                  end
              | _ => inl DecodeError
              end
          end
      end
  end.


End PyJWT.

Module Reference.

(** The first video of [seed_data.py], under an identifier of our own. *)
Definition video_id : string := "65f1c0ffee0ddba11ad0be57".

Definition video_doc : VideoDoc :=
  {| doc__id := Some video_id;
     doc_title := Some "How Great Leaders Inspire Action";
     doc_description := Some "Simon Sinek presents a simple but powerful model";
     doc_youtube_id := Some "qp0HIF3SfI4";
     doc_thumbnail_url := Some "https://img.youtube.com/vi/qp0HIF3SfI4/maxresdefault.jpg";
     doc_is_active := Some true;
     doc_created_at := Some 1700000000 |}.

Definition is_hex (c : ascii) : bool :=
  match JSON.hex_value c with Some _ => true | None => false end.

(** [ObjectId(s)] for a [str]: twenty-four hexadecimal digits. *)
Definition ObjectId (s : string) : PyExc + string :=
  if bool_decide (String.length s = 24%nat)
     && forallb is_hex (list_ascii_of_string s)
  then inr (lower s) else inl InvalidId.

Definition find_one (oid : string) : PyExc + option VideoDoc :=
  if bool_decide (oid = video_id) then inr (Some video_doc) else inr None.

(** A resolver whose locator differs from one invocation to the next, as
    signed, expiring stream URLs do. *)
Definition ydl_ok (n : nat) (youtube_url : string) : PyExc + option YdlInfo :=
  inr (Some {| info_url := Some ("https://rr3.googlevideo.com/videoplayback?n="
                                 +:+ pretty n);
               info_http_headers := Some {[ "User-Agent" := "Mozilla/5.0" ]};
               info_formats := None |}).


Definition upstream_headers (ranged : bool) : Headers :=
  let h : Headers :=
    {[ "content-type" := "video/webm"; "content-length" := "1000";
       "server" := "gvs 1.0"; "set-cookie" := "VISITOR_INFO=xyz" ]} in
  if ranged then <["content-range" := "bytes 100-199/1000"]>
                   (<["content-length" := "100"]> h)
  else h.

(** An upstream that honours [Range]. *)
Definition upstream_ok (n : nat) (url : string) (hs : Headers)
  : PyExc + UpstreamResponse :=
  let ranged := has_key (hs !! "Range") in
  inr {| up_status := if ranged then 206 else 200;
         up_headers := upstream_headers ranged;
         up_chunks := ["chunk-1"; ""; "chunk-2"] |}.

(** An upstream that answers 206 whatever it is asked. *)
Definition upstream_partial (n : nat) (url : string) (hs : Headers)
  : PyExc + UpstreamResponse :=
  inr {| up_status := 206;
         up_headers := upstream_headers true;
         up_chunks := ["chunk-1"] |}.


Definition collaborators_with
    (ydl : nat → string → PyExc + option YdlInfo)
    (upstream : nat → string → Headers → PyExc + UpstreamResponse)
  : Collaborators :=
  {| clock := fun n => 1700000000 + Z.of_nat n;
     jwt_encode := PyJWT.encode;
     jws_decode := PyJWT.jws_decode;
     jwt_validate_claims := PyJWT.validate_claims;
     bson_ObjectId := ObjectId;
     videos_find_one := find_one;
     ydl_extract_info := ydl;
     requests_get := upstream |}.

Definition collaborators : Collaborators := collaborators_with ydl_ok upstream_ok.

(** A fresh process: nothing cached, no call made yet. *)
Definition boot (env : gmap string string) : World :=
  {| ticks := 0; environ := env; stream_cache := ∅;
     ydl_calls := []; upstream_calls := [] |}.

(** [JWT_SECRET_KEY] is not in the environment. *)
Definition unset : gmap string string := ∅.

(** [JWT_SECRET_KEY] comes from [.env]. *)
Definition configured : gmap string string :=
  {[ "JWT_SECRET_KEY" := "correct-horse-battery-staple" ]}.

Definition user_id : string := "65f1c0ffee0ddba11ad0a11c".

(** The token the details endpoint hands out in a fresh process. *)
Definition token_of (env : gmap string string) : string :=
  match @generate_playback_token collaborators video_id user_id (boot env) with
  | Returns token _ => token
  | Raises _ _ => ""
  end.

(** The claims of that token, and the video as [find_by_id] builds it. *)
Definition claims : Payload :=
  [ ("video_id", JStr video_id); ("user_id", JStr user_id);
    ("type", JStr "playback"); ("iat", JInt 1700000000);
    ("exp", JInt 1700003601) ].

Definition video : Video :=
  {| _id := video_id;
     title := "How Great Leaders Inspire Action";
     description := "Simon Sinek presents a simple but powerful model";
     youtube_id := "qp0HIF3SfI4";
     thumbnail_url := "https://img.youtube.com/vi/qp0HIF3SfI4/maxresdefault.jpg";
     is_active := true;
     created_at := 1700000000 |}.

(** The same process after one playback request resolved the video. *)
Definition youtube_id : string := "qp0HIF3SfI4".

Definition resolved (env : gmap string string) : World :=
  outcome_world (@_extract_stream_data collaborators youtube_id (boot env)).

(** The state [w] as found [n] clock readings later. *)
Definition later (n : nat) (w : World) : World := set_ticks (ticks w + n) w.

Definition request (token : option string) (range : option string) : Request :=
  {| req_token := token; req_range := range; req_auth := AuthIdentity user_id |}.

End Reference.

(** ** The specification's token verification *)

(** The error kinds of the specification (§4.1, §7). *)
Inductive TokenError : Type :=
  | Malformed
  | BadSignature
  | Expired
  | WrongKind
  | ResourceMismatch
  | SubjectMismatch.

(** [verify] as the specification words it, on what the library made of
    the token: a failed signature check is [BadSignature], a passed expiry
    is [Expired], any other rejected encoding is [Malformed]; then the
    discriminator, the resource, and the subject when one is expected. *)
Definition spec_verify (decoded : JwtError + Payload)
    (expected_resource_id : string) (expected_subject_id : option string)
  : TokenError + Payload :=
  match decoded with
  | inl InvalidSignatureError => inl BadSignature
  | inl ExpiredSignatureError => inl Expired
  | inl _ => inl Malformed
  | inr token =>
      if get_ne_str token "type" "playback" then inl WrongKind
      else if get_ne_str token "video_id" expected_resource_id
      then inl ResourceMismatch
      else match expected_subject_id with
           | Some subject =>
               if get_ne_str token "user_id" subject then inl SubjectMismatch
               else inr token
           | None => inr token
           end
  end.

(** What is left of a verification result without its error kind. *)
Definition forget_kind (r : TokenError + Payload) : option Payload :=
  match r with
  | inr token => Some token
  | inl _ => None
  end.

(** ** Auxiliary notions for the statements *)

Definition body_includes (s : string) (resp : Response) : bool :=
  match body resp with
  | BodyText text => includes s text
  | _ => false
  end.

Definition watch_url (youtube_id : string) : string :=
  "https://www.youtube.com/watch?v=" +:+ youtube_id.


(** The status upstream answered with, when it answered. *)
Definition answered_status (r : PyExc + UpstreamResponse) : option Z :=
  match r with
  | inr upstream => Some (up_status upstream)
  | inl _ => None
  end.

(** The state differs at most in the number of clock readings. *)
Definition only_ticks (w w' : World) : Prop :=
  environ w' = environ w ∧ stream_cache w' = stream_cache w
  ∧ ydl_calls w' = ydl_calls w ∧ upstream_calls w' = upstream_calls w.

(** The secrets the two verification paths use. *)
Definition secret_of (fallback : string) (w : World) : string :=
  default fallback (environ w !! "JWT_SECRET_KEY") +:+ "-video".

(** The five names the proxy ever puts in a response. *)
Definition proxy_header_names : list string :=
  ["Content-Type"; "Accept-Ranges"; "Access-Control-Allow-Origin";
   "Content-Length"; "Content-Range"].

(** The later stages of the endpoints, named for the statements. *)
Section Stages.
Context {lib : Collaborators}.

(** What [jwt.decode] makes of a token when its clock reading is [now]:
    the payload, or the exception it raises. *)
Definition jwt_decode (token key : string) (now : Z) : JwtError + Payload :=
  match jws_decode token key with
  | inr payload =>
      match jwt_validate_claims payload now with
      | None => inr payload
      | Some e => inl e
      end
  | inl e => inl e
  end.

(** The state [jwt.decode] leaves: it has read the clock for a token that
    passed the signature check, and not for another. *)
Definition after_decode (token key : string) (w : World) : World :=
  match jws_decode token key with
  | inr _ => set_ticks (S (ticks w)) w
  | inl _ => w
  end.

(** What a verification function makes of the outcome of [jwt.decode]:
    [InvalidKeyError] is no [InvalidTokenError] and passes through both
    [except] clauses; every other outcome becomes the payload or [None]. *)
Definition verification (decoded : JwtError + Payload) (video_id : string)
    (subject : option string) (w : World) : Outcome (option Payload) :=
  match decoded with
  | inl InvalidKeyError => Raises (PyJWTError InvalidKeyError) w
  | _ => Returns (forget_kind (spec_verify decoded video_id subject)) w
  end.

(** The request headers of the upstream fetch. *)
Definition fetch_headers (stream_headers : option Headers) (request : Request)
  : Headers :=
  if truthy_str (req_range request)
  then <["Range" := default "" (req_range request)]> (default ∅ stream_headers)
  else default ∅ stream_headers.

(** The response relayed for an upstream response. *)
Definition relay (request : Request) (resp : UpstreamResponse) : Response :=
  {| status := if truthy_str (req_range request)
                  && bool_decide (up_status resp = 206)
               then 206 else 200;
     resp_headers := build_response_headers resp;
     body := BodyStream (generate resp) |}.

Definition proxy_failure (e : PyExc) : Response :=
  if isinstance_Timeout e then text_response "Stream timeout" 504
  else text_response "Failed to stream video" 500.

(** [proxy_video] from the fetch on, for a locator that was obtained. *)
Definition proxy_fetch (request : Request) (stream_url : string)
    (stream_headers : option Headers) (w : World) : Outcome Response :=
  let req_headers := fetch_headers stream_headers request in
  let w' := set_upstream_calls ((stream_url, req_headers) :: upstream_calls w) w in
  match requests_get (length (upstream_calls w)) stream_url req_headers with
  | inr resp => Returns (relay request resp) w'
  | inl e => Returns (proxy_failure e) w'
  end.

(** The page [video_player] renders for a video. *)
Definition player_page (video : Video) : Response :=
  {| status := 200;
     resp_headers :=
       <["Pragma" := "no-cache"]>
       (<["Cache-Control" := "no-store, no-cache, must-revalidate, max-age=0"]>
       (<["Content-Type" := "text/html"]> ∅));
     body := BodyText (player_html_head +:+ title video +:+ player_html_middle
                       +:+ youtube_id video +:+ player_html_tail) |}.

Definition player_failure : Response :=
  with_status (_error_html "Internal server error") 500.

(** One for a thread that may still invoke the resolver. *)
Definition weight (t : Thread) : nat := if may_resolve t then 1 else 0.

Definition pending (threads : list Thread) : nat := sum_list (map weight threads).

End Stages.


(** ** Further notions for the statements *)


(** No cached locator has an empty URL. *)
Definition urls_nonempty (cache : gmap string CacheEntry) : Prop :=
  ∀ youtube_id cached, cache !! youtube_id = Some cached → url cached ≠ "".

(** The log [l'] is the log [l] with at most one more call. *)
Definition at_most_one_more {A} (l l' : list A) : Prop :=
  l' = l ∨ ∃ call, l' = call :: l.

(** The claims [generate_playback_token] signs at the clock readings
    [iat] and [utcnow]. *)
Definition playback_claims (video_id user_id : string) (iat utcnow : Z) : Payload :=
  [ ("video_id", JStr video_id); ("user_id", JStr user_id);
    ("type", JStr "playback"); ("iat", JInt iat); ("exp", JInt (utcnow + 3600)) ].

(** A thread inside one of the two [with _cache_lock:] blocks. *)
Definition inside (t : Thread) : bool :=
  match thr_pc t with
  | InLookup | InStore _ _ => true
  | _ => false
  end.

Definition occupancy (t : Thread) : nat := if inside t then 1 else 0.

(** The threads inside a [with _cache_lock:] block. *)
Definition holders (threads : list Thread) : nat :=
  sum_list (map occupancy threads).

Definition finished (t : Thread) : bool :=
  match thr_pc t with
  | Finished _ => true
  | _ => false
  end.

(** The steps a thread has left at most. *)
Definition steps_left (t : Thread) : nat :=
  match thr_pc t with
  | AtLookup => 5
  | InLookup => 4
  | AtResolve => 3
  | AtStore _ _ => 2
  | InStore _ _ => 1
  | Finished _ => 0
  end.

Definition total_steps_left (threads : list Thread) : nat :=
  sum_list (map steps_left threads).

(** The lock is held exactly when one thread is inside a block. *)
Definition lock_consistent (s : System) : Prop :=
  holders (sys_threads s) = if sys_locked s then 1%nat else 0%nat.

(** ** utils/validators.py *)

(** The fragment of Python's [re] that the program's pattern uses: a
    pattern is a sequence of anchors and of quantified character sets.  A
    [str] is read as the sequence of its code points. *)
Module Re.

Inductive Member : Type :=
  | Range (lo hi : ascii)   (* a-z *)
  | One (c : ascii).        (* a single character *)

Definition member_has (m : Member) (c : ascii) : bool :=
  match m with
  | Range lo hi =>
      ((N_of_ascii lo <=? N_of_ascii c) && (N_of_ascii c <=? N_of_ascii hi))%N
  | One c' => bool_decide (c = c')
  end.

Definition in_set (set : list Member) (c : ascii) : bool :=
  existsb (fun m => member_has m c) set.

Inductive Item : Type :=
  | Caret                                                    (* ^ *)
  | Dollar                                                   (* $ *)
  | Chars (set : list Member) (lo : nat) (hi : option nat).  (* [set]{lo,hi} *)

(** One more repetition is allowed after [n]. *)
Definition within (hi : option nat) (n : nat) : bool :=
  match hi with
  | Some h => (n <? h)%nat
  | None => true
  end.

(** [$] without [re.MULTILINE]: the end of the string, or just before a
    line feed that ends it. *)
Definition at_end (s : string) : bool :=
  match s with
  | EmptyString => true
  | String c EmptyString => bool_decide (c = "010"%char)
  | _ => false
  end.

(** [n] characters of the set are taken; the rest of the pattern, [k], is
    tried after every count the quantifier allows.  The engine tries the
    longest count first; whether some count succeeds does not depend on the
    order. *)
Fixpoint repeat_chars (set : list Member) (lo : nat) (hi : option nat)
    (k : bool → string → bool) (n : nat) (at_start : bool) (s : string) : bool :=
  (if (lo <=? n)%nat then k at_start s else false)
  || match s with
     | String c rest =>
         in_set set c && within hi n
         && repeat_chars set lo hi k (S n) false rest
     | EmptyString => false
     end.

Fixpoint match_here (items : list Item) (at_start : bool) (s : string) : bool :=
  match items with
  | [] => true
  | Caret :: rest => at_start && match_here rest at_start s
  | Dollar :: rest => at_end s && match_here rest at_start s
  | Chars set lo hi :: rest =>
      repeat_chars set lo hi (match_here rest) 0 at_start s
  end.

(** [bool(re.match(pattern, s))]: a match that starts at the first
    character; what follows the match is not looked at. *)
Definition matches (pattern : list Item) (s : string) : bool :=
  match_here pattern true s.

End Re.

(** [[a-zA-Z0-9._%+-]], [[a-zA-Z0-9.-]] and [[a-zA-Z]] *)
Definition local_set : list Re.Member :=
  [ Re.Range "a" "z"; Re.Range "A" "Z"; Re.Range "0" "9";
    Re.One "."; Re.One "_"; Re.One "%"; Re.One "+"; Re.One "-" ].

Definition domain_set : list Re.Member :=
  [ Re.Range "a" "z"; Re.Range "A" "Z"; Re.Range "0" "9";
    Re.One "."; Re.One "-" ].

Definition letter_set : list Re.Member :=
  [ Re.Range "a" "z"; Re.Range "A" "Z" ].

(** [r'^[a-zA-Z0-9._%+-]+@[a-zA-Z0-9.-]+\.[a-zA-Z]{2,}$'] *)
Definition email_pattern : list Re.Item :=
  [ Re.Caret;
    Re.Chars local_set 1 None;
    Re.Chars [Re.One "@"] 1 (Some 1%nat);
    Re.Chars domain_set 1 None;
    Re.Chars [Re.One "."] 1 (Some 1%nat);
    Re.Chars letter_set 2 None;
    Re.Dollar ].

Definition validate_email (email : string) : bool :=
  if negb (truthy_str (Some email)) then false
  else Re.matches email_pattern email.

(** [not data.get(field)] *)
Definition not_get (data : Payload) (field : string) : bool :=
  match dict_get data field with
  | Some v => negb (PyJWT.truthy_json v)
  | None => true
  end.

Definition validate_required_fields (data : option Payload) (fields : list string)
  : bool * list string :=
  if negb (truthy_dict data) then (false, fields)
  else
    let missing := filter (fun field => not_get (default [] data) field) fields in
    (bool_decide (length missing = 0%nat), missing).

(** Every character of [s] is in the set. *)
Fixpoint all_in (set : list Re.Member) (s : string) : bool :=
  match s with
  | EmptyString => true
  | String c rest => Re.in_set set c && all_in set rest
  end.

(** The number of occurrences of [c] in [s]. *)
Fixpoint occurrences (c : ascii) (s : string) : nat :=
  match s with
  | EmptyString => 0
  | String c' rest => (if bool_decide (c' = c) then 1 else 0) + occurrences c rest
  end.

(** ** The catalogue endpoints *)

(** What the dashboard and the details endpoint use besides
    [Collaborators]. *)
Class Catalogue : Type := {
  (** [datetime.isoformat()] of a time *)
  isoformat : Z → string;
  (** the documents of the [videos] collection in natural order; raises
      when the database is unreachable *)
  videos_documents : PyExc + list VideoDoc
}.

Section CatalogueProgram.
Context {lib : Collaborators} {catalogue : Catalogue}.

(** *** models/video.py: to_json, get_active_videos *)

(** [created_at] is a [datetime], which is truthy, so the conditional
    always renders it. *)
Definition to_json (video : Video) : Payload :=
  [ ("id", JStr (_id video));
    ("title", JStr (title video));
    ("description", JStr (description video));
    ("thumbnail_url", JStr (thumbnail_url video));
    ("is_active", JBool (is_active video));
    ("created_at", JStr (isoformat (created_at video))) ].

(** [db['videos'].find({'is_active': True}).limit(limit)]: the documents
    whose [is_active] is [True], in natural order; [limit(0)] is no
    limit. *)
Definition find_active (limit : nat) : Py (list VideoDoc) :=
  documents <- lift videos_documents ;;
  let matching := filter (fun data => doc_is_active data = Some true) documents in
  ret (match limit with
       | O => matching
       | _ => take limit matching
       end).

(** [cls(title=data['title'], ...)] as [get_active_videos] calls it. *)
Definition Video_of (data : VideoDoc) : Py Video :=
  title <- getitem "title" (doc_title data) ;;
  description <- getitem "description" (doc_description data) ;;
  youtube_id <- getitem "youtube_id" (doc_youtube_id data) ;;
  thumbnail_url <- getitem "thumbnail_url" (doc_thumbnail_url data) ;;
  let is_active := default true (doc_is_active data) in
  _id <- getitem "_id" (doc__id data) ;;
  Video_init title description youtube_id thumbnail_url is_active _id
    (doc_created_at data).

(** The [for data in videos:] loop with its [result.append(video)]. *)
Fixpoint Videos_of (videos : list VideoDoc) : Py (list Video) :=
  match videos with
  | [] => ret []
  | data :: rest =>
      video <- Video_of data ;;
      result <- Videos_of rest ;;
      ret (video :: result)
  end.

Definition get_active_videos (limit : nat) : Py (list Video) :=
  videos <- find_active limit ;;
  Videos_of videos.

(** *** routes/video.py: get_dashboard, get_video_details *)

Definition get_dashboard (request : Request) : Py Response :=
  jwt_required request (fun _ =>
    try_except
      (videos <- get_active_videos 2 ;;
       let videos_json := map to_json videos in
       ret (jsonify [ ("videos", JList (map JDict videos_json));
                      ("count", JInt (Z.of_nat (length videos_json))) ] 200))
      internal_server_error).

Definition get_video_details (video_id : string) (request : Request)
  : Py Response :=
  jwt_required request (fun identity =>
    try_except
      (video <- find_by_id video_id ;;
       match video with
       | None => ret (jsonify [("error", JStr "Video not found")] 404)
       | Some video =>
           if negb (is_active video) then
             ret (jsonify [("error", JStr "Video is not available")] 404)
           else
             let user_id := identity in
             playback_token <- generate_playback_token video_id user_id ;;
             let player_url :=
               "/video/" +:+ video_id +:+ "/player?token=" +:+ playback_token in
             ret (jsonify [ ("video", JDict (to_json video));
                            ("playback_token", JStr playback_token);
                            ("player_url", JStr player_url) ] 200)
       end)
      internal_server_error).

End CatalogueProgram.

(** The same database with every [youtube_id] renamed by [f]. *)
Definition relabel_doc (f : string → string) (data : VideoDoc) : VideoDoc :=
  {| doc__id := doc__id data;
     doc_title := doc_title data;
     doc_description := doc_description data;
     doc_youtube_id := f <$> doc_youtube_id data;
     doc_thumbnail_url := doc_thumbnail_url data;
     doc_is_active := doc_is_active data;
     doc_created_at := doc_created_at data |}.

Definition relabel_video (f : string → string) (video : Video) : Video :=
  {| _id := _id video;
     title := title video;
     description := description video;
     youtube_id := f (youtube_id video);
     thumbnail_url := thumbnail_url video;
     is_active := is_active video;
     created_at := created_at video |}.

Definition relabel (f : string → string) (lib : Collaborators) : Collaborators :=
  {| clock := clock;
     jwt_encode := jwt_encode;
     jws_decode := jws_decode;
     jwt_validate_claims := jwt_validate_claims;
     bson_ObjectId := bson_ObjectId;
     videos_find_one := fun oid =>
       match videos_find_one oid with
       | inr data => inr (relabel_doc f <$> data)
       | inl e => inl e
       end;
     ydl_extract_info := ydl_extract_info;
     requests_get := requests_get |}.

(** The same collaborators with another state of the [videos] collection:
    [find_one] answers in place of [videos_find_one]. *)
Definition with_videos (find_one : string → PyExc + option VideoDoc)
    (lib : Collaborators) : Collaborators :=
  {| clock := clock;
     jwt_encode := jwt_encode;
     jws_decode := jws_decode;
     jwt_validate_claims := jwt_validate_claims;
     bson_ObjectId := bson_ObjectId;
     videos_find_one := find_one;
     ydl_extract_info := ydl_extract_info;
     requests_get := requests_get |}.

Definition relabel_catalogue (f : string → string) (catalogue : Catalogue)
  : Catalogue :=
  {| isoformat := isoformat;
     videos_documents :=
       match videos_documents with
       | inr documents => inr (relabel_doc f <$> documents)
       | inl e => inl e
       end |}.

(** A document that [Video_of] can turn into a video. *)
Definition complete (data : VideoDoc) : bool :=
  has_key (doc_title data) && has_key (doc_description data)
  && has_key (doc_youtube_id data) && has_key (doc_thumbnail_url data)
  && has_key (doc__id data).

(** What [Video_of] makes of a document. *)
Definition built_from (data : VideoDoc) (video : Video) : Prop :=
  doc_title data = Some (title video)
  ∧ doc_description data = Some (description video)
  ∧ doc_youtube_id data = Some (youtube_id video)
  ∧ doc_thumbnail_url data = Some (thumbnail_url video)
  ∧ doc__id data = Some (_id video)
  ∧ is_active video = default true (doc_is_active data).

(** The documents the dashboard looks at. *)
Definition dashboard_documents (documents : list VideoDoc) : list VideoDoc :=
  take 2 (filter (λ data, doc_is_active data = Some true) documents).

Definition relabel_outcome {A} (g : A → A) (o : Outcome A) : Outcome A :=
  match o with
  | Returns a w => Returns (g a) w
  | Raises e w => Raises e w
  end.

(** An executable catalogue: the two seeded videos, and the ISO 8601
    rendering of a time given in seconds since the epoch. *)
Module ReferenceCatalogue.

Definition digits (width : nat) (n : Z) : string :=
  let s := pretty n in
  String.concat "" (replicate (width - String.length s) "0") +:+ s.

(** Day number to proleptic Gregorian date. *)
Definition civil (days : Z) : Z * Z * Z :=
  let z := days + 719468 in
  let era := z / 146097 in
  let doe := z - era * 146097 in
  let yoe := (doe - doe / 1460 + doe / 36524 - doe / 146096) / 365 in
  let doy := doe - (365 * yoe + yoe / 4 - yoe / 100) in
  let mp := (5 * doy + 2) / 153 in
  let d := doy - (153 * mp + 2) / 5 + 1 in
  let m := if mp <? 10 then mp + 3 else mp - 9 in
  let y := yoe + era * 400 in
  (if m <=? 2 then y + 1 else y, m, d).

Definition iso8601 (t : Z) : string :=
  let '(y, m, d) := civil (t / 86400) in
  let s := t mod 86400 in
  digits 4 y +:+ "-" +:+ digits 2 m +:+ "-" +:+ digits 2 d +:+ "T"
  +:+ digits 2 (s / 3600) +:+ ":" +:+ digits 2 (s mod 3600 / 60) +:+ ":"
  +:+ digits 2 (s mod 60).

Definition second_doc : VideoDoc :=
  {| doc__id := Some "65f1c0ffee0ddba11ad0be58";
     doc_title := Some "The Puzzle of Motivation";
     doc_description := Some "Career analyst Dan Pink examines the puzzle of motivation";
     doc_youtube_id := Some "rrkrvAUbU9Y";
     doc_thumbnail_url := Some "https://img.youtube.com/vi/rrkrvAUbU9Y/maxresdefault.jpg";
     doc_is_active := Some true;
     doc_created_at := Some 1700000060 |}.

(** An active document that lacks its title. *)
Definition untitled_doc : VideoDoc :=
  {| doc__id := Some "65f1c0ffee0ddba11ad0be59";
     doc_title := None;
     doc_description := Some "";
     doc_youtube_id := Some "dQw4w9WgXcQ";
     doc_thumbnail_url := Some "";
     doc_is_active := Some true;
     doc_created_at := None |}.

Definition catalogue_of (documents : list VideoDoc) : Catalogue :=
  {| isoformat := iso8601; videos_documents := inr documents |}.

Definition catalogue : Catalogue :=
  catalogue_of [Reference.video_doc; second_doc].

End ReferenceCatalogue.

(** ** database.py: get_database_name *)

(** [s.lstrip(c)] for a one-character [c] *)
Fixpoint lstrip (c : ascii) (s : string) : string :=
  match s with
  | String c' rest => if bool_decide (c' = c) then lstrip c rest else s
  | EmptyString => EmptyString
  end.

(** [s.split(c)[0]]: what precedes the first [c] *)
Fixpoint split_head (c : ascii) (s : string) : string :=
  match s with
  | String c' rest =>
      if bool_decide (c' = c) then EmptyString else String c' (split_head c rest)
  | EmptyString => EmptyString
  end.

(** [c in s] *)
Definition contains (c : ascii) (s : string) : bool :=
  negb (bool_decide (occurrences c s = 0%nat)).

(** [parsed_path] is [urlparse(mongo_uri).path], or the exception raised
    on the way to it. *)
Definition get_database_name (parsed_path : PyExc + string) : string :=
  match parsed_path with
  | inr parsed_path =>
      let path := lstrip "/" parsed_path in
      let db_name := if contains "?" path then split_head "?" path else path in
      if truthy_str (Some db_name) then db_name else "video_app"
  | inl _ => "video_app"
  end.

(** ** models/video.py and seed_data.py: storing videos *)

(** The [videos] collection in natural order, with the numbers of
    [ObjectId]s generated and of clock readings made. *)
Record Mongo : Type := {
  mongo_videos : list VideoDoc;
  mongo_oids : nat;
  mongo_ticks : nat
}.

Record Sample : Type := {
  sample_title : string;
  sample_description : string;
  sample_youtube_id : string;
  sample_thumbnail_url : string;
  sample_is_active : bool
}.

Definition sample_videos : list Sample :=
  [ {| sample_title := "How Great Leaders Inspire Action";
       sample_description :=
         "Simon Sinek presents a simple but powerful model for how leaders inspire action, starting with a golden circle.";
       sample_youtube_id := "qp0HIF3SfI4";
       sample_thumbnail_url :=
         "https://img.youtube.com/vi/qp0HIF3SfI4/maxresdefault.jpg";
       sample_is_active := true |};
    {| sample_title := "The Puzzle of Motivation";
       sample_description :=
         "Career analyst Dan Pink examines the puzzle of motivation, starting with a fact that social scientists know.";
       sample_youtube_id := "rrkrvAUbU9Y";
       sample_thumbnail_url :=
         "https://img.youtube.com/vi/rrkrvAUbU9Y/maxresdefault.jpg";
       sample_is_active := true |} ].

Section Persistence.
Context {lib : Collaborators}.

(** The n-th [ObjectId()] of the process. *)
Variable ObjectId_new : nat → string.

Definition to_dict (video : Video) : VideoDoc :=
  {| doc__id := Some (_id video);
     doc_title := Some (title video);
     doc_description := Some (description video);
     doc_youtube_id := Some (youtube_id video);
     doc_thumbnail_url := Some (thumbnail_url video);
     doc_is_active := Some (is_active video);
     doc_created_at := Some (created_at video) |}.

(** [update_one({'_id': oid}, {'$set': fields}, upsert=True)]: the first
    document with the identifier gets the fields, all seven of them; without
    one, the fields are inserted as a new document. *)
Definition update_one_upsert (oid : string) (fields : VideoDoc)
    (documents : list VideoDoc) : list VideoDoc :=
  match list_find (fun data => doc__id data = Some oid) documents with
  | Some (i, _) => <[i := fields]> documents
  | None => documents ++ [fields]
  end.

Definition save (video : Video) (db : Mongo) : Video * Mongo :=
  (video,
   {| mongo_videos :=
        update_one_upsert (_id video) (to_dict video) (mongo_videos db);
      mongo_oids := mongo_oids db;
      mongo_ticks := mongo_ticks db |}).

(** [Video.__init__] without [_id] and [created_at], then [save]. *)
Definition create (title description youtube_id thumbnail_url : string)
    (is_active : bool) (db : Mongo) : Video * Mongo :=
  let video :=
    {| _id := ObjectId_new (mongo_oids db);
       title := title;
       description := description;
       youtube_id := youtube_id;
       thumbnail_url := thumbnail_url;
       is_active := is_active;
       created_at := clock (mongo_ticks db) |} in
  save video
    {| mongo_videos := mongo_videos db;
       mongo_oids := S (mongo_oids db);
       mongo_ticks := S (mongo_ticks db) |}.

(** [db.videos.find_one({'youtube_id': youtube_id})] *)
Definition find_one_by_youtube_id (youtube_id : string) (db : Mongo)
  : option VideoDoc :=
  snd <$> list_find (fun data => doc_youtube_id data = Some youtube_id)
            (mongo_videos db).

(** The loop of [seed_videos], for a database that answers. *)
Fixpoint seed (samples : list Sample) (db : Mongo) : Mongo :=
  match samples with
  | [] => db
  | video_data :: rest =>
      let existing :=
        find_one_by_youtube_id (sample_youtube_id video_data) db in
      if negb (from_option truthy_doc false existing) then
        seed rest
          (snd (create (sample_title video_data)
                  (sample_description video_data)
                  (sample_youtube_id video_data)
                  (sample_thumbnail_url video_data)
                  (sample_is_active video_data) db))
      else seed rest db
  end.

Definition seed_videos (db : Mongo) : Mongo := seed sample_videos db.

End Persistence.

(** The collection holds a document for the [youtube_id]. *)
Definition holds (youtube_id : string) (documents : list VideoDoc) : Prop :=
  Some youtube_id ∈ doc_youtube_id <$> documents.

#[global] Instance holds_dec youtube_id documents :
  Decision (holds youtube_id documents) :=
  decide (Some youtube_id ∈ doc_youtube_id <$> documents).

(** The document [Video.create] stores for a sample, under the identifier
    [oid] and with the creation time [created_at]. *)
Definition sample_doc (video_data : Sample) (oid : string) (created_at : Z)
  : VideoDoc :=
  {| doc__id := Some oid;
     doc_title := Some (sample_title video_data);
     doc_description := Some (sample_description video_data);
     doc_youtube_id := Some (sample_youtube_id video_data);
     doc_thumbnail_url := Some (sample_thumbnail_url video_data);
     doc_is_active := Some (sample_is_active video_data);
     doc_created_at := Some created_at |}.

(** The documents of [samples], one after the other, from the [n]-th
    [ObjectId()] and the [m]-th clock reading on. *)
Fixpoint sample_docs {lib : Collaborators} (ObjectId_new : nat → string)
    (samples : list Sample) (n m : nat) : list VideoDoc :=
  match samples with
  | [] => []
  | video_data :: rest =>
      sample_doc video_data (ObjectId_new n) (clock m)
      :: sample_docs ObjectId_new rest (S n) (S m)
  end.

(** The samples the collection has no document for. *)
Definition lacking (samples : list Sample) (documents : list VideoDoc)
  : list Sample :=
  filter (λ video_data, ¬ holds (sample_youtube_id video_data) documents)
    samples.

(** No identifier generated from now on is in the collection. *)
Definition fresh_from (ObjectId_new : nat → string) (db : Mongo) : Prop :=
  ∀ n data, (mongo_oids db ≤ n)%nat → data ∈ mongo_videos db →
            doc__id data ≠ Some (ObjectId_new n).

(** * Properties *)

(** Closes a closed conjunction of equations by evaluation. *)
Ltac by_evaluation := intros; split_and?; vm_compute; reflexivity.

(** Runs the monadic plumbing of a computation applied to a state. *)
Ltac py_run :=
  cbv beta iota zeta delta
    [bind ret raise try_except lift time_time os_getenv jwt_decode_now
     get_video_secret getitem info_dict isinstance_Exception].

Section CacheProperties.
Context {lib : Collaborators}.

Lemma only_ticks_refl w : only_ticks w w.
Proof. by repeat split. Qed.

Lemma only_ticks_set_ticks n w : only_ticks w (set_ticks n w).
Proof. by repeat split. Qed.

(** *** The three outcomes of a lookup *)


Lemma lookup_fresh youtube_id w cached :
  stream_cache w !! youtube_id = Some cached →
  clock (ticks w) < expires_at cached →
  _get_cached_stream_data youtube_id w
  = Returns (Some cached) (set_ticks (S (ticks w)) w).
Proof.
  intros Hentry Hfresh. unfold _get_cached_stream_data, bind, time_time, ret.
  rewrite Hentry.
  by destruct (Z.gtb_spec (expires_at cached) (clock (ticks w))); [|lia].
Qed.

Lemma lookup_stale youtube_id w cached :
  stream_cache w !! youtube_id = Some cached →
  expires_at cached ≤ clock (ticks w) →
  _get_cached_stream_data youtube_id w
  = Returns None
      (set_stream_cache (delete youtube_id (stream_cache w))
         (set_ticks (S (ticks w)) w)).
Proof.
  intros Hentry Hstale. unfold _get_cached_stream_data, bind, time_time, ret.
  rewrite Hentry.
  by destruct (Z.gtb_spec (expires_at cached) (clock (ticks w))); [lia|].
Qed.

(** A lookup never raises, never calls out, and after a miss the key is
    not in the cache. *)
Lemma lookup_miss_inv youtube_id w w1 :
  _get_cached_stream_data youtube_id w = Returns None w1 →
  stream_cache w1 = delete youtube_id (stream_cache w)
  ∧ ydl_calls w1 = ydl_calls w ∧ upstream_calls w1 = upstream_calls w
  ∧ environ w1 = environ w.
Proof.
  unfold _get_cached_stream_data, bind, time_time, ret.
  destruct (stream_cache w !! youtube_id) as [cached|] eqn:Hentry.
  - destruct (expires_at cached >? clock (ticks w)); [done|].
    intros [= <-]. by repeat split.
  - intros [= <-]. repeat split. symmetry. by apply delete_id.
Qed.

Lemma lookup_hit_inv youtube_id w cached w1 :
  _get_cached_stream_data youtube_id w = Returns (Some cached) w1 →
  stream_cache w !! youtube_id = Some cached
  ∧ clock (ticks w) < expires_at cached ∧ only_ticks w w1.
Proof.
  unfold _get_cached_stream_data, bind, time_time, ret.
  destruct (stream_cache w !! youtube_id) as [entry|] eqn:Hentry; [|done].
  destruct (Z.gtb_spec (expires_at entry) (clock (ticks w))); [|done].
  intros [= -> <-]. split; [done|]. split; [lia|]. apply only_ticks_set_ticks.
Qed.

Lemma lookup_returns youtube_id w :
  ∃ cached w1, _get_cached_stream_data youtube_id w = Returns cached w1.
Proof.
  unfold _get_cached_stream_data, bind, time_time, ret.
  destruct (stream_cache w !! youtube_id) as [entry|]; [|by eauto].
  destruct (expires_at entry >? clock (ticks w)); by eauto.
Qed.

(** *** Storing *)

Lemma store_eq youtube_id url headers w :
  _cache_stream_data youtube_id url headers w
  = Returns tt
      (set_stream_cache
         (<[youtube_id := {| url := url; headers := headers;
                             expires_at := clock (ticks w) + CACHE_DURATION |}]>
            (stream_cache w))
         (set_ticks (S (ticks w)) w)).
Proof. reflexivity. Qed.

(** *** The resolver invocation *)

Lemma resolve_eq youtube_id w :
  resolve youtube_id w
  = let w' := set_ydl_calls (watch_url youtube_id :: ydl_calls w) w in
    match ydl_extract_info (length (ydl_calls w)) (watch_url youtube_id) with
    | inr (Some info) => Returns (choose_stream info) w'
    | inr None => Raises AttributeError w'
    | inl e => Raises e w'
    end.
Proof.
  unfold resolve, bind, extract_info, info_dict, watch_url, ret, raise. simpl.
  by destruct (ydl_extract_info _ _) as [e|[info|]].
Qed.

Lemma resolve_world youtube_id w :
  outcome_world (resolve youtube_id w)
  = set_ydl_calls (watch_url youtube_id :: ydl_calls w) w.
Proof.
  rewrite resolve_eq. simpl.
  by destruct (ydl_extract_info _ _) as [e|[info|]].
Qed.

(** *** [_extract_stream_data], stage by stage *)

Lemma extract_eq youtube_id w :
  _extract_stream_data youtube_id w
  = match _get_cached_stream_data youtube_id w with
    | Returns (Some cached) w1 =>
        Returns (Some (url cached), Some (headers cached)) w1
    | Returns None w1 =>
        match resolve youtube_id w1 with
        | Returns (Some (url, headers)) w2 =>
            match _cache_stream_data youtube_id url headers w2 with
            | Returns _ w3 => Returns (Some url, Some headers) w3
            | Raises _ w3 => Returns (None, None) w3
            end
        | Returns None w2 => Returns (None, None) w2
        | Raises _ w2 => Returns (None, None) w2
        end
    | Raises _ w1 => Returns (None, None) w1
    end.
Proof.
  unfold _extract_stream_data, try_except, bind at 1.
  destruct (_get_cached_stream_data youtube_id w) as [[cached|] w1|e w1];
    [done| |done].
  rewrite resolve_eq. unfold bind, extract_info, info_dict, watch_url. simpl.
  destruct (ydl_extract_info _ _) as [e|[info|]]; [done| |done].
  simpl. unfold choose_stream.
  destruct (truthy_str (info_url info)) eqn:Hurl.
  - unfold ret. simpl. by destruct (info_url info).
  - destruct (find usable_mp4 _) as [fmt|]; [done|].
    by destruct (find usable _) as [fmt|].
Qed.

End CacheProperties.

Section TokenProperties.
Context {lib : Collaborators}.

(** The code agrees with the specification's [verify] on which tokens
    pass, returns the one value [None] for every token that fails, and lets
    [InvalidKeyError] through. *)
Lemma verify_eq token video_id user_id w :
  verify_playback_token token video_id user_id w
  = verification
      (jwt_decode token (secret_of "video-secret-key" w) (clock (ticks w)))
      video_id (Some user_id)
      (after_decode token (secret_of "video-secret-key" w) w).
Proof.
  unfold verify_playback_token, secret_of, verification, spec_verify,
    jwt_decode, after_decode.
  py_run.
  destruct (jws_decode _ _) as [e|payload]; simpl; [by destruct e|].
  destruct (jwt_validate_claims _ _) as [e|]; simpl; [by destruct e|].
  destruct (get_ne_str payload "type" "playback"); [done|].
  destruct (get_ne_str payload "video_id" video_id); [done|].
  by destruct (get_ne_str payload "user_id" user_id).
Qed.

Lemma verify_without_user_eq token video_id w :
  verify_playback_token_without_user token video_id w
  = verification
      (jwt_decode token (secret_of "jwt-secret-key" w) (clock (ticks w)))
      video_id None
      (after_decode token (secret_of "jwt-secret-key" w) w).
Proof.
  unfold verify_playback_token_without_user, secret_of, verification,
    spec_verify, jwt_decode, after_decode.
  py_run.
  destruct (jws_decode _ _) as [e|payload]; simpl; [by destruct e|].
  destruct (jwt_validate_claims _ _) as [e|]; simpl; [by destruct e|].
  destruct (get_ne_str payload "type" "playback"); [done|].
  by destruct (get_ne_str payload "video_id" video_id).
Qed.

(** What a verification function returned, it returned for a decoded
    payload that passed its checks. *)
Lemma verification_returns decoded video_id subject w found w1 :
  verification decoded video_id subject w = Returns found w1 →
  found = forget_kind (spec_verify decoded video_id subject) ∧ w1 = w.
Proof.
  unfold verification. destruct decoded as [[]|payload]; by intros [= <- <-].
Qed.

Lemma only_ticks_after_decode token key w :
  only_ticks w (after_decode token key w).
Proof.
  unfold after_decode. destruct (jws_decode token key); by repeat split.
Qed.

(** A payload came out: the token passed the signature check, the clock
    was read, and the claims were valid at that reading. *)
Lemma jwt_decode_inr token key now payload :
  jwt_decode token key now = inr payload →
  jws_decode token key = inr payload
  ∧ jwt_validate_claims payload now = None.
Proof.
  unfold jwt_decode. destruct (jws_decode token key) as [e|decoded]; [done|].
  destruct (jwt_validate_claims decoded now) eqn:Hvalid; [done|].
  by intros [= <-].
Qed.

Lemma after_decode_inr token key w payload :
  jws_decode token key = inr payload →
  after_decode token key w = set_ticks (S (ticks w)) w.
Proof. unfold after_decode. by intros ->. Qed.

Lemma verification_outcome decoded video_id subject w :
  (∃ found, verification decoded video_id subject w = Returns found w)
  ∨ verification decoded video_id subject w
    = Raises (PyJWTError InvalidKeyError) w.
Proof. unfold verification. destruct decoded as [[]|payload]; by eauto. Qed.

(** The two paths build their secret from the same variable and from
    different fallbacks. *)
Lemma secret_of_set fallback secret w :
  environ w !! "JWT_SECRET_KEY" = Some secret →
  secret_of fallback w = secret +:+ "-video".
Proof. intros Hset. unfold secret_of. by rewrite Hset. Qed.

Lemma secret_of_unset fallback w :
  environ w !! "JWT_SECRET_KEY" = None →
  secret_of fallback w = fallback +:+ "-video".
Proof. intros Hunset. unfold secret_of. by rewrite Hunset. Qed.

(** Issuance signs with the secret of [get_video_secret]. *)
Lemma generate_eq video_id user_id w :
  generate_playback_token video_id user_id w
  = match jwt_encode
            [ ("video_id", JStr video_id); ("user_id", JStr user_id);
              ("type", JStr "playback"); ("iat", JInt (clock (ticks w)));
              ("exp", JInt (clock (S (ticks w)) + 3600)) ]
            (secret_of "video-secret-key" w) with
    | inr token => Returns token (set_ticks (S (S (ticks w))) w)
    | inl e => Raises (PyJWTError e) (set_ticks (S (S (ticks w))) w)
    end.
Proof.
  unfold generate_playback_token, secret_of. py_run. simpl.
  by destruct (jwt_encode _ _).
Qed.

(** A payload that passed has a ['type'] key, so it is a truthy dict. *)
Lemma verified_truthy decoded video_id subject payload :
  forget_kind (spec_verify decoded video_id subject) = Some payload →
  truthy_dict (Some payload) = true.
Proof.
  unfold spec_verify.
  destruct decoded as [e|token]; [by destruct e|].
  destruct (get_ne_str token "type" "playback") eqn:Htype; [done|].
  assert (token ≠ []) as Hne by (by intros ->).
  destruct (get_ne_str token "video_id" video_id); [done|].
  destruct subject as [subject|].
  - destruct (get_ne_str token "user_id" subject); [done|].
    intros [= <-]. by destruct token.
  - intros [= <-]. by destruct token.
Qed.

(** A token that PyJWT decodes, or rejects with a token error, is
    verified without an exception. *)
Lemma verification_eq decoded video_id subject w :
  decoded ≠ inl InvalidKeyError →
  verification decoded video_id subject w
  = Returns (forget_kind (spec_verify decoded video_id subject)) w.
Proof. unfold verification. by destruct decoded as [[]|payload]. Qed.


(** What either function returns as a payload is a truthy dict. *)
Lemma verify_truthy token video_id user_id w token_data w1 :
  verify_playback_token token video_id user_id w
  = Returns (Some token_data) w1 →
  truthy_dict (Some token_data) = true.
Proof.
  rewrite verify_eq. intros [Hpayload _]%verification_returns.
  symmetry in Hpayload. by eapply verified_truthy.
Qed.

Lemma verify_without_user_truthy token video_id w token_data w1 :
  verify_playback_token_without_user token video_id w
  = Returns (Some token_data) w1 →
  truthy_dict (Some token_data) = true.
Proof.
  rewrite verify_without_user_eq. intros [Hpayload _]%verification_returns.
  symmetry in Hpayload. by eapply verified_truthy.
Qed.

End TokenProperties.

Section VideoProperties.
Context {lib : Collaborators}.

(** [find_by_id] returns on every identifier and every database answer,
    and reads at most the clock. *)
Lemma find_by_id_returns video_id w :
  ∃ found w', find_by_id video_id w = Returns found w' ∧ only_ticks w w'.
Proof.
  unfold find_by_id, Video_init. py_run.
  repeat case_match; simplify_eq/=;
    eauto using only_ticks_refl, only_ticks_set_ticks.
Qed.

Lemma find_by_id_invalid video_id e w :
  bson_ObjectId video_id = inl e → find_by_id video_id w = Returns None w.
Proof.
  intros Hinvalid.
  unfold find_by_id, try_except, bind, lift, raise. by rewrite Hinvalid.
Qed.

End VideoProperties.

Section EndpointProperties.
Context {lib : Collaborators}.

(** [proxy_video], stage by stage. *)
Lemma proxy_video_eq video_id request w :
  proxy_video video_id request w
  = if negb (truthy_str (req_token request))
    then Returns (text_response "Token required" 400) w
    else
      match verify_playback_token_without_user
              (default "" (req_token request)) video_id w with
      | Returns token_data w1 =>
          if negb (truthy_dict token_data)
          then Returns (text_response "Invalid or expired token" 400) w1
          else
            match find_by_id video_id w1 with
            | Returns None w2 => Returns (text_response "Video not found" 404) w2
            | Returns (Some video) w2 =>
                if negb (is_active video)
                then Returns (text_response "Video not available" 404) w2
                else
                  match _extract_stream_data (youtube_id video) w2 with
                  | Returns (stream_url, stream_headers) w3 =>
                      if negb (truthy_str stream_url)
                      then Returns (text_response "Failed to get video stream" 500) w3
                      else proxy_fetch request (default "" stream_url)
                             stream_headers w3
                  | Raises e w3 => Returns (proxy_failure e) w3
                  end
            | Raises e w2 => Returns (proxy_failure e) w2
            end
      | Raises e w1 => Returns (proxy_failure e) w1
      end.
Proof.
  unfold proxy_video, proxy_fetch, proxy_failure, relay, fetch_headers,
    requests_get_call.
  py_run.
  destruct (truthy_str (req_token request)); simpl; [|done].
  destruct (verify_playback_token_without_user _ _ _) as [token_data w1|e w1];
    [|by destruct (isinstance_Timeout e)].
  destruct (truthy_dict token_data); simpl; [|done].
  destruct (find_by_id video_id w1) as [[video|] w2|e w2];
    [| done | by destruct (isinstance_Timeout e)].
  destruct (is_active video); simpl; [|done].
  destruct (_extract_stream_data _ w2) as [[stream_url stream_headers] w3|e w3];
    [|by destruct (isinstance_Timeout e)].
  simpl. destruct (truthy_str stream_url); simpl; [|done].
  destruct (requests_get _ _ _) as [e|resp]; [|done].
  by destruct (isinstance_Timeout e).
Qed.

(** [stream_video], stage by stage. *)
Lemma stream_video_eq video_id request w :
  stream_video video_id request w
  = match req_auth request with
    | AuthIdentity user_id =>
        if negb (truthy_str (req_token request))
        then Returns (jsonify [("error", JStr "Playback token is required")] 400) w
        else
          match verify_playback_token (default "" (req_token request))
                  video_id user_id w with
          | Returns token_data w1 =>
              if negb (truthy_dict token_data)
              then Returns (jsonify [("error", JStr "Invalid or expired playback token")] 400) w1
              else
                match find_by_id video_id w1 with
                | Returns None w2 =>
                    Returns (jsonify [("error", JStr "Video not found")] 404) w2
                | Returns (Some video) w2 =>
                    if negb (is_active video)
                    then Returns (jsonify [("error", JStr "Video is not available")] 404) w2
                    else
                      Returns
                        (jsonify
                           [ ("stream_url",
                              JStr ("/video/" +:+ video_id +:+ "/proxy?token="
                                    +:+ default "" (req_token request)));
                             ("video_id", JStr video_id);
                             ("title", JStr (title video));
                             ("description", JStr (description video));
                             ("thumbnail_url", JStr (thumbnail_url video));
                             ("expires_in", JInt 3600) ] 200) w2
                | Raises e w2 =>
                    Returns (jsonify [("error", JStr "Internal server error")] 500) w2
                end
          | Raises e w1 =>
              Returns (jsonify [("error", JStr "Internal server error")] 500) w1
          end
    | AuthMissing =>
        Returns (jsonify [("error", JStr "Authorization required");
                          ("message", JStr "No token provided")] 401) w
    | AuthExpired =>
        Returns (jsonify [("error", JStr "Token has expired");
                          ("message", JStr "Please log in again")] 401) w
    | AuthInvalid =>
        Returns (jsonify [("error", JStr "Invalid token");
                          ("message", JStr "Token verification failed")] 401) w
    end.
Proof.
  unfold stream_video, jwt_required, internal_server_error. py_run.
  destruct (req_auth request) as [user_id| | |]; [|done..].
  destruct (truthy_str (req_token request)); simpl; [|done].
  destruct (verify_playback_token _ _ _ _) as [token_data w1|e w1]; [|done].
  destruct (truthy_dict token_data); simpl; [|done].
  destruct (find_by_id video_id w1) as [[video|] w2|e w2]; [|done..].
  by destruct (is_active video).
Qed.

(** [video_player], stage by stage. *)
Lemma video_player_eq video_id request w :
  video_player video_id request w
  = if negb (truthy_str (req_token request))
    then Returns (with_status (_error_html "Playback token is required") 400) w
    else
      match verify_playback_token_without_user
              (default "" (req_token request)) video_id w with
      | Returns token_data w1 =>
          if negb (truthy_dict token_data)
          then Returns (with_status (_error_html "Invalid or expired playback token") 400) w1
          else
            match find_by_id video_id w1 with
            | Returns None w2 =>
                Returns (with_status (_error_html "Video not found") 404) w2
            | Returns (Some video) w2 =>
                if negb (is_active video)
                then Returns (with_status (_error_html "Video is not available") 404) w2
                else Returns (player_page video) w2
            | Raises e w2 => Returns player_failure w2
            end
      | Raises e w1 => Returns player_failure w1
      end.
Proof.
  unfold video_player, player_page, player_failure. py_run.
  destruct (truthy_str (req_token request)); simpl; [|done].
  destruct (verify_playback_token_without_user _ _ _) as [token_data w1|e w1];
    [|done].
  destruct (truthy_dict token_data); simpl; [|done].
  destruct (find_by_id video_id w1) as [[video|] w2|e w2]; [|done..].
  by destruct (is_active video).
Qed.

End EndpointProperties.

Section ResolutionProperties.
Context {lib : Collaborators}.

(** A call whose lookup misses: the resolver is invoked once, and the
    cache is written only with the locator it produced. *)
Lemma extract_miss youtube_id w w1 :
  _get_cached_stream_data youtube_id w = Returns None w1 →
  _extract_stream_data youtube_id w
  = let w2 := set_ydl_calls (watch_url youtube_id :: ydl_calls w) w1 in
    match ydl_extract_info (length (ydl_calls w)) (watch_url youtube_id) with
    | inr (Some info) =>
        match choose_stream info with
        | Some (url, headers) =>
            Returns (Some url, Some headers)
              (outcome_world (_cache_stream_data youtube_id url headers w2))
        | None => Returns (None, None) w2
        end
    | _ => Returns (None, None) w2
    end.
Proof.
  intros Hmiss. rewrite extract_eq, Hmiss, resolve_eq.
  destruct (lookup_miss_inv _ _ _ Hmiss) as (_ & -> & _). simpl.
  destruct (ydl_extract_info _ _) as [e|[info|]]; [done| |done].
  by destruct (choose_stream info) as [[url headers]|].
Qed.

Lemma extract_miss_calls youtube_id w w1 :
  _get_cached_stream_data youtube_id w = Returns None w1 →
  ydl_calls (outcome_world (_extract_stream_data youtube_id w))
  = watch_url youtube_id :: ydl_calls w.
Proof.
  intros Hmiss. rewrite (extract_miss _ _ _ Hmiss). simpl.
  destruct (ydl_extract_info _ _) as [e|[info|]]; [done| |done].
  by destruct (choose_stream info) as [[url headers]|].
Qed.

Lemma extract_hit youtube_id w cached :
  stream_cache w !! youtube_id = Some cached →
  clock (ticks w) < expires_at cached →
  _extract_stream_data youtube_id w
  = Returns (Some (url cached), Some (headers cached))
      (set_ticks (S (ticks w)) w).
Proof.
  intros Hentry Hfresh. by rewrite extract_eq, (lookup_fresh _ _ _ Hentry Hfresh).
Qed.


(** [_extract_stream_data] always returns, and touches neither the
    environment nor the upstream log. *)
Lemma extract_returns youtube_id w :
  ∃ r w', _extract_stream_data youtube_id w = Returns r w'
          ∧ environ w' = environ w ∧ upstream_calls w' = upstream_calls w.
Proof.
  destruct (lookup_returns youtube_id w) as ([cached|] & w1 & Hlookup).
  - rewrite extract_eq, Hlookup.
    destruct (lookup_hit_inv _ _ _ _ Hlookup) as (_ & _ & He & _ & _ & Hu).
    by eauto.
  - rewrite (extract_miss _ _ _ Hlookup).
    destruct (lookup_miss_inv _ _ _ Hlookup) as (_ & _ & Hu & He). simpl.
    destruct (ydl_extract_info _ _) as [e|[info|]]; [by eauto| |by eauto].
    destruct (choose_stream info) as [[url headers]|]; by eauto.
Qed.

End ResolutionProperties.

Section ProxyProperties.
Context {lib : Collaborators}.

Lemma cons_neq {A} (x : A) (l : list A) : l ≠ x :: l.
Proof. intros Heq. apply (f_equal length) in Heq. simpl in Heq. lia. Qed.


(** A request that reached the upstream fetch passed every earlier stage. *)
Lemma proxy_video_fetched video_id request w resp w' call :
  proxy_video video_id request w = Returns resp w' →
  upstream_calls w' = call :: upstream_calls w →
  ∃ w1 video w2 stream_url stream_headers w3,
    only_ticks w w1
    ∧ find_by_id video_id w1 = Returns (Some video) w2
    ∧ only_ticks w1 w2
    ∧ is_active video = true
    ∧ _extract_stream_data (youtube_id video) w2
      = Returns (Some stream_url, stream_headers) w3
    ∧ stream_url ≠ ""
    ∧ upstream_calls w3 = upstream_calls w
    ∧ proxy_fetch request stream_url stream_headers w3 = Returns resp w'.
Proof.
  rewrite proxy_video_eq. intros Hrun Hlog.
  destruct (truthy_str (req_token request)); simpl in Hrun;
    [|injection Hrun as _ <-; by destruct (cons_neq call (upstream_calls w))].
  rewrite verify_without_user_eq in Hrun.
  set (w1 := after_decode _ _ w) in *.
  assert (only_ticks w w1) as Hw1 by apply only_ticks_after_decode.
  assert (upstream_calls w1 = upstream_calls w) as Hlog1
    by (by destruct Hw1 as (_ & _ & _ & <-)).
  destruct (verification_outcome
              (jwt_decode (default "" (req_token request))
                 (secret_of "jwt-secret-key" w) (clock (ticks w)))
              video_id None w1) as [[token_data Hverified]|Hverified];
    rewrite Hverified in Hrun;
    [|injection Hrun as _ <-; rewrite Hlog1 in Hlog;
      by destruct (cons_neq call (upstream_calls w))].
  destruct (truthy_dict token_data); simpl in Hrun;
    [|injection Hrun as _ <-; rewrite Hlog1 in Hlog;
      by destruct (cons_neq call (upstream_calls w))].
  destruct (find_by_id_returns video_id w1) as (found & w2 & Hfound & Hw2).
  rewrite Hfound in Hrun.
  assert (upstream_calls w2 = upstream_calls w) as Hlog2.
  { destruct Hw1 as (_ & _ & _ & <-). by destruct Hw2 as (_ & _ & _ & <-). }
  destruct found as [video|];
    [|injection Hrun as _ <-; rewrite Hlog2 in Hlog;
      by destruct (cons_neq call (upstream_calls w))].
  destruct (is_active video) eqn:Hactive; simpl in Hrun;
    [|injection Hrun as _ <-; rewrite Hlog2 in Hlog;
      by destruct (cons_neq call (upstream_calls w))].
  destruct (extract_returns (youtube_id video) w2)
    as ([stream_url stream_headers] & w3 & Hextract & _ & Hlog3).
  rewrite Hextract in Hrun. rewrite Hlog2 in Hlog3.
  destruct stream_url as [stream_url|]; simpl in Hrun;
    [|injection Hrun as _ <-; rewrite Hlog3 in Hlog;
      by destruct (cons_neq call (upstream_calls w))].
  case_bool_decide as Hurl; simpl in Hrun;
    [injection Hrun as _ <-; rewrite Hlog3 in Hlog;
     by destruct (cons_neq call (upstream_calls w))|].
  exists w1, video, w2, stream_url, stream_headers, w3. by split_and!.
Qed.

End ProxyProperties.

Section RelayProperties.
Context {lib : Collaborators}.

Lemma build_response_headers_spec (upstream : UpstreamResponse) :
  let h := build_response_headers upstream in
  h !! "Accept-Ranges" = Some "bytes"
  ∧ h !! "Access-Control-Allow-Origin" = Some "*"
  ∧ h !! "Content-Type"
    = Some (default "video/mp4" (ci_get (up_headers upstream) "Content-Type"))
  ∧ h !! "Content-Length" = ci_get (up_headers upstream) "Content-Length"
  ∧ h !! "Content-Range" = ci_get (up_headers upstream) "Content-Range"
  ∧ (∀ name, is_Some (h !! name) → name ∈ proxy_header_names).
Proof.
  unfold build_response_headers, proxy_header_names.
  destruct (ci_get (up_headers upstream) "Content-Length") as [len|];
    destruct (ci_get (up_headers upstream) "Content-Range") as [range|];
    simpl; split_and!; try by simplify_map_eq.
  all: intros name [v Hv];
    repeat (rewrite lookup_insert in Hv; case_decide;
            [subst name; set_solver|]);
    by rewrite lookup_empty in Hv.
Qed.

End RelayProperties.

Section ReferenceProperties.


End ReferenceProperties.

Section StringProperties.

Lemma prefix_empty (m : string) : String.prefix "" m = true.
Proof. by destruct m. Qed.

Lemma prefix_app_r (s m b : string) :
  String.prefix s m = true → String.prefix s (m +:+ b) = true.
Proof.
  revert s. induction m as [|c' m IH]; intros [|c s]; simpl;
    [by rewrite prefix_empty|done..|].
  destruct (ascii_dec c c'); [|done]. apply IH.
Qed.

Lemma prefix_refl_app (s b : string) : String.prefix s (s +:+ b) = true.
Proof.
  induction s as [|c s IH]; simpl; [apply prefix_empty|].
  by destruct (ascii_dec c c).
Qed.

Lemma includes_app_r (s m b : string) :
  includes s m = true → includes s (m +:+ b) = true.
Proof.
  induction m as [|c m IH]; simpl.
  - rewrite orb_false_r. intros Hprefix.
    destruct s; [by destruct b|by destruct s].
  - intros [Hprefix|Hrest]%orb_true_iff; apply orb_true_iff.
    + left. by apply (prefix_app_r s (String c m) b).
    + right. by apply IH.
Qed.

Lemma includes_app_l (s a m : string) :
  includes s m = true → includes s (a +:+ m) = true.
Proof.
  intros Hm. induction a as [|c a IH]; simpl; [done|].
  apply orb_true_iff. by right.
Qed.

Lemma includes_here (s b : string) : includes s (s +:+ b) = true.
Proof.
  destruct s as [|c s]; [by destruct b|].
  simpl. apply orb_true_iff. left.
  destruct (ascii_dec c c); [|done]. apply prefix_refl_app.
Qed.

End StringProperties.

Section ThreadProperties.
Context {lib : Collaborators}.

Lemma pending_insert threads i t t' :
  threads !! i = Some t →
  (pending (<[i := t']> threads) + weight t = pending threads + weight t')%nat.
Proof.
  revert i. induction threads as [|t0 threads IH]; intros [|i]; simpl; try done.
  - intros [= ->]. unfold pending. simpl. lia.
  - intros Hi. specialize (IH i Hi). unfold pending in *. simpl. lia.
Qed.

Lemma lookup_calls youtube_id w :
  ydl_calls (outcome_world (_get_cached_stream_data youtube_id w)) = ydl_calls w.
Proof.
  destruct (lookup_returns youtube_id w) as ([cached|] & w1 & Hlookup);
    rewrite Hlookup; simpl.
  - by destruct (lookup_hit_inv _ _ _ _ Hlookup) as (_ & _ & _ & _ & ? & _).
  - by destruct (lookup_miss_inv _ _ _ Hlookup) as (_ & ? & _).
Qed.

(** A step invokes the resolver at most once, and only from [AtResolve]. *)
Lemma thread_step_calls t locked w t' locked' w' :
  thread_step t locked w = Some (t', locked', w') →
  (length (ydl_calls w') + weight t' ≤ length (ydl_calls w) + weight t)%nat.
Proof.
  unfold thread_step, weight, may_resolve.
  destruct (thr_pc t) as [| | |url headers|url headers|result] eqn:Hpc.
  - destruct locked; [done|]. intros [= <- <- <-]. simpl. lia.
  - pose proof (lookup_calls (thr_youtube_id t) w) as Hcalls.
    destruct (_get_cached_stream_data _ w) as [[cached|] w1|e w1];
      intros [= <- <- <-]; simpl in *; rewrite Hcalls; lia.
  - pose proof (resolve_world (thr_youtube_id t) w) as Hworld.
    destruct (resolve _ w) as [[[url headers]|] w1|e w1];
      intros [= <- <- <-]; simpl in *; subst w1; simpl; lia.
  - destruct locked; [done|]. intros [= <- <- <-]. simpl. lia.
  - rewrite store_eq. intros [= <- <- <-]. simpl. lia.
  - done.
Qed.

Lemma step_calls i s s' :
  step i s = Some s' →
  (length (ydl_calls (sys_world s')) + pending (sys_threads s')
   ≤ length (ydl_calls (sys_world s)) + pending (sys_threads s))%nat.
Proof.
  unfold step.
  destruct (sys_threads s !! i) as [t|] eqn:Hi; [|done].
  destruct (thread_step t _ _) as [[[t' locked'] w']|] eqn:Hstep; [|done].
  intros [= <-]. simpl.
  pose proof (thread_step_calls _ _ _ _ _ _ Hstep).
  pose proof (pending_insert _ _ _ t' Hi). lia.
Qed.

Lemma run_calls schedule s s' :
  run schedule s = Some s' →
  (length (ydl_calls (sys_world s')) + pending (sys_threads s')
   ≤ length (ydl_calls (sys_world s)) + pending (sys_threads s))%nat.
Proof.
  revert s. induction schedule as [|i schedule IH]; intros s; simpl.
  - by intros [= <-].
  - destruct (step i s) as [s1|] eqn:Hstep; [|done].
    intros Hrun. pose proof (step_calls _ _ _ Hstep).
    pose proof (IH _ Hrun). lia.
Qed.

Lemma pending_start youtube_ids w :
  pending (sys_threads (start youtube_ids w)) = length youtube_ids.
Proof.
  unfold pending. simpl. induction youtube_ids as [|y ys IH]; simpl; [done|].
  by rewrite IH.
Qed.

(** The resolver invocation never waits for the lock. *)
Lemma resolve_not_blocked s i t :
  sys_threads s !! i = Some t → thr_pc t = AtResolve → is_Some (step i s).
Proof.
  intros Hi Hpc. unfold step, thread_step. rewrite Hi, Hpc.
  destruct (resolve _ _) as [[[url headers]|] w1|e w1]; by eauto.
Qed.

(** The step that ends a call with a locator leaves the cache holding
    that locator under the call's identifier. *)
Lemma step_finishes_cached i s s' t stream_url stream_headers :
  step i s = Some s' →
  sys_threads s !! i = Some t →
  result_of s' i = Some (Some stream_url, stream_headers) →
  ∃ cached,
    stream_cache (sys_world s') !! thr_youtube_id t = Some cached
    ∧ url cached = stream_url
    ∧ stream_headers = Some (headers cached).
Proof.
  unfold step, thread_step, result_of. intros Hstep Hi. rewrite Hi in Hstep.
  pose proof (lookup_lt_Some _ _ _ Hi) as Hlt.
  destruct (thr_pc t) as [| | |url0 headers0|url0 headers0|result].
  - destruct (sys_locked s); [done|]. injection Hstep as <-. simpl.
    by rewrite list_lookup_insert_eq.
  - destruct (lookup_returns (thr_youtube_id t) (sys_world s))
      as ([cached|] & w1 & Hlookup); rewrite Hlookup in Hstep;
      injection Hstep as <-; simpl; rewrite list_lookup_insert_eq by done;
      simpl; [|done].
    intros [= <- <-]. exists cached.
    destruct (lookup_hit_inv _ _ _ _ Hlookup) as (Hentry & _ & _ & -> & _).
    done.
  - destruct (resolve _ _) as [[[url0 headers0]|] w1|e w1];
      injection Hstep as <-; simpl; by rewrite list_lookup_insert_eq.
  - destruct (sys_locked s); [done|]. injection Hstep as <-. simpl.
    by rewrite list_lookup_insert_eq.
  - rewrite store_eq in Hstep. injection Hstep as <-. simpl.
    rewrite list_lookup_insert_eq by done. simpl. intros [= <- <-].
    eexists. split; [apply lookup_insert_eq|done].
  - done.
Qed.

(** A lookup that finds an unexpired entry ends the call with the entry's
    locator, and the resolver is not invoked. *)
Lemma step_hit i s t cached :
  sys_threads s !! i = Some t →
  thr_pc t = InLookup →
  stream_cache (sys_world s) !! thr_youtube_id t = Some cached →
  clock (ticks (sys_world s)) < expires_at cached →
  ∃ s',
    step i s = Some s'
    ∧ result_of s' i = Some (Some (url cached), Some (headers cached))
    ∧ ydl_calls (sys_world s') = ydl_calls (sys_world s)
    ∧ stream_cache (sys_world s') = stream_cache (sys_world s).
Proof.
  intros Hi Hpc Hentry Hfresh. unfold step, thread_step, result_of.
  rewrite Hi, Hpc, (lookup_fresh _ _ _ Hentry Hfresh).
  eexists. split; [done|]. simpl.
  by rewrite list_lookup_insert_eq by (by eapply lookup_lt_Some).
Qed.

(** A step leaves the entries of the other identifiers alone. *)
Lemma step_other_keys i s s' t other :
  step i s = Some s' →
  sys_threads s !! i = Some t →
  other ≠ thr_youtube_id t →
  stream_cache (sys_world s') !! other = stream_cache (sys_world s) !! other.
Proof.
  unfold step, thread_step. intros Hstep Hi Hother. rewrite Hi in Hstep.
  destruct (thr_pc t) as [| | |url headers|url headers|result].
  - destruct (sys_locked s); [done|]. by injection Hstep as <-.
  - destruct (lookup_returns (thr_youtube_id t) (sys_world s))
      as ([cached|] & w1 & Hlookup); rewrite Hlookup in Hstep;
      injection Hstep as <-; simpl.
    + destruct (lookup_hit_inv _ _ _ _ Hlookup) as (_ & _ & _ & -> & _). done.
    + destruct (lookup_miss_inv _ _ _ Hlookup) as (-> & _).
      by apply lookup_delete_ne.
  - pose proof (resolve_world (thr_youtube_id t) (sys_world s)) as Hworld.
    destruct (resolve _ _) as [[[url headers]|] w1|e w1];
      injection Hstep as <-; simpl in *; by subst w1.
  - destruct (sys_locked s); [done|]. by injection Hstep as <-.
  - rewrite store_eq in Hstep. injection Hstep as <-. simpl.
    by apply lookup_insert_ne.
  - done.
Qed.

(** A thread alone goes through the stages of [_extract_stream_data]. *)
Lemma solo_run youtube_id w :
  ∃ schedule s',
    run schedule (start [youtube_id] w) = Some s'
    ∧ result_of s' 0 = outcome_value (_extract_stream_data youtube_id w)
    ∧ sys_world s' = outcome_world (_extract_stream_data youtube_id w)
    ∧ sys_locked s' = false.
Proof.
  rewrite extract_eq.
  destruct (_get_cached_stream_data youtube_id w) as [[cached|] w1|e w1]
    eqn:Hlookup.
  - exists [0; 0]%nat. eexists. simpl. unfold step, thread_step. simpl.
    rewrite Hlookup. by simpl.
  - destruct (resolve youtube_id w1) as [[[url headers]|] w2|e w2] eqn:Hresolve.
    + exists [0; 0; 0; 0; 0]%nat. eexists. simpl. unfold step, thread_step. simpl.
      rewrite Hlookup. simpl. rewrite Hresolve. by simpl.
    + exists [0; 0; 0]%nat. eexists. simpl. unfold step, thread_step. simpl.
      rewrite Hlookup. simpl. rewrite Hresolve. by simpl.
    + exists [0; 0; 0]%nat. eexists. simpl. unfold step, thread_step. simpl.
      rewrite Hlookup. simpl. rewrite Hresolve. by simpl.
  - exists [0; 0]%nat. eexists. simpl. unfold step, thread_step. simpl.
    rewrite Hlookup. by simpl.
Qed.

End ThreadProperties.

(** * The claims *)

(** C1, where the code departs from it.  With [JWT_SECRET_KEY] unset,
    the token [generate_playback_token] issues verifies at once with the
    matching subject and returns the original claims, and
    [verify_playback_token_without_user] rejects the same token at the same
    time: the first signs and checks with ['video-secret-key-video'], the
    second checks with ['jwt-secret-key-video'].  With the variable set,
    both accept it. *)
Theorem default_secret_differs_between_paths :
  let lib := Reference.collaborators in
  let claims := Reference.claims in
  let issued env :=
    generate_playback_token Reference.video_id Reference.user_id
      (Reference.boot env) in
  let token env := default "" (outcome_value (issued env)) in
  let w env := outcome_world (issued env) in
  environ (w Reference.unset) !! "JWT_SECRET_KEY" = None
  ∧ outcome_value
      (verify_playback_token (token Reference.unset) Reference.video_id
         Reference.user_id (w Reference.unset))
    = Some (Some claims)
  ∧ outcome_value
      (verify_playback_token_without_user (token Reference.unset)
         Reference.video_id (w Reference.unset))
    = Some None
  ∧ outcome_value
      (verify_playback_token (token Reference.configured) Reference.video_id
         Reference.user_id (w Reference.configured))
    = Some (Some claims)
  ∧ outcome_value
      (verify_playback_token_without_user (token Reference.configured)
         Reference.video_id (w Reference.configured))
    = Some (Some claims).
Proof. by_evaluation. Qed.

(** C2, as stated, fails: the page served for a token that verifies has
    status 200 and contains both the video's [youtube_id] and a URL on the
    upstream host. *)
Lemma player_page_shows_youtube_id :
  let lib := Reference.collaborators in
  let w := Reference.boot Reference.configured in
  let token := Reference.token_of Reference.configured in
  let run := video_player Reference.video_id (Reference.request (Some token) None) w in
  has_key <$> outcome_value
                (verify_playback_token_without_user token Reference.video_id w)
  = Some true
  ∧ doc_youtube_id Reference.video_doc = Some "qp0HIF3SfI4"
  ∧ status <$> outcome_value run = Some 200
  ∧ body_includes "qp0HIF3SfI4" <$> outcome_value run = Some true
  ∧ body_includes "https://www.youtube.com/iframe_api" <$> outcome_value run
    = Some true.
Proof. by_evaluation. Qed.

(** C2, amended.  The page the player endpoint returns with status 200
    is served for a token that verifies and for the video found under the
    path's identifier, and it is the template filled with the video's title
    and its [youtube_id]: the body contains the upstream identifier, as the
    IFrame player's [videoId], and the upstream host's IFrame API URL. *)
Theorem player_page_embeds_youtube_id {lib : Collaborators}
    (video_id : string) (request : Request) (w w' : World) (resp : Response) :
  video_player video_id request w = Returns resp w' →
  status resp = 200 →
  ∃ token_data w1 video,
    verify_playback_token_without_user
      (default "" (req_token request)) video_id w
    = Returns (Some token_data) w1
    ∧ find_by_id video_id w1 = Returns (Some video) w'
    ∧ body resp
      = BodyText (player_html_head +:+ title video +:+ player_html_middle
                  +:+ youtube_id video +:+ player_html_tail)
    ∧ body_includes (youtube_id video) resp = true
    ∧ body_includes "https://www.youtube.com/iframe_api" resp = true.
Proof.
  rewrite video_player_eq. intros Hrun Hok.
  destruct (truthy_str (req_token request)); simpl in Hrun;
    [|by injection Hrun as <- _].
  destruct (verify_playback_token_without_user _ _ _)
    as [token_data w1|e w1] eqn:Hverify; [|by injection Hrun as <- _].
  destruct token_data as [token_data|]; [|by injection Hrun as <- _].
  destruct (truthy_dict (Some token_data)); simpl in Hrun;
    [|by injection Hrun as <- _].
  destruct (find_by_id video_id w1) as [[video|] w2|e w2] eqn:Hfound;
    [|by injection Hrun as <- _..].
  destruct (is_active video); simpl in Hrun; [|by injection Hrun as <- _].
  injection Hrun as <- <-.
  exists token_data, w1, video. split_and!; [done..| |].
  - change (includes (youtube_id video)
              (player_html_head +:+ title video +:+ player_html_middle
               +:+ youtube_id video +:+ player_html_tail) = true).
    do 3 apply includes_app_l. apply includes_here.
  - change (includes "https://www.youtube.com/iframe_api"
              (player_html_head +:+ title video +:+ player_html_middle
               +:+ youtube_id video +:+ player_html_tail) = true).
    do 2 apply includes_app_l. apply includes_app_r. by vm_compute.
Qed.

Lemma player_page_embeds_youtube_id_witness :
  let lib := Reference.collaborators in
  let request :=
    Reference.request (Some (Reference.token_of Reference.configured)) None in
  ∃ resp,
    outcome_value
      (video_player Reference.video_id request
         (Reference.boot Reference.configured))
    = Some resp
    ∧ body_includes "qp0HIF3SfI4" resp = true
    ∧ body_includes "https://www.youtube.com/iframe_api" resp = true.
Proof.
  intros lib request.
  destruct (video_player Reference.video_id request
              (Reference.boot Reference.configured))
    as [resp w'|e w'] eqn:Hrun; [|by vm_compute in Hrun].
  exists resp. split; [done|].
  destruct (player_page_embeds_youtube_id (lib := lib) _ _ _ _ _ Hrun)
    as (token_data & w1 & video & _ & Hfound & _ & Hid & Hurl).
  - apply (f_equal (fmap status ∘ outcome_value)) in Hrun.
    vm_compute in Hrun. injection Hrun as Hcode. symmetry. exact Hcode.
  - split; [|done].
    assert (youtube_id video = "qp0HIF3SfI4") as <-; [|done].
    apply (f_equal (fmap (fmap youtube_id) ∘ outcome_value)) in Hfound.
    revert Hfound. unfold find_by_id, Video_init. py_run.
    vm_compute. by intros [= ->].
Defined.

(** C3, as stated, fails: two calls for the same identifier, not cached,
    both look up before either stores; the resolver is invoked twice, and
    the callers get the two different locators it produced. *)
Lemma concurrent_misses_resolve_twice :
  let lib := Reference.collaborators in
  let w := Reference.boot Reference.configured in
  let after :=
    run [0; 0; 1; 1; 0; 1; 0; 0; 1; 1]%nat
      (start [Reference.youtube_id; Reference.youtube_id] w) in
  stream_cache w !! Reference.youtube_id = None
  ∧ ydl_calls ∘ sys_world <$> after
    = Some [watch_url Reference.youtube_id; watch_url Reference.youtube_id]
  ∧ (after ≫= λ s, result_of s 0)
    = Some (Some "https://rr3.googlevideo.com/videoplayback?n=0",
            Some {[ "User-Agent" := "Mozilla/5.0" ]})
  ∧ (after ≫= λ s, result_of s 1)
    = Some (Some "https://rr3.googlevideo.com/videoplayback?n=1",
            Some {[ "User-Agent" := "Mozilla/5.0" ]}).
Proof. by_evaluation. Qed.

(** C3, amended.  Calls of [_extract_stream_data] that run
    concurrently, for the same identifier or for different ones, invoke the
    resolver at most once each, whatever the interleaving; the step that
    ends a call with a locator leaves the cache holding that locator under
    the call's identifier; a call whose lookup finds an entry that has not
    expired ends with that entry's locator, the resolver not invoked and
    the cache unchanged; a thread about to invoke the resolver can always
    take that step, whether or not another thread holds the cache lock; and
    no step of a call changes the cache entry of another identifier. *)
Theorem concurrent_calls_resolve_once_each {lib : Collaborators}
    (youtube_ids : list string) (w : World) :
  (∀ schedule s',
     run schedule (start youtube_ids w) = Some s' →
     (length (ydl_calls (sys_world s'))
      ≤ length (ydl_calls w) + length youtube_ids)%nat)
  ∧ (∀ s i t s' stream_url stream_headers,
       step i s = Some s' →
       sys_threads s !! i = Some t →
       result_of s' i = Some (Some stream_url, stream_headers) →
       ∃ cached,
         stream_cache (sys_world s') !! thr_youtube_id t = Some cached
         ∧ url cached = stream_url
         ∧ stream_headers = Some (headers cached))
  ∧ (∀ s i t cached,
       sys_threads s !! i = Some t →
       thr_pc t = InLookup →
       stream_cache (sys_world s) !! thr_youtube_id t = Some cached →
       clock (ticks (sys_world s)) < expires_at cached →
       ∃ s',
         step i s = Some s'
         ∧ result_of s' i = Some (Some (url cached), Some (headers cached))
         ∧ ydl_calls (sys_world s') = ydl_calls (sys_world s)
         ∧ stream_cache (sys_world s') = stream_cache (sys_world s))
  ∧ (∀ s i t,
       sys_threads s !! i = Some t → thr_pc t = AtResolve → is_Some (step i s))
  ∧ (∀ s i t s' other,
       step i s = Some s' →
       sys_threads s !! i = Some t →
       other ≠ thr_youtube_id t →
       stream_cache (sys_world s') !! other = stream_cache (sys_world s) !! other).
Proof.
  split_and!; [| | |apply resolve_not_blocked|].
  - intros schedule s' Hrun. pose proof (run_calls _ _ _ Hrun) as Hbound.
    rewrite pending_start in Hbound. simpl in Hbound. lia.
  - intros s i t s' stream_url stream_headers. apply step_finishes_cached.
  - intros s i t cached. apply step_hit.
  - intros s i t s' other Hstep Hi Hother. by eapply step_other_keys.
Qed.

(** Two calls for one identifier in a fresh process: at most two resolver
    invocations under the interleaving above, in which the second thread's
    store overwrites the first's; a third call that looks up afterwards ends
    with the locator the cache holds, the second one; and the first thread
    resolves while the second holds the lock. *)
Lemma concurrent_calls_resolve_once_each_witness :
  let lib := Reference.collaborators in
  let w := Reference.boot Reference.configured in
  let s0 :=
    start [Reference.youtube_id; Reference.youtube_id; Reference.youtube_id]
      w in
  (∀ s', run [0; 0; 1; 1; 0; 1; 0; 0; 1; 1]%nat s0 = Some s' →
         (length (ydl_calls (sys_world s')) ≤ 3)%nat)
  ∧ (∀ s s', run [0; 0; 1; 1; 0; 1; 0; 0; 1]%nat s0 = Some s →
             step 1 s = Some s' →
             ∃ cached,
               stream_cache (sys_world s') !! Reference.youtube_id
               = Some cached
               ∧ url cached = "https://rr3.googlevideo.com/videoplayback?n=1")
  ∧ (∀ s, run [0; 0; 1; 1; 0; 1; 0; 0; 1; 1; 2]%nat s0 = Some s →
          ∃ s', step 2 s = Some s'
                ∧ result_of s' 2
                  = Some (Some "https://rr3.googlevideo.com/videoplayback?n=1",
                          Some {[ "User-Agent" := "Mozilla/5.0" ]})
                ∧ ydl_calls (sys_world s') = ydl_calls (sys_world s))
  ∧ (∀ s, run [0; 0; 1]%nat s0 = Some s →
          sys_locked s = true ∧ is_Some (step 0 s)).
Proof.
  intros lib w s0.
  destruct (concurrent_calls_resolve_once_each (lib := lib)
              [Reference.youtube_id; Reference.youtube_id;
               Reference.youtube_id] w)
    as (Hbound & Hstored & Hhit & Hfree & _).
  split_and!.
  - intros s' Hrun. apply (Hbound _ _ Hrun).
  - intros s s' Hrun Hstep. vm_compute in Hrun. injection Hrun as <-.
    destruct (Hstored _ 1%nat
                {| thr_youtube_id := Reference.youtube_id;
                   thr_pc := InStore
                     "https://rr3.googlevideo.com/videoplayback?n=1"
                     {[ "User-Agent" := "Mozilla/5.0" ]} |}
                s' "https://rr3.googlevideo.com/videoplayback?n=1"
                (Some {[ "User-Agent" := "Mozilla/5.0" ]}) Hstep)
      as (cached & Hentry & Hurl & _); [by vm_compute| |by exists cached].
    vm_compute in Hstep. injection Hstep as <-. by vm_compute.
  - intros s Hrun. vm_compute in Hrun. injection Hrun as <-.
    lazymatch goal with
    | |- ∃ s', step 2 ?s = _ ∧ _ =>
        destruct (Hhit s 2%nat
                    {| thr_youtube_id := Reference.youtube_id;
                       thr_pc := InLookup |}
                    {| url := "https://rr3.googlevideo.com/videoplayback?n=1";
                       headers := {[ "User-Agent" := "Mozilla/5.0" ]};
                       expires_at := 1700003601 |})
          as (s' & Hstep & Hresult & Hcalls & _)
    end; [by vm_compute..|].
    by exists s'.
  - intros s Hrun. vm_compute in Hrun. injection Hrun as <-.
    split; [done|].
    apply (Hfree _ 0%nat {| thr_youtube_id := Reference.youtube_id;
                            thr_pc := AtResolve |}); by vm_compute.
Defined.






(** C6.  Every entry stored by [_cache_stream_data] expires
    3600 seconds after its insertion time, the clock reading made by the
    store.  For a cached entry, a call whose lookup reads [now < expires_at]
    returns the cached locator, invokes no resolver and leaves the cache as
    it is; a call whose lookup reads [now >= expires_at] gets no entry from
    the lookup, which removes it, and invokes the resolver. *)
Theorem cache_entry_lives_one_hour {lib : Collaborators}
    (youtube_id : string) (w : World) :
  (∀ url headers,
     ∃ w', _cache_stream_data youtube_id url headers w = Returns tt w'
           ∧ stream_cache w' !! youtube_id
             = Some {| url := url; headers := headers;
                       expires_at := clock (ticks w) + 3600 |})
  ∧ (∀ cached,
       stream_cache w !! youtube_id = Some cached →
       (clock (ticks w) < expires_at cached →
        ∃ w', _extract_stream_data youtube_id w
              = Returns (Some (url cached), Some (headers cached)) w'
              ∧ ydl_calls w' = ydl_calls w
              ∧ stream_cache w' = stream_cache w)
       ∧ (expires_at cached ≤ clock (ticks w) →
          ∃ w1, _get_cached_stream_data youtube_id w = Returns None w1
                ∧ stream_cache w1 = delete youtube_id (stream_cache w)
                ∧ ydl_calls (outcome_world (_extract_stream_data youtube_id w))
                  = watch_url youtube_id :: ydl_calls w)).
Proof.
  split.
  - intros url headers. rewrite store_eq. eexists. split; [done|].
    simpl. by rewrite lookup_insert_eq.
  - intros cached Hentry. split.
    + intros Hfresh. rewrite (extract_hit _ _ _ Hentry Hfresh). by eauto.
    + intros Hstale. pose proof (lookup_stale _ _ _ Hentry Hstale) as Hlookup.
      eexists. split; [exact Hlookup|]. split; [done|].
      by apply (extract_miss_calls _ _ _ Hlookup).
Qed.

(** The entry of a resolved video is served from the cache 3599 readings
    later and re-resolved 3600 readings later. *)
Lemma cache_entry_lives_one_hour_witness :
  let lib := Reference.collaborators in
  let w := Reference.resolved Reference.configured in
  let cached :=
    {| url := "https://rr3.googlevideo.com/videoplayback?n=0";
       headers := {[ "User-Agent" := "Mozilla/5.0" ]};
       expires_at := 1700003600 |} in
  stream_cache w !! Reference.youtube_id = Some cached
  ∧ (∃ w', _extract_stream_data Reference.youtube_id (Reference.later 3598 w)
           = Returns (Some (url cached), Some (headers cached)) w'
           ∧ ydl_calls w' = ydl_calls w
           ∧ stream_cache w' = stream_cache w)
  ∧ (∃ w1, _get_cached_stream_data Reference.youtube_id (Reference.later 3599 w)
           = Returns None w1
           ∧ stream_cache w1 = delete Reference.youtube_id (stream_cache w)
           ∧ ydl_calls (outcome_world
                          (_extract_stream_data Reference.youtube_id
                             (Reference.later 3599 w)))
             = watch_url Reference.youtube_id :: ydl_calls w).
Proof.
  split; [by vm_compute|]. split.
  - destruct (cache_entry_lives_one_hour (lib := Reference.collaborators)
                Reference.youtube_id
                (Reference.later 3598 (Reference.resolved Reference.configured)))
      as [_ Hlookup].
    apply (Hlookup _ ltac:(by vm_compute)). by vm_compute.
  - destruct (cache_entry_lives_one_hour (lib := Reference.collaborators)
                Reference.youtube_id
                (Reference.later 3599 (Reference.resolved Reference.configured)))
      as [_ Hlookup].
    apply (Hlookup _ ltac:(by vm_compute)). by vm_compute.
Defined.





(** C9.  For a proxy request whose upstream fetch returned a
    response, the relayed response sets [Accept-Ranges: bytes] and
    [Access-Control-Allow-Origin: *], takes [Content-Type] from upstream or
    [video/mp4] when upstream has none, has [Content-Length] and
    [Content-Range] exactly when upstream has them and with upstream's
    values, has no header besides these five, and has status 206 if and
    only if the client supplied a [Range] header (one with a value) and
    upstream answered 206, and status 200 otherwise. *)
Theorem relayed_response_headers {lib : Collaborators}
    (video_id : string) (request : Request) (w w' : World) (resp : Response)
    (stream_url : string) (req_headers : Headers) (upstream : UpstreamResponse) :
  proxy_video video_id request w = Returns resp w' →
  upstream_calls w' = (stream_url, req_headers) :: upstream_calls w →
  requests_get (length (upstream_calls w)) stream_url req_headers = inr upstream →
  resp_headers resp !! "Accept-Ranges" = Some "bytes"
  ∧ resp_headers resp !! "Access-Control-Allow-Origin" = Some "*"
  ∧ resp_headers resp !! "Content-Type"
    = Some (default "video/mp4" (ci_get (up_headers upstream) "Content-Type"))
  ∧ resp_headers resp !! "Content-Length"
    = ci_get (up_headers upstream) "Content-Length"
  ∧ resp_headers resp !! "Content-Range"
    = ci_get (up_headers upstream) "Content-Range"
  ∧ (∀ name, is_Some (resp_headers resp !! name) → name ∈ proxy_header_names)
  ∧ (status resp = 206
     ↔ truthy_str (req_range request) = true ∧ up_status upstream = 206)
  ∧ (status resp ≠ 206 → status resp = 200).
Proof.
  intros Hrun Hlog Hfetch.
  destruct (proxy_video_fetched _ _ _ _ _ _ Hrun Hlog)
    as (w1 & video & w2 & u & hs & w3 & _ & _ & _ & _ & _ & _ & Hlog3
        & Hfetched).
  revert Hfetched. unfold proxy_fetch. rewrite Hlog3.
  destruct (requests_get _ u _) as [e|answer] eqn:Hanswer;
    intros [= <- <-]; simpl in Hlog; injection Hlog as <- <-;
    rewrite Hfetch in Hanswer; [done|injection Hanswer as <-].
  destruct (build_response_headers_spec upstream)
    as (? & ? & ? & ? & ? & ?).
  unfold relay. simpl. split_and!; [done..| |].
  - destruct (truthy_str (req_range request)); simpl; [|by intuition].
    case_bool_decide; by intuition.
  - destruct (truthy_str (req_range request)); simpl; [|done].
    by case_bool_decide.
Qed.

(** A ranged request against an upstream that honours ranges. *)
Lemma relayed_response_headers_witness :
  let lib := Reference.collaborators in
  let request :=
    Reference.request (Some (Reference.token_of Reference.configured))
      (Some "bytes=100-199") in
  ∃ resp w',
    proxy_video Reference.video_id request (Reference.boot Reference.configured)
    = Returns resp w'
    ∧ resp_headers resp !! "Accept-Ranges" = Some "bytes"
    ∧ resp_headers resp !! "Access-Control-Allow-Origin" = Some "*"
    ∧ resp_headers resp !! "Content-Type" = Some "video/webm"
    ∧ resp_headers resp !! "Content-Length" = Some "100"
    ∧ resp_headers resp !! "Content-Range" = Some "bytes 100-199/1000"
    ∧ (∀ name, is_Some (resp_headers resp !! name) → name ∈ proxy_header_names)
    ∧ status resp = 206.
Proof.
  intros lib request.
  set (w := Reference.boot Reference.configured).
  destruct (proxy_video Reference.video_id request w) as [resp w'|e w']
    eqn:Hrun; [|by vm_compute in Hrun].
  exists resp, w'. split; [done|].
  assert (status resp = 206) as Hstatus.
  { apply (f_equal (fmap status ∘ outcome_value)) in Hrun.
    vm_compute in Hrun. injection Hrun as Hcode. symmetry. exact Hcode. }
  destruct (relayed_response_headers (lib := lib) _ _ _ _ _
              "https://rr3.googlevideo.com/videoplayback?n=0"
              (<["Range" := "bytes=100-199"]> {[ "User-Agent" := "Mozilla/5.0" ]})
              {| up_status := 206;
                 up_headers := Reference.upstream_headers true;
                 up_chunks := ["chunk-1"; ""; "chunk-2"] |}
              Hrun)
    as (? & ? & ? & ? & ? & ? & _).
  - transitivity
      (upstream_calls (outcome_world (proxy_video Reference.video_id request w)));
      [by rewrite Hrun|vm_compute; reflexivity].
  - vm_compute. reflexivity.
  - by split_and!.
Defined.

(** C10.  [Video.find_by_id] returns on every identifier
    string; on one that [ObjectId] rejects it returns [None] without
    raising and without touching the state; and the proxy, player and
    stream endpoints answer such an identifier, presented with a token that
    verifies for it, with 404 "Video not found". *)
Theorem malformed_id_is_not_found {lib : Collaborators}
    (video_id : string) (e : PyExc) :
  bson_ObjectId video_id = inl e →
  (∀ any_id w, ∃ found w', find_by_id any_id w = Returns found w')
  ∧ (∀ w, find_by_id video_id w = Returns None w)
  ∧ (∀ request token_data w w1,
       truthy_str (req_token request) = true →
       verify_playback_token_without_user
         (default "" (req_token request)) video_id w
       = Returns (Some token_data) w1 →
       proxy_video video_id request w
       = Returns (text_response "Video not found" 404) w1
       ∧ video_player video_id request w
         = Returns (with_status (_error_html "Video not found") 404) w1)
  ∧ (∀ request user_id token_data w w1,
       req_auth request = AuthIdentity user_id →
       truthy_str (req_token request) = true →
       verify_playback_token (default "" (req_token request)) video_id user_id w
       = Returns (Some token_data) w1 →
       stream_video video_id request w
       = Returns (jsonify [("error", JStr "Video not found")] 404) w1).
Proof.
  intros Hinvalid. split_and!.
  - intros any_id w.
    destruct (find_by_id_returns any_id w) as (found & w' & Hfound & _).
    by eauto.
  - intros w. by eapply find_by_id_invalid.
  - intros request token_data w w1 Htoken Hverify.
    assert (truthy_dict (Some token_data) = true) as Htruthy
      by (by eapply verify_without_user_truthy).
    rewrite proxy_video_eq, video_player_eq, Htoken, Hverify.
    cbv beta iota delta [negb].
    by rewrite Htruthy, (find_by_id_invalid _ _ _ Hinvalid).
  - intros request user_id token_data w w1 Hauth Htoken Hverify.
    assert (truthy_dict (Some token_data) = true) as Htruthy
      by (by eapply verify_truthy).
    rewrite stream_video_eq, Hauth, Htoken, Hverify.
    cbv beta iota delta [negb].
    by rewrite Htruthy, (find_by_id_invalid _ _ _ Hinvalid).
Qed.

(** A token issued for a path segment that is no ObjectId. *)
Lemma malformed_id_is_not_found_witness :
  let lib := Reference.collaborators in
  let w := Reference.boot Reference.configured in
  let token :=
    default "" (outcome_value
                  (generate_playback_token "not-an-object-id" Reference.user_id w)) in
  let request := Reference.request (Some token) None in
  find_by_id "not-an-object-id" w = Returns None w
  ∧ status <$> outcome_value (proxy_video "not-an-object-id" request w) = Some 404
  ∧ status <$> outcome_value (video_player "not-an-object-id" request w) = Some 404
  ∧ status <$> outcome_value (stream_video "not-an-object-id" request w) = Some 404.
Proof.
  intros lib w token request.
  destruct (malformed_id_is_not_found (lib := lib) "not-an-object-id" InvalidId)
    as (_ & Hfind & Hopen & Hstream); [by vm_compute|].
  split; [apply Hfind|].
  destruct (verify_playback_token_without_user token "not-an-object-id" w)
    as [[token_data|] w1|e w1] eqn:Hverify;
    [|by vm_compute in Hverify..].
  destruct (Hopen request token_data w w1) as [-> ->]; [by vm_compute|done|].
  split; [done|]. split; [done|].
  destruct (verify_playback_token token "not-an-object-id" Reference.user_id w)
    as [[user_data|] w2|e w2] eqn:Hverify';
    [|by vm_compute in Hverify'..].
  by rewrite (Hstream request Reference.user_id user_data w w2).
Defined.


(** X1.  When [JWT_SECRET_KEY] is set, every token that
    [verify_playback_token] accepts for a video and a user is accepted by
    [verify_playback_token_without_user] for that video, with the same
    payload. *)
Theorem configured_paths_agree {lib : Collaborators}
    (token video_id user_id secret : string) (payload : Payload) (w w1 : World) :
  environ w !! "JWT_SECRET_KEY" = Some secret →
  verify_playback_token token video_id user_id w = Returns (Some payload) w1 →
  verify_playback_token_without_user token video_id w
  = Returns (Some payload) w1.
Proof.
  intros Hset. rewrite verify_eq, verify_without_user_eq.
  rewrite !(secret_of_set _ _ _ Hset). unfold verification, spec_verify.
  destruct (jwt_decode _ _ _) as [e|decoded]; [by destruct e|].
  destruct (get_ne_str decoded "type" "playback"); [done|].
  destruct (get_ne_str decoded "video_id" video_id); [done|].
  by destruct (get_ne_str decoded "user_id" user_id).
Qed.

Lemma configured_paths_agree_witness :
  let lib := Reference.collaborators in
  let w := Reference.boot Reference.configured in
  has_key <$> outcome_value
                (verify_playback_token_without_user
                   (Reference.token_of Reference.configured) Reference.video_id w)
  = Some true.
Proof.
  intros lib w.
  destruct (verify_playback_token (Reference.token_of Reference.configured)
              Reference.video_id Reference.user_id w)
    as [[payload|] w1|e w1] eqn:Hverify; [|by vm_compute in Hverify..].
  assert (environ w !! "JWT_SECRET_KEY" = Some "correct-horse-battery-staple")
    as Hset by (vm_compute; reflexivity).
  by rewrite (configured_paths_agree (lib := lib) _ _ _ _ _ _ _ Hset Hverify).
Defined.


(** * Further properties *)

Section TokenBinding.
Context {lib : Collaborators}.

Lemma get_ne_str_other payload key s s' :
  get_ne_str payload key s = false → s' ≠ s → get_ne_str payload key s' = true.
Proof.
  unfold get_ne_str. destruct (dict_get payload key) as [[| | |v| |]|]; try done.
  intros Heq%negb_false_iff%bool_decide_eq_true Hother. subst v.
  apply negb_true_iff, bool_decide_eq_false. congruence.
Qed.

Lemma spec_verify_accepts decoded video_id subject payload :
  forget_kind (spec_verify decoded video_id subject) = Some payload →
  decoded = inr payload
  ∧ get_ne_str payload "type" "playback" = false
  ∧ get_ne_str payload "video_id" video_id = false
  ∧ ∀ user_id, subject = Some user_id →
               get_ne_str payload "user_id" user_id = false.
Proof.
  unfold spec_verify. destruct decoded as [e|token]; [by destruct e|].
  destruct (get_ne_str token "type" "playback") eqn:Htype; [done|].
  destruct (get_ne_str token "video_id" video_id) eqn:Hvideo; [done|].
  destruct subject as [subject|].
  - destruct (get_ne_str token "user_id" subject) eqn:Huser; [done|].
    intros [= <-]. split_and!; [done..|]. by intros ? [= <-].
  - intros [= <-]. by split_and!.
Qed.

End TokenBinding.

(** X2.  A token that [verify_playback_token] accepts for a video and a
    user is rejected by it, at the same state, for every other video and
    for every other user; a token that
    [verify_playback_token_without_user] accepts for a video is rejected by
    it for every other video. *)
Theorem token_is_bound_to_its_video_and_user {lib : Collaborators}
    (token video_id user_id : string) (w : World) :
  (∀ payload w1,
     verify_playback_token token video_id user_id w = Returns (Some payload) w1 →
     ∀ other_video other_user,
       other_video ≠ video_id ∨ other_user ≠ user_id →
       verify_playback_token token other_video other_user w = Returns None w1)
  ∧ (∀ payload w1,
       verify_playback_token_without_user token video_id w
       = Returns (Some payload) w1 →
       ∀ other_video,
         other_video ≠ video_id →
         verify_playback_token_without_user token other_video w
         = Returns None w1).
Proof.
  split.
  - intros payload w1 Haccepted other_video other_user Hother.
    rewrite verify_eq in *.
    apply verification_returns in Haccepted as [Haccepted ->].
    symmetry in Haccepted.
    apply spec_verify_accepts in Haccepted as (-> & Htype & Hvideo & Huser).
    specialize (Huser user_id eq_refl). unfold verification, spec_verify.
    rewrite Htype. f_equal.
    destruct Hother as [Hother|Hother].
    + by rewrite (get_ne_str_other _ _ _ _ Hvideo Hother).
    + rewrite (get_ne_str_other _ _ _ _ Huser Hother).
      by destruct (get_ne_str payload "video_id" other_video).
  - intros payload w1 Haccepted other_video Hother.
    rewrite verify_without_user_eq in *.
    apply verification_returns in Haccepted as [Haccepted ->].
    symmetry in Haccepted.
    apply spec_verify_accepts in Haccepted as (-> & Htype & Hvideo & _).
    unfold verification, spec_verify. rewrite Htype. f_equal.
    by rewrite (get_ne_str_other _ _ _ _ Hvideo Hother).
Qed.

Lemma token_is_bound_to_its_video_and_user_witness :
  let lib := Reference.collaborators in
  let w := Reference.boot Reference.configured in
  let token := Reference.token_of Reference.configured in
  outcome_value
    (verify_playback_token token "65f1c0ffee0ddba11ad0be58" Reference.user_id w)
  = Some None
  ∧ outcome_value
      (verify_playback_token token Reference.video_id "65f1c0ffee0ddba11ad0a11d" w)
    = Some None
  ∧ outcome_value
      (verify_playback_token_without_user token "65f1c0ffee0ddba11ad0be58" w)
    = Some None.
Proof.
  intros lib w token.
  destruct (token_is_bound_to_its_video_and_user (lib := lib) token
              Reference.video_id Reference.user_id w) as [Hbound Hopen].
  destruct (verify_playback_token token Reference.video_id Reference.user_id w)
    as [[payload|] w1|e w1] eqn:Hverify; [|by vm_compute in Hverify..].
  destruct (verify_playback_token_without_user token Reference.video_id w)
    as [[payload'|] w2|e w2] eqn:Hverify'; [|by vm_compute in Hverify'..].
  split_and!.
  - rewrite (Hbound payload w1 eq_refl "65f1c0ffee0ddba11ad0be58"
               Reference.user_id); [done|by left].
  - rewrite (Hbound payload w1 eq_refl Reference.video_id
               "65f1c0ffee0ddba11ad0a11d"); [done|by right].
  - by rewrite (Hopen payload' w2 eq_refl "65f1c0ffee0ddba11ad0be58").
Defined.

(** X3.  When PyJWT's [decode] returns, under the signing key, the
    claims its [encode] signed with that key, a token that
    [generate_playback_token] issued is accepted by [verify_playback_token]
    for the same video and user, with the claims it was issued with, at
    every later state of the same environment at which PyJWT finds those
    claims valid; when [JWT_SECRET_KEY] is set,
    [verify_playback_token_without_user] accepts it as well. *)
Theorem issued_token_verifies {lib : Collaborators}
    (video_id user_id token : string) (w w1 w2 : World) :
  let claims :=
    playback_claims video_id user_id (clock (ticks w)) (clock (S (ticks w))) in
  let key := secret_of "video-secret-key" w in
  (∀ signed, jwt_encode claims key = inr signed →
             jws_decode signed key = inr claims) →
  generate_playback_token video_id user_id w = Returns token w1 →
  environ w2 = environ w →
  jwt_validate_claims claims (clock (ticks w2)) = None →
  verify_playback_token token video_id user_id w2
  = Returns (Some claims) (set_ticks (S (ticks w2)) w2)
  ∧ (∀ secret,
       environ w !! "JWT_SECRET_KEY" = Some secret →
       verify_playback_token_without_user token video_id w2
       = Returns (Some claims) (set_ticks (S (ticks w2)) w2)).
Proof.
  intros claims key Hroundtrip. rewrite generate_eq.
  fold (playback_claims video_id user_id (clock (ticks w))
          (clock (S (ticks w)))).
  fold claims. fold key.
  destruct (jwt_encode claims key) as [e|signed] eqn:Hsigned; [done|].
  intros [= <- <-] Henv Hvalid.
  specialize (Hroundtrip signed eq_refl).
  assert (∀ fallback, secret_of fallback w2 = secret_of fallback w) as Hsecret
    by (intros fallback; unfold secret_of; by rewrite Henv).
  assert (jwt_decode signed key (clock (ticks w2)) = inr claims) as Hdecoded
    by (unfold jwt_decode; by rewrite Hroundtrip, Hvalid).
  assert (∀ subject,
            subject = None ∨ subject = Some user_id →
            forget_kind (spec_verify (inr claims) video_id subject) = Some claims)
    as Hpasses.
  { intros subject Hsubject. unfold spec_verify, claims, playback_claims, get_ne_str.
    simpl. rewrite !bool_decide_eq_true_2 by done. simpl.
    destruct Hsubject as [->| ->]; [done|].
    simpl. by rewrite bool_decide_eq_true_2. }
  split.
  - rewrite verify_eq, Hsecret. fold key.
    rewrite Hdecoded, (after_decode_inr _ _ _ _ Hroundtrip).
    unfold verification. rewrite Hpasses; [done|by right].
  - intros secret Hset. rewrite verify_without_user_eq, Hsecret.
    rewrite (secret_of_set "jwt-secret-key" _ _ Hset).
    rewrite <- (secret_of_set "video-secret-key" _ _ Hset). fold key.
    rewrite Hdecoded, (after_decode_inr _ _ _ _ Hroundtrip).
    unfold verification. rewrite Hpasses; [done|by left].
Qed.

(** The token of a fresh process, presented 3590 clock readings later. *)
Lemma issued_token_verifies_witness :
  let lib := Reference.collaborators in
  let w := Reference.boot Reference.configured in
  let token := Reference.token_of Reference.configured in
  let w2 := Reference.later 3590 w in
  outcome_value
    (verify_playback_token token Reference.video_id Reference.user_id w2)
  = Some (Some Reference.claims)
  ∧ outcome_value
      (verify_playback_token_without_user token Reference.video_id w2)
    = Some (Some Reference.claims).
Proof.
  intros lib w token w2.
  destruct (issued_token_verifies (lib := lib) Reference.video_id
              Reference.user_id token w (set_ticks 2 w) w2)
    as [Hbound Hopen]; [|vm_compute; reflexivity..|].
  { intros signed Hsigned. vm_compute in Hsigned. injection Hsigned as <-.
    vm_compute. reflexivity. }
  split.
  - rewrite Hbound. vm_compute. reflexivity.
  - rewrite (Hopen "correct-horse-battery-staple"); vm_compute; reflexivity.
Defined.

Section BodyProperties.
Context {lib : Collaborators}.


End BodyProperties.



Section AnswerProperties.
Context {lib : Collaborators}.

Lemma only_ticks_trans w w1 w2 :
  only_ticks w w1 → only_ticks w1 w2 → only_ticks w w2.
Proof.
  intros (He & Hc & Hy & Hu) (He' & Hc' & Hy' & Hu').
  repeat split; congruence.
Qed.

(** A call invokes the resolver at most once and nothing else. *)
Lemma extract_calls youtube_id w :
  ∃ r w',
    _extract_stream_data youtube_id w = Returns r w'
    ∧ environ w' = environ w
    ∧ upstream_calls w' = upstream_calls w
    ∧ at_most_one_more (ydl_calls w) (ydl_calls w').
Proof.
  destruct (extract_returns youtube_id w) as (r & w' & Hrun & He & Hu).
  exists r, w'. split_and!; [done..|].
  destruct (lookup_returns youtube_id w) as ([cached|] & w1 & Hlookup).
  - rewrite extract_eq, Hlookup in Hrun. injection Hrun as _ <-. left.
    by destruct (lookup_hit_inv _ _ _ _ Hlookup) as (_ & _ & _ & _ & ? & _).
  - pose proof (extract_miss_calls _ _ _ Hlookup) as Hcalls.
    rewrite Hrun in Hcalls. right. by eauto.
Qed.

End AnswerProperties.

(** X5.  The proxy endpoint answers every request: it returns a response
    whose status is one of 200, 206, 400, 404, 500 and 504, leaves the
    environment as it is, invokes the resolver at most once and fetches from
    upstream at most once; a request answered 400 or 404 caused no call at
    all and left the cache untouched; and 206 is only answered to a request
    with a non-empty [Range] header. *)
Theorem proxy_answers_every_request {lib : Collaborators}
    (video_id : string) (request : Request) (w : World) :
  ∃ resp w',
    proxy_video video_id request w = Returns resp w'
    ∧ status resp ∈ [200; 206; 400; 404; 500; 504]
    ∧ environ w' = environ w
    ∧ at_most_one_more (ydl_calls w) (ydl_calls w')
    ∧ at_most_one_more (upstream_calls w) (upstream_calls w')
    ∧ (status resp = 400 ∨ status resp = 404 → only_ticks w w')
    ∧ (status resp = 206 → truthy_str (req_range request) = true).
Proof.
  rewrite proxy_video_eq.
  destruct (truthy_str (req_token request)); simpl.
  2: { eexists _, _. split; [done|]. simpl.
       split_and!; [set_solver|done|by left|by left| |done].
       intros _. apply only_ticks_refl. }
  rewrite verify_without_user_eq. set (w1 := after_decode _ _ w).
  assert (only_ticks w w1) as Hw1 by apply only_ticks_after_decode.
  destruct (verification_outcome
              (jwt_decode (default "" (req_token request))
                 (secret_of "jwt-secret-key" w) (clock (ticks w)))
              video_id None w1) as [[token_data ->]| ->].
  2: { eexists _, _. split; [done|]. unfold proxy_failure. simpl.
       destruct Hw1 as (He & Hc & Hy & Hu).
       split_and!; [set_solver|done|by left|by left|by intros [|]|done]. }
  destruct (truthy_dict token_data); simpl.
  2: { eexists _, _. split; [done|]. simpl.
       destruct Hw1 as (He & Hc & Hy & Hu).
       split_and!; [set_solver|done|by left|by left|by repeat split|done]. }
  destruct (find_by_id_returns video_id w1) as (found & w2 & -> & Hw2).
  pose proof (only_ticks_trans _ _ _ Hw1 Hw2) as Hw.
  destruct Hw as (He & Hc & Hy & Hu).
  destruct found as [video|].
  2: { eexists _, _. split; [done|]. simpl.
       split_and!; [set_solver|done|by left|by left| |done].
       intros _. by repeat split. }
  destruct (is_active video); simpl.
  2: { eexists _, _. split; [done|]. simpl.
       split_and!; [set_solver|done|by left|by left| |done].
       intros _. by repeat split. }
  destruct (extract_calls (youtube_id video) w2)
    as ([stream_url stream_headers] & w3 & -> & He3 & Hu3 & Hy3).
  rewrite Hy in Hy3. rewrite He in He3. rewrite Hu in Hu3.
  destruct (truthy_str stream_url); simpl.
  2: { eexists _, _. split; [done|]. simpl.
       split_and!; [set_solver|done|done|by left| |done]. by intros [|]. }
  unfold proxy_fetch.
  destruct (requests_get _ _ _) as [e|upstream].
  - eexists _, _. split; [done|]. unfold proxy_failure. simpl.
    split_and!; [|done|done|right; rewrite Hu3; by eauto| |].
    + destruct (isinstance_Timeout e); set_solver.
    + by destruct (isinstance_Timeout e); intros [|].
    + by destruct (isinstance_Timeout e).
  - eexists _, _. split; [done|]. unfold relay. simpl.
    split_and!; [|done|done|right; rewrite Hu3; by eauto| |].
    + destruct (_ && _); set_solver.
    + by destruct (_ && _); intros [|].
    + destruct (truthy_str (req_range request)); [done|]. simpl. done.
Qed.


(** X7.  With [JWT_SECRET_KEY] set, the link the stream endpoint hands
    out works: when it answers 200, the body names the proxy path of the
    video with the presented token, and a request with that token, at the
    same state, gets the player page of the video from the player endpoint
    and passes the token and video checks of the proxy endpoint, which goes
    on to obtain the locator of the video's [youtube_id]. *)
Theorem stream_link_opens_player_and_proxy {lib : Collaborators}
    (video_id secret : string) (request : Request) (w w' : World)
    (resp : Response) :
  environ w !! "JWT_SECRET_KEY" = Some secret →
  stream_video video_id request w = Returns resp w' →
  status resp = 200 →
  ∃ token video json,
    req_token request = Some token
    ∧ body resp = BodyJson json
    ∧ dict_get json "stream_url"
      = Some (JStr ("/video/" +:+ video_id +:+ "/proxy?token=" +:+ token))
    ∧ find_by_id video_id (set_ticks (S (ticks w)) w) = Returns (Some video) w'
    ∧ is_active video = true
    ∧ ∀ follow_up,
        req_token follow_up = Some token →
        video_player video_id follow_up w = Returns (player_page video) w'
        ∧ proxy_video video_id follow_up w
          = match _extract_stream_data (youtube_id video) w' with
            | Returns (stream_url, stream_headers) w3 =>
                if negb (truthy_str stream_url)
                then Returns (text_response "Failed to get video stream" 500) w3
                else proxy_fetch follow_up (default "" stream_url)
                       stream_headers w3
            | Raises e w3 => Returns (proxy_failure e) w3
            end.
Proof.
  intros Hset. rewrite stream_video_eq.
  destruct (req_auth request) as [user_id| | |]; [|by intros [= <- <-]..].
  destruct (truthy_str (req_token request)) eqn:Htoken; simpl;
    [|by intros [= <- <-]].
  destruct (req_token request) as [token|] eqn:Hpresented; [|done].
  rewrite verify_eq, (secret_of_set "video-secret-key" _ _ Hset).
  change (default "" (Some token)) with token.
  destruct (jwt_decode token _ _) as [e|decoded] eqn:Hdecoded;
    [unfold verification; destruct e; simpl; by intros [= <- <-]|].
  destruct (jwt_decode_inr _ _ _ _ Hdecoded) as [Hjws _].
  rewrite (after_decode_inr _ _ _ _ Hjws). unfold verification.
  destruct (forget_kind _) as [payload|] eqn:Hverified;
    [|by intros [= <- <-]].
  pose proof (verified_truthy _ _ _ _ Hverified) as Htruthy.
  rewrite Htruthy. cbv beta iota delta [negb].
  destruct (find_by_id video_id _) as [[video|] w2|e w2] eqn:Hfound;
    [|by intros [= <- <-]..].
  destruct (is_active video) eqn:Hactive; simpl; [|by intros [= <- <-]].
  intros [= <- <-] _.
  exists token, video. eexists. split_and!; [done|done|done|done|done|].
  intros follow_up Hsame.
  assert (verify_playback_token_without_user token video_id w
          = Returns (Some payload) (set_ticks (S (ticks w)) w)) as Hopen.
  { rewrite verify_without_user_eq, (secret_of_set "jwt-secret-key" _ _ Hset).
    rewrite Hdecoded, (after_decode_inr _ _ _ _ Hjws).
    unfold verification. f_equal.
    revert Hverified. unfold spec_verify.
    destruct (get_ne_str decoded "type" "playback"); [done|].
    destruct (get_ne_str decoded "video_id" video_id); [done|].
    by destruct (get_ne_str decoded "user_id" user_id). }
  split.
  - rewrite video_player_eq, Hsame. simpl.
    assert (negb (bool_decide (token = "")) = true) as -> by done.
    simpl. rewrite Hopen.
    cbv beta iota delta [negb]. rewrite Htruthy, Hfound. simpl.
    by rewrite Hactive.
  - rewrite proxy_video_eq, Hsame. simpl.
    assert (negb (bool_decide (token = "")) = true) as -> by done.
    simpl. rewrite Hopen.
    cbv beta iota delta [negb]. rewrite Htruthy, Hfound. simpl.
    by rewrite Hactive.
Qed.

(** The link of a fresh configured process, followed without the access
    token. *)
Lemma stream_link_opens_player_and_proxy_witness :
  let lib := Reference.collaborators in
  let w := Reference.boot Reference.configured in
  let token := Reference.token_of Reference.configured in
  let follow_up :=
    {| req_token := Some token; req_range := None; req_auth := AuthMissing |} in
  status <$> outcome_value (video_player Reference.video_id follow_up w) = Some 200
  ∧ status <$> outcome_value (proxy_video Reference.video_id follow_up w) = Some 200.
Proof.
  intros lib w token follow_up.
  set (request := Reference.request (Some token) None).
  destruct (stream_video Reference.video_id request w) as [resp w'|e w']
    eqn:Hrun; [|by vm_compute in Hrun].
  destruct (stream_link_opens_player_and_proxy (lib := lib) Reference.video_id
              "correct-horse-battery-staple" request w w' resp)
    as (token' & video & json & Htoken & _ & _ & _ & _ & Hfollow).
  - vm_compute. reflexivity.
  - exact Hrun.
  - transitivity
      (status (default resp
                 (outcome_value (stream_video Reference.video_id request w))));
      [by rewrite Hrun|vm_compute; reflexivity].
  - injection Htoken as <-.
    destruct (Hfollow follow_up eq_refl) as [Hplayer Hproxy].
    split.
    + rewrite Hplayer. reflexivity.
    + clear Hproxy Hplayer Hfollow. vm_compute. reflexivity.
Defined.

Section LocatorProperties.
Context {lib : Collaborators}.

Lemma truthy_str_default (s : option string) :
  truthy_str s = true → default "" s ≠ "".
Proof.
  destruct s as [s|]; [|done]. simpl.
  by intros ?%negb_true_iff%bool_decide_eq_false.
Qed.

(** What is picked from [info] is the URL of a truthy ['url'] value. *)
Lemma choose_stream_url info stream_url stream_headers :
  choose_stream info = Some (stream_url, stream_headers) → stream_url ≠ "".
Proof.
  unfold choose_stream.
  destruct (truthy_str (info_url info)) eqn:Hurl.
  - intros [= <- _]. by apply truthy_str_default.
  - destruct (find usable_mp4 _) as [fmt|] eqn:Hmp4.
    + intros [= <- _]. apply find_some in Hmp4 as [_ Husable].
      apply truthy_str_default. unfold usable_mp4 in Husable.
      by apply andb_true_iff in Husable as [? _].
    + destruct (find usable _) as [fmt|] eqn:Hany; [|done].
      intros [= <- _]. apply find_some in Hany as [_ Husable].
      by apply truthy_str_default.
Qed.

Lemma urls_nonempty_delete cache youtube_id :
  urls_nonempty cache → urls_nonempty (delete youtube_id cache).
Proof.
  intros Hcache k cached Hk. apply lookup_delete_Some in Hk as [_ Hk].
  by apply (Hcache k).
Qed.

Lemma urls_nonempty_insert cache youtube_id cached :
  urls_nonempty cache → url cached ≠ "" →
  urls_nonempty (<[youtube_id := cached]> cache).
Proof.
  intros Hcache Hurl k entry Hk.
  apply lookup_insert_Some in Hk as [[_ <-]|[_ Hk]]; [done|].
  by apply (Hcache k).
Qed.

Lemma extract_keeps_urls_nonempty youtube_id w :
  urls_nonempty (stream_cache w) →
  ∃ r w',
    _extract_stream_data youtube_id w = Returns r w'
    ∧ urls_nonempty (stream_cache w')
    ∧ (r = (None, None)
       ∨ ∃ cached,
           stream_cache w' !! youtube_id = Some cached
           ∧ r = (Some (url cached), Some (headers cached))
           ∧ url cached ≠ "").
Proof.
  intros Hcache.
  destruct (lookup_returns youtube_id w) as ([cached|] & w1 & Hlookup).
  - rewrite extract_eq, Hlookup.
    destruct (lookup_hit_inv _ _ _ _ Hlookup)
      as (Hentry & _ & _ & Hsame & _ & _).
    eexists _, _. split; [done|]. rewrite Hsame. split; [done|].
    right. exists cached. split_and!; [done..|]. by apply (Hcache youtube_id).
  - rewrite (extract_miss _ _ _ Hlookup). simpl.
    destruct (lookup_miss_inv _ _ _ Hlookup) as (Hleft & _).
    assert (urls_nonempty (stream_cache w1)) as Hcache1
      by (rewrite Hleft; by apply urls_nonempty_delete).
    destruct (ydl_extract_info _ _) as [e|[info|]];
      [eexists _, _; split; [done|]; split; [done|by left]|
      |eexists _, _; split; [done|]; split; [done|by left]].
    destruct (choose_stream info) as [[stream_url stream_headers]|] eqn:Hchosen;
      [|eexists _, _; split; [done|]; split; [done|by left]].
    apply choose_stream_url in Hchosen.
    eexists _, _. split; [done|]. simpl. split.
    + by apply urls_nonempty_insert.
    + right. eexists. split; [apply lookup_insert_eq|]. by split.
Qed.

End LocatorProperties.

(** X8.  No locator with an empty URL ever enters the cache or leaves
    [_extract_stream_data]: from a cache whose entries all have a non-empty
    URL, a call returns either the failure value [(None, None)] or a URL
    that is not empty together with headers, both those of the entry the
    cache then holds for the identifier; and the call, like a whole proxy
    request, leaves a cache whose entries all have a non-empty URL. *)
Theorem cached_locators_are_never_empty {lib : Collaborators} (w : World) :
  urls_nonempty (stream_cache w) →
  (∀ youtube_id,
     ∃ r w',
       _extract_stream_data youtube_id w = Returns r w'
       ∧ urls_nonempty (stream_cache w')
       ∧ (r = (None, None)
          ∨ ∃ cached,
              stream_cache w' !! youtube_id = Some cached
              ∧ r = (Some (url cached), Some (headers cached))
              ∧ url cached ≠ ""))
  ∧ (∀ video_id request,
       urls_nonempty
         (stream_cache (outcome_world (proxy_video video_id request w)))).
Proof.
  intros Hcache. split; [intros; by apply extract_keeps_urls_nonempty|].
  intros video_id request. rewrite proxy_video_eq.
  destruct (truthy_str (req_token request)); simpl; [|done].
  rewrite verify_without_user_eq. set (w1 := after_decode _ _ w).
  destruct (only_ticks_after_decode (default "" (req_token request))
              (secret_of "jwt-secret-key" w) w) as (_ & Hcache1 & _).
  fold w1 in Hcache1.
  destruct (verification_outcome
              (jwt_decode (default "" (req_token request))
                 (secret_of "jwt-secret-key" w) (clock (ticks w)))
              video_id None w1) as [[token_data ->]| ->];
    [|simpl; by rewrite Hcache1].
  destruct (truthy_dict token_data); simpl; [|by rewrite Hcache1].
  destruct (find_by_id_returns video_id w1) as (found & w2 & -> & Hw2).
  destruct Hw2 as (_ & Hcache2 & _).
  assert (urls_nonempty (stream_cache w2)) as Hkept
    by (by rewrite Hcache2, Hcache1).
  destruct found as [video|]; [|done].
  destruct (is_active video); simpl; [|done].
  destruct (extract_keeps_urls_nonempty (youtube_id video) w2 Hkept)
    as ([stream_url stream_headers] & w3 & -> & Hkept3 & _).
  destruct (truthy_str stream_url); simpl; [|done].
  unfold proxy_fetch. by destruct (requests_get _ _ _).
Qed.

(** A fresh process has an empty cache; its first resolution stores and
    returns a locator with a URL. *)
Lemma cached_locators_are_never_empty_witness :
  let lib := Reference.collaborators in
  let w := Reference.boot Reference.configured in
  ∃ r w',
    _extract_stream_data Reference.youtube_id w = Returns r w'
    ∧ urls_nonempty (stream_cache w')
    ∧ fst r = Some "https://rr3.googlevideo.com/videoplayback?n=0".
Proof.
  intros lib w.
  assert (urls_nonempty (stream_cache w)) as Hempty by (by intros k cached).
  destruct (cached_locators_are_never_empty (lib := lib) w Hempty)
    as [Hcall _].
  destruct (Hcall Reference.youtube_id) as (r & w' & Hrun & Hkept & _).
  exists r, w'. split_and!; [done..|].
  transitivity
    (fst (default r
            (outcome_value (_extract_stream_data Reference.youtube_id w))));
    [by rewrite Hrun|vm_compute; reflexivity].
Defined.

(** X9.  [Video.find_by_id] returns a video exactly for an identifier
    that [ObjectId] accepts and for which the database returns a document
    with the keys [title], [description], [youtube_id], [thumbnail_url] and
    [_id]; the video carries those five values, is active unless the
    document says otherwise, and takes its creation time from the document,
    or from the clock when the document has none.  In every other case,
    a database that raises included, the result is [None] and the state is
    untouched. *)
Theorem find_by_id_needs_a_complete_document {lib : Collaborators}
    (video_id : string) (w : World) :
  (∀ video w',
     find_by_id video_id w = Returns (Some video) w' ↔
     ∃ oid data,
       bson_ObjectId video_id = inr oid
       ∧ videos_find_one oid = inr (Some data)
       ∧ doc_title data = Some (title video)
       ∧ doc_description data = Some (description video)
       ∧ doc_youtube_id data = Some (youtube_id video)
       ∧ doc_thumbnail_url data = Some (thumbnail_url video)
       ∧ doc__id data = Some (_id video)
       ∧ is_active video = default true (doc_is_active data)
       ∧ match doc_created_at data with
         | Some t => created_at video = t ∧ w' = w
         | None => created_at video = clock (ticks w)
                   ∧ w' = set_ticks (S (ticks w)) w
         end)
  ∧ (∀ w', find_by_id video_id w = Returns None w' → w' = w).
Proof.
  split.
  - intros video w'. split.
    + unfold find_by_id, Video_init. py_run.
      destruct (bson_ObjectId video_id) as [e|oid]; [done|].
      destruct (videos_find_one oid) as [e|[data|]] eqn:Hdata; [done| |done].
      destruct (truthy_doc data); [|done].
      destruct (doc_title data) as [t|] eqn:Ht; [|done].
      destruct (doc_description data) as [d|] eqn:Hd; [|done].
      destruct (doc_youtube_id data) as [y|] eqn:Hy; [|done].
      destruct (doc_thumbnail_url data) as [u|] eqn:Hu; [|done].
      destruct (doc__id data) as [i|] eqn:Hi; [|done].
      destruct (doc_created_at data) as [c|] eqn:Hc.
      * intros [= <- <-]. exists oid, data. rewrite Ht, Hd, Hy, Hu, Hi, Hc.
        simpl. by split_and!.
      * intros [= <- <-]. exists oid, data. rewrite Ht, Hd, Hy, Hu, Hi, Hc.
        simpl. by split_and!.
    + intros (oid & data & Hoid & Hdata & Ht & Hd & Hy & Hu & Hi & Ha & Hc).
      unfold find_by_id, Video_init, truthy_doc. py_run.
      rewrite Hoid, Hdata, Ht, Hd, Hy, Hu, Hi. simpl.
      destruct video as [i t d y u a c]. simpl in *. subst a.
      destruct (doc_created_at data) as [c'|]; destruct Hc as [-> ->]; done.
  - intros w'. unfold find_by_id, Video_init. py_run.
    destruct (bson_ObjectId video_id) as [e|oid]; [by intros [= <-]|].
    destruct (videos_find_one oid) as [e|[data|]];
      [by intros [= <-]| |by intros [= <-]].
    destruct (truthy_doc data); [|by intros [= <-]].
    destruct (doc_title data) as [t|]; [|by intros [= <-]].
    destruct (doc_description data) as [d|]; [|by intros [= <-]].
    destruct (doc_youtube_id data) as [y|]; [|by intros [= <-]].
    destruct (doc_thumbnail_url data) as [u|]; [|by intros [= <-]].
    destruct (doc__id data) as [i|]; [|by intros [= <-]].
    by destruct (doc_created_at data).
Qed.

Section LockProperties.
Context {lib : Collaborators}.

Lemma sum_list_insert {A} (f : A → nat) (l : list A) i x x' :
  l !! i = Some x →
  (sum_list (map f (<[i := x']> l)) + f x = sum_list (map f l) + f x')%nat.
Proof.
  revert i. induction l as [|x0 l IH]; intros [|i]; simpl; try done.
  - intros [= ->]. lia.
  - intros Hi. specialize (IH i Hi). lia.
Qed.

Lemma sum_list_lookup_le {A} (f : A → nat) (l : list A) i x :
  l !! i = Some x → (f x ≤ sum_list (map f l))%nat.
Proof.
  revert i. induction l as [|x0 l IH]; intros [|i]; simpl; try done.
  - intros [= ->]. lia.
  - intros Hi. specialize (IH i Hi). lia.
Qed.

Lemma sum_list_positive {A} (f : A → nat) (l : list A) :
  (0 < sum_list (map f l))%nat → ∃ i x, l !! i = Some x ∧ (0 < f x)%nat.
Proof.
  induction l as [|x0 l IH]; simpl; [lia|]. intros Hsum.
  destruct (decide (0 < f x0)%nat) as [Hx0|Hx0].
  - by exists 0%nat, x0.
  - destruct IH as (i & x & Hi & Hx); [lia|]. by exists (S i), x.
Qed.

Lemma thread_step_lock t locked w t' locked' w' :
  thread_step t locked w = Some (t', locked', w') →
  (occupancy t = 1%nat → locked = true) →
  ((if locked then 1 else 0) + occupancy t'
   = (if locked' then 1 else 0) + occupancy t)%nat.
Proof.
  unfold thread_step, occupancy, inside.
  destruct (thr_pc t) as [| | |url headers|url headers|result] eqn:Hpc.
  - destruct locked; [done|]. by intros [= <- <- <-].
  - intros Hstep ->; [|done]. revert Hstep.
    by destruct (_get_cached_stream_data _ w) as [[cached|] w1|e w1];
      intros [= <- <- <-].
  - intros Hstep _. revert Hstep.
    by destruct (resolve _ w) as [[[url headers]|] w1|e w1];
      intros [= <- <- <-].
  - destruct locked; [done|]. by intros [= <- <- <-].
  - intros Hstep ->; [|done]. revert Hstep. rewrite store_eq.
    by intros [= <- <- <-].
  - done.
Qed.

Lemma step_lock_consistent i s s' :
  step i s = Some s' → lock_consistent s → lock_consistent s'.
Proof.
  unfold step, lock_consistent, holders.
  destruct (sys_threads s !! i) as [t|] eqn:Hi; [|done].
  destruct (thread_step t _ _) as [[[t' locked'] w']|] eqn:Hstep; [|done].
  intros [= <-] Hinv. simpl.
  pose proof (sum_list_insert occupancy _ _ _ t' Hi) as Hsum.
  pose proof (sum_list_lookup_le occupancy _ _ _ Hi) as Hle.
  assert (occupancy t = 1%nat → sys_locked s = true) as Hheld.
  { intros Ht. destruct (sys_locked s); [done|]. lia. }
  pose proof (thread_step_lock _ _ _ _ _ _ Hstep Hheld) as Hlock.
  destruct (sys_locked s), locked'; lia.
Qed.

Lemma run_lock_consistent schedule s s' :
  run schedule s = Some s' → lock_consistent s → lock_consistent s'.
Proof.
  revert s. induction schedule as [|i schedule IH]; intros s; simpl.
  - by intros [= <-].
  - destruct (step i s) as [s1|] eqn:Hstep; [|done].
    intros Hrun Hinv. apply (IH s1 Hrun). by apply (step_lock_consistent i s).
Qed.

Lemma start_lock_consistent youtube_ids w :
  lock_consistent (start youtube_ids w).
Proof.
  unfold lock_consistent, holders. simpl.
  by induction youtube_ids as [|y ys IH].
Qed.

(** A thread that does not wait for a held lock and has not finished can
    take its step. *)
Lemma unfinished_can_step s i t :
  sys_threads s !! i = Some t →
  finished t = false →
  sys_locked s = false ∨ inside t = true →
  is_Some (step i s).
Proof.
  intros Hi Hgoing Hfree. unfold step, thread_step. rewrite Hi.
  unfold finished, inside in *.
  destruct (thr_pc t) as [| | |url headers|url headers|result]; [| | | | |done].
  - destruct Hfree as [->|?]; [by eauto|done].
  - destruct (_get_cached_stream_data _ _) as [[cached|] w1|e w1]; by eauto.
  - destruct (resolve _ _) as [[[url headers]|] w1|e w1]; by eauto.
  - destruct Hfree as [->|?]; [by eauto|done].
  - rewrite store_eq. by eauto.
Qed.

Lemma thread_step_descends t locked w t' locked' w' :
  thread_step t locked w = Some (t', locked', w') →
  (steps_left t' < steps_left t)%nat.
Proof.
  unfold thread_step, steps_left.
  destruct (thr_pc t) as [| | |url headers|url headers|result].
  - destruct locked; [done|]. intros [= <- <- <-]. simpl. lia.
  - destruct (_get_cached_stream_data _ w) as [[cached|] w1|e w1];
      intros [= <- <- <-]; simpl; lia.
  - destruct (resolve _ w) as [[[url headers]|] w1|e w1];
      intros [= <- <- <-]; simpl; lia.
  - destruct locked; [done|]. intros [= <- <- <-]. simpl. lia.
  - rewrite store_eq. intros [= <- <- <-]. simpl. lia.
  - done.
Qed.

Lemma step_descends i s s' :
  step i s = Some s' →
  (total_steps_left (sys_threads s') < total_steps_left (sys_threads s))%nat.
Proof.
  unfold step, total_steps_left.
  destruct (sys_threads s !! i) as [t|] eqn:Hi; [|done].
  destruct (thread_step t _ _) as [[[t' locked'] w']|] eqn:Hstep; [|done].
  intros [= <-]. simpl.
  pose proof (sum_list_insert steps_left _ _ _ t' Hi).
  pose proof (thread_step_descends _ _ _ _ _ _ Hstep). lia.
Qed.

Lemma total_steps_left_start youtube_ids w :
  total_steps_left (sys_threads (start youtube_ids w))
  = (5 * length youtube_ids)%nat.
Proof.
  unfold total_steps_left. simpl.
  induction youtube_ids as [|y ys IH]; simpl; [done|]. rewrite IH. lia.
Qed.

End LockProperties.

(** X10.  [_cache_lock] excludes: in every state that concurrent calls
    of [_extract_stream_data] reach, whatever the schedule, at most one
    thread is inside a [with _cache_lock:] block, and the lock is held
    exactly when one is. *)
Theorem cache_lock_excludes {lib : Collaborators}
    (youtube_ids : list string) (w : World) (schedule : list nat) (s : System) :
  run schedule (start youtube_ids w) = Some s →
  holders (sys_threads s) = if sys_locked s then 1%nat else 0%nat.
Proof.
  intros Hrun.
  by apply (run_lock_consistent _ _ _ Hrun), start_lock_consistent.
Qed.

(** The second call takes the lock after the first released it. *)
Lemma cache_lock_excludes_witness :
  let lib := Reference.collaborators in
  let w := Reference.boot Reference.configured in
  let s0 := start [Reference.youtube_id; Reference.youtube_id] w in
  ∃ s,
    run [0; 0; 1]%nat s0 = Some s
    ∧ sys_locked s = true
    ∧ holders (sys_threads s) = 1%nat.
Proof.
  intros lib w s0.
  destruct (run [0; 0; 1]%nat s0) as [s|] eqn:Hrun;
    [|vm_compute in Hrun; discriminate Hrun].
  exists s. split; [done|].
  assert (sys_locked s = true) as Hlocked.
  { transitivity (default false (sys_locked <$> run [0; 0; 1]%nat s0));
      [by rewrite Hrun|vm_compute; reflexivity]. }
  split; [done|].
  rewrite (cache_lock_excludes (lib := lib)
             [Reference.youtube_id; Reference.youtube_id] w [0; 0; 1]%nat s Hrun).
  by rewrite Hlocked.
Defined.

(** X11.  Concurrent calls of [_extract_stream_data] never deadlock: in
    every state they reach, either every call has finished or some thread
    can take a step; the thread that holds the lock always can, and so can
    every unfinished thread when the lock is free. *)
Theorem concurrent_calls_never_deadlock {lib : Collaborators}
    (youtube_ids : list string) (w : World) (schedule : list nat) (s : System) :
  run schedule (start youtube_ids w) = Some s →
  (Forall (λ t, finished t = true) (sys_threads s)
   ∨ ∃ i, is_Some (step i s))
  ∧ (∀ i t, sys_threads s !! i = Some t → finished t = false →
            sys_locked s = false ∨ inside t = true → is_Some (step i s)).
Proof.
  intros Hrun.
  pose proof (run_lock_consistent _ _ _ Hrun (start_lock_consistent _ _)) as Hinv.
  split; [|intros i t; apply unfinished_can_step].
  destruct (sys_locked s) eqn:Hlocked.
  - right. unfold lock_consistent in Hinv. rewrite Hlocked in Hinv.
    destruct (sum_list_positive occupancy (sys_threads s)) as (i & t & Hi & Ht);
      [unfold holders in Hinv; lia|].
    exists i. apply (unfinished_can_step s i t Hi).
    + unfold occupancy, inside, finished in *.
      destruct (thr_pc t); simpl in *; done || lia.
    + right. unfold occupancy in Ht. destruct (inside t); [done|lia].
  - destruct (decide (Forall (λ t, finished t = true) (sys_threads s)))
      as [Hall|Hsome]; [by left|right].
    apply not_Forall_Exists in Hsome; [|apply _].
    apply Exists_exists in Hsome as (t & [i Hi]%list_elem_of_lookup_1 & Hgoing).
    exists i. apply (unfinished_can_step s i t Hi); [|by left].
    simpl in Hgoing. by destruct (finished t).
Qed.

(** While the second call holds the lock, the first, which waits for
    nothing, can go on. *)
Lemma concurrent_calls_never_deadlock_witness :
  let lib := Reference.collaborators in
  let w := Reference.boot Reference.configured in
  let s0 := start [Reference.youtube_id; Reference.youtube_id] w in
  ∃ s i, run [0; 0; 1]%nat s0 = Some s ∧ is_Some (step i s).
Proof.
  intros lib w s0.
  destruct (run [0; 0; 1]%nat s0) as [s|] eqn:Hrun;
    [|vm_compute in Hrun; discriminate Hrun].
  destruct (concurrent_calls_never_deadlock (lib := lib)
              [Reference.youtube_id; Reference.youtube_id] w [0; 0; 1]%nat s Hrun)
    as [[Hdone|[i Hstep]] _].
  - assert (forallb finished (sys_threads s) = false) as Hgoing.
    { transitivity
        (default true
           (forallb finished ∘ sys_threads <$> run [0; 0; 1]%nat s0));
        [by rewrite Hrun|vm_compute; reflexivity]. }
    assert (forallb finished (sys_threads s) = true) as Hall; [|congruence].
    apply forallb_forall. intros t Ht%list_elem_of_In.
    by apply (proj1 (Forall_forall _ _) Hdone).
  - by exists s, i.
Defined.

(** X12.  A call of [_extract_stream_data] takes at most five steps: an
    execution of concurrent calls that made [n] steps has at most
    [5 * calls - n] steps left, so no schedule is longer than five steps per
    call, and the calls cannot run forever. *)
Theorem concurrent_calls_finish {lib : Collaborators}
    (youtube_ids : list string) (w : World) (schedule : list nat) (s : System) :
  run schedule (start youtube_ids w) = Some s →
  (length schedule + total_steps_left (sys_threads s)
   ≤ 5 * length youtube_ids)%nat.
Proof.
  rewrite <- (total_steps_left_start youtube_ids w).
  generalize (start youtube_ids w). intros s0. revert s0.
  induction schedule as [|i schedule IH]; intros s0; simpl.
  - intros [= <-]. lia.
  - destruct (step i s0) as [s1|] eqn:Hstep; [|done].
    intros Hrun. pose proof (step_descends _ _ _ Hstep).
    pose proof (IH _ Hrun). lia.
Qed.

(** Two calls that both resolve take all their ten steps. *)
Lemma concurrent_calls_finish_witness :
  let lib := Reference.collaborators in
  let w := Reference.boot Reference.configured in
  let s0 := start [Reference.youtube_id; Reference.youtube_id] w in
  ∃ s,
    run [0; 0; 1; 1; 0; 1; 0; 0; 1; 1]%nat s0 = Some s
    ∧ total_steps_left (sys_threads s) = 0%nat.
Proof.
  intros lib w s0.
  destruct (run [0; 0; 1; 1; 0; 1; 0; 0; 1; 1]%nat s0) as [s|] eqn:Hrun;
    [|vm_compute in Hrun; discriminate Hrun].
  exists s. split; [done|].
  pose proof (concurrent_calls_finish (lib := lib)
                [Reference.youtube_id; Reference.youtube_id] w
                [0; 0; 1; 1; 0; 1; 0; 0; 1; 1]%nat s Hrun) as Hbound.
  simpl in Hbound. lia.
Defined.

Section RegexProperties.

Local Arguments append !_ _ / : simpl nomatch.

Lemma append_empty_r (s : string) : s +:+ "" = s.
Proof. induction s as [|c s IH]; simpl; [done|]. by rewrite IH. Qed.

Lemma append_assoc (s t u : string) : (s +:+ t) +:+ u = s +:+ (t +:+ u).
Proof. induction s as [|c s IH]; simpl; [done|]. by rewrite IH. Qed.

Lemma length_append (s t : string) :
  String.length (s +:+ t) = (String.length s + String.length t)%nat.
Proof. induction s as [|c s IH]; simpl; [done|]. by rewrite IH. Qed.

Lemma all_in_append set (s t : string) :
  all_in set (s +:+ t) = all_in set s && all_in set t.
Proof.
  induction s as [|c s IH]; simpl; [done|]. rewrite IH. by rewrite andb_assoc.
Qed.

(** What a quantified set takes: a prefix of the set's characters long
    enough for the quantifier, and not longer than it allows. *)
Lemma repeat_chars_spec set lo hi k n at_start s :
  Re.repeat_chars set lo hi k n at_start s = true ↔
  ∃ pre post,
    s = pre +:+ post
    ∧ all_in set pre = true
    ∧ (lo ≤ n + String.length pre)%nat
    ∧ (pre = "" ∨ match hi with
                  | Some h => (n + String.length pre ≤ h)%nat
                  | None => True
                  end)
    ∧ k (at_start && bool_decide (pre = "")) post = true.
Proof.
  revert n at_start. induction s as [|c s IH]; intros n at_start; simpl.
  - rewrite orb_false_r. split.
    + destruct (Nat.leb_spec lo n) as [Hlo|Hlo]; [|done]. intros Hk.
      exists "", "". simpl. rewrite andb_true_r.
      split_and!; [done|done|lia|by left|done].
    + intros (pre & post & Hs & _ & Hlo & _ & Hk).
      destruct pre; [|done]. simpl in *. subst post.
      rewrite andb_true_r in Hk.
      destruct (Nat.leb_spec lo n); [done|lia].
  - split.
    + intros [Hhere|Hmore]%orb_true_iff.
      * destruct (Nat.leb_spec lo n) as [Hlo|Hlo]; [|done].
        exists "", (String c s). simpl. rewrite andb_true_r.
        split_and!; [done|done|lia|by left|done].
      * apply andb_true_iff in Hmore as [[Hc Hhi]%andb_true_iff Hrest].
        apply IH in Hrest as (pre & post & -> & Hpre & Hlo & Hbound & Hk).
        exists (String c pre), post. simpl. rewrite Hc, Hpre.
        rewrite andb_false_r. simpl in Hk.
        split_and!; [done|done|lia| |done].
        right. unfold Re.within in Hhi. destruct hi as [h|]; [|done].
        apply Nat.ltb_lt in Hhi.
        destruct Hbound as [->|Hbound]; simpl; lia.
    + intros (pre & post & Hs & Hpre & Hlo & Hbound & Hk).
      destruct pre as [|c' pre]; simpl in *.
      * subst post. rewrite andb_true_r in Hk. apply orb_true_iff. left.
        destruct (Nat.leb_spec lo n); [done|lia].
      * injection Hs as <- ->. apply orb_true_iff. right.
        apply andb_true_iff in Hpre as [Hc Hpre]. rewrite Hc. simpl.
        destruct Hbound as [?|Hbound]; [done|].
        assert (Re.within hi n = true) as ->.
        { unfold Re.within. destruct hi as [h|]; [|done].
          apply Nat.ltb_lt. lia. }
        simpl. apply IH. exists pre, post. rewrite andb_false_r in Hk.
        split_and!; [done|done|lia| |done].
        destruct hi as [h|]; [|by right].
        destruct pre; [by left|right]. simpl in *. lia.
Qed.

(** A literal character: the set of one character, once. *)
Lemma literal_spec c k at_start s :
  Re.repeat_chars [Re.One c] 1 (Some 1%nat) k 0 at_start s = true ↔
  ∃ post, s = String c post ∧ k false post = true.
Proof.
  rewrite repeat_chars_spec. split.
  - intros (pre & post & -> & Hpre & Hlo & Hbound & Hk).
    destruct pre as [|c' pre]; simpl in *; [lia|].
    destruct Hbound as [?|Hbound]; [done|].
    destruct pre; simpl in *; [|lia].
    rewrite andb_false_r in Hk. exists post. split; [|done].
    unfold Re.in_set in Hpre. simpl in Hpre.
    rewrite orb_false_r, andb_true_r in Hpre.
    by apply bool_decide_eq_true in Hpre as ->.
  - intros (post & -> & Hk). exists (String c ""), post. simpl.
    rewrite andb_false_r. unfold Re.in_set. simpl.
    rewrite bool_decide_eq_true_2 by done.
    split_and!; [done|done|lia|right; lia|done].
Qed.

Lemma at_end_spec s : Re.at_end s = true ↔ s = "" ∨ s = String "010" "".
Proof.
  destruct s as [|c [|c' s]]; simpl.
  - split; [by left|done].
  - rewrite bool_decide_eq_true. split; [intros ->; by right|].
    by intros [?|[= ->]].
  - split; [done|]. by intros [?|?].
Qed.

Lemma all_in_occurrences set c s :
  Re.in_set set c = false → all_in set s = true → occurrences c s = 0%nat.
Proof.
  intros Hout. induction s as [|c' s IH]; simpl; [done|].
  intros [Hc Hs]%andb_true_iff. rewrite (IH Hs).
  case_bool_decide as Heq; [|done]. subst c'. congruence.
Qed.

Lemma occurrences_append c (s t : string) :
  occurrences c (s +:+ t) = (occurrences c s + occurrences c t)%nat.
Proof. induction s as [|c' s IH]; simpl; [done|]. rewrite IH. lia. Qed.

Lemma validate_email_spec email :
  validate_email email = true ↔
  ∃ local domain tld tail,
    email = local +:+ "@" +:+ domain +:+ "." +:+ tld +:+ tail
    ∧ local ≠ "" ∧ all_in local_set local = true
    ∧ domain ≠ "" ∧ all_in domain_set domain = true
    ∧ (2 ≤ String.length tld)%nat ∧ all_in letter_set tld = true
    ∧ (tail = "" ∨ tail = String "010" "").
Proof.
  unfold validate_email, Re.matches, email_pattern.
  cbn [Re.match_here andb]. split.
  - destruct (negb _); [done|].
    intros (local & rest1 & -> & Hlocal & Hlo1 & _ & Hk1)%repeat_chars_spec.
    apply literal_spec in Hk1 as (rest2 & -> & Hk2).
    apply repeat_chars_spec in Hk2
      as (domain & rest3 & -> & Hdomain & Hlo2 & _ & Hk3).
    apply literal_spec in Hk3 as (rest4 & -> & Hk4).
    apply repeat_chars_spec in Hk4
      as (tld & tail & -> & Htld & Hlo3 & _ & Hk5).
    rewrite andb_true_r in Hk5. apply at_end_spec in Hk5.
    exists local, domain, tld, tail.
    split_and!; [done| |done| |done|simpl in *; lia|done|done].
    + intros ->. simpl in Hlo1. lia.
    + intros ->. simpl in Hlo2. lia.
  - intros (local & domain & tld & tail & -> & Hl & Hlocal & Hd & Hdomain
            & Hlen & Htld & Htail).
    assert (negb (truthy_str (Some (local +:+ "@" +:+ domain +:+ "." +:+ tld +:+ tail)))
            = false) as ->.
    { by destruct local. }
    apply repeat_chars_spec.
    exists local, ("@" +:+ domain +:+ "." +:+ tld +:+ tail).
    split_and!; [done|done|destruct local; [done|simpl; lia]|by right|].
    apply literal_spec. eexists. split; [done|].
    apply repeat_chars_spec. exists domain, ("." +:+ tld +:+ tail).
    split_and!; [done|done|destruct domain; [done|simpl; lia]|by right|].
    apply literal_spec. eexists. split; [done|].
    apply repeat_chars_spec. exists tld, tail.
    split_and!; [done|done|simpl; lia|by right|].
    rewrite andb_true_r. by apply at_end_spec.
Qed.

End RegexProperties.

Section ValidatorProperties.

Local Arguments append !_ _ / : simpl nomatch.

(** The characters the three sets leave out. *)
Lemma sets_exclude c :
  (c = "@" ∨ c = " " ∨ c = "010")%char →
  Re.in_set local_set c = false
  ∧ Re.in_set domain_set c = false
  ∧ Re.in_set letter_set c = false.
Proof. by intros [->|[->| ->]]. Qed.

Lemma occurrences_in_address c local domain tld tail :
  (c = "@" ∨ c = " " ∨ c = "010")%char →
  all_in local_set local = true →
  all_in domain_set domain = true →
  all_in letter_set tld = true →
  occurrences c (local +:+ "@" +:+ domain +:+ "." +:+ tld +:+ tail)
  = ((if bool_decide (c = "@"%char) then 1 else 0) + occurrences c tail)%nat.
Proof.
  intros Hc Hlocal Hdomain Htld.
  destruct (sets_exclude c Hc) as (Hout1 & Hout2 & Hout3).
  rewrite !occurrences_append.
  rewrite (all_in_occurrences _ _ _ Hout1 Hlocal).
  rewrite (all_in_occurrences _ _ _ Hout2 Hdomain).
  rewrite (all_in_occurrences _ _ _ Hout3 Htld).
  simpl. by destruct Hc as [->|[->| ->]].
Qed.

Lemma valid_email_counts email :
  validate_email email = true →
  occurrences "@" email = 1%nat
  ∧ (6 ≤ String.length email)%nat
  ∧ occurrences " " email = 0%nat
  ∧ (occurrences "010" email ≤ 1)%nat.
Proof.
  intros (local & domain & tld & tail & -> & Hl & Hlocal & Hd & Hdomain
          & Hlen & Htld & Htail)%validate_email_spec.
  rewrite !occurrences_in_address by auto.
  rewrite !length_append.
  destruct local; [done|]. destruct domain; [done|].
  destruct Htail as [->| ->]; simpl; split_and!; lia.
Qed.

Lemma not_get_empty field : not_get [] field = true.
Proof. done. Qed.

End ValidatorProperties.

(** X13.  [validate_email] accepts exactly the strings made of a
    non-empty local part over [a-zA-Z0-9._%+-], an [@], a non-empty domain
    over [a-zA-Z0-9.-], a dot and at least two letters, optionally followed
    by one line feed, which [$] lets pass. *)
Theorem validate_email_accepts_exactly (email : string) :
  validate_email email = true ↔
  ∃ local domain tld tail,
    email = local +:+ "@" +:+ domain +:+ "." +:+ tld +:+ tail
    ∧ local ≠ "" ∧ all_in local_set local = true
    ∧ domain ≠ "" ∧ all_in domain_set domain = true
    ∧ (2 ≤ String.length tld)%nat ∧ all_in letter_set tld = true
    ∧ (tail = "" ∨ tail = String "010" "").
Proof. apply validate_email_spec. Qed.

(** X14.  An address that [validate_email] accepts has exactly one [@],
    at least six characters, no space, and at most one line feed. *)
Theorem valid_email_has_one_at_sign (email : string) :
  validate_email email = true →
  occurrences "@" email = 1%nat
  ∧ (6 ≤ String.length email)%nat
  ∧ occurrences " " email = 0%nat
  ∧ (occurrences "010" email ≤ 1)%nat.
Proof. apply valid_email_counts. Qed.

Lemma valid_email_has_one_at_sign_witness :
  validate_email "user.name+tag@mail.example.org" = true
  ∧ occurrences "@" "user.name+tag@mail.example.org" = 1%nat.
Proof.
  split; [vm_compute; reflexivity|].
  apply (valid_email_has_one_at_sign "user.name+tag@mail.example.org").
  vm_compute. reflexivity.
Defined.

(** X15.  [$] matches before a final line feed: an accepted address
    without a line feed is still accepted with one appended, and rejected
    with two. *)
Theorem valid_email_may_end_in_a_line_feed (email : string) :
  validate_email email = true →
  occurrences "010" email = 0%nat →
  validate_email (email +:+ String "010" "") = true
  ∧ validate_email (email +:+ String "010" (String "010" "")) = false.
Proof.
  intros Hvalid Hnone. split.
  - apply validate_email_spec in Hvalid
      as (local & domain & tld & tail & -> & Hl & Hlocal & Hd & Hdomain
          & Hlen & Htld & Htail).
    destruct Htail as [->| ->].
    + apply validate_email_spec.
      exists local, domain, tld, (String "010" "").
      rewrite !append_assoc. simpl.
      split_and!; [done..|by right].
    + rewrite occurrences_in_address in Hnone by auto. done.
  - destruct (validate_email (email +:+ _)) eqn:Htwice; [|done].
    apply valid_email_counts in Htwice as (_ & _ & _ & Hfeeds).
    rewrite occurrences_append in Hfeeds. simpl in Hfeeds. lia.
Qed.

Lemma valid_email_may_end_in_a_line_feed_witness :
  validate_email "user@example.com" = true
  ∧ validate_email (String.append "user@example.com" (String "010" "")) = true
  ∧ validate_email
      (String.append "user@example.com" (String "010" (String "010" "")))
    = false.
Proof.
  split; [vm_compute; reflexivity|].
  apply (valid_email_may_end_in_a_line_feed "user@example.com");
    vm_compute; reflexivity.
Defined.

(** X16.  [validate_required_fields] reports as missing exactly the
    required fields that the data lacks or holds with a falsy value (empty
    string, zero, false, null, empty list or dictionary), in the order of
    the requirement and with its repetitions; the data is valid exactly
    when it is a non-empty dictionary and nothing is missing.  So empty
    data is invalid even when no field is required, the one case where
    invalid data comes with an empty list of missing fields. *)
Theorem required_fields_report (data : option Payload) (fields : list string) :
  let valid := fst (validate_required_fields data fields) in
  let missing := snd (validate_required_fields data fields) in
  missing = filter (λ field, not_get (default [] data) field = true) fields
  ∧ sublist missing fields
  ∧ (∀ field, field ∈ missing ↔
              field ∈ fields ∧ not_get (default [] data) field = true)
  ∧ (valid = true ↔ truthy_dict data = true ∧ missing = [])
  ∧ (valid = false ∧ missing = [] ↔ truthy_dict data = false ∧ fields = []).
Proof.
  unfold validate_required_fields.
  destruct (truthy_dict data) eqn:Hdata; simpl.
  - split_and!.
    + apply list_filter_iff. intros field. by rewrite Is_true_true.
    + apply sublist_filter.
    + intros field. rewrite list_elem_of_filter. rewrite Is_true_true. tauto.
    + rewrite bool_decide_eq_true. split.
      * intros Hnone. split; [done|]. by apply nil_length_inv.
      * by intros [_ ->].
    + split; [|by intros [? _]]. intros [Hinvalid Hnone].
      rewrite Hnone in Hinvalid. done.
  - assert (default [] data = []) as Hempty
      by (by destruct data as [[|]|]).
    split_and!.
    + rewrite Hempty. induction fields as [|field fields IH]; [done|].
      rewrite filter_cons_True by done. by rewrite <- IH.
    + done.
    + intros field. rewrite Hempty. split; [by intros ?|by intros [? _]].
    + split; [done|by intros [? _]].
    + split; [by intros [_ ?]|by intros [_ ?]].
Qed.

Section CatalogueProperties.
Context {lib : Collaborators} {catalogue : Catalogue}.

Lemma to_json_relabel f video :
  to_json (catalogue := relabel_catalogue f catalogue) (relabel_video f video)
  = to_json video.
Proof. reflexivity. Qed.

Lemma Video_of_run data w :
  ∃ w',
    only_ticks w w'
    ∧ if complete data
      then ∃ video, Video_of data w = Returns video w' ∧ built_from data video
      else ∃ e, Video_of data w = Raises e w'.
Proof.
  unfold Video_of, Video_init, complete, built_from. py_run.
  destruct (doc_title data) as [t|]; simpl;
    [|exists w; split; [apply only_ticks_refl|by eauto]].
  destruct (doc_description data) as [d|]; simpl;
    [|exists w; split; [apply only_ticks_refl|by eauto]].
  destruct (doc_youtube_id data) as [y|]; simpl;
    [|exists w; split; [apply only_ticks_refl|by eauto]].
  destruct (doc_thumbnail_url data) as [u|]; simpl;
    [|exists w; split; [apply only_ticks_refl|by eauto]].
  destruct (doc__id data) as [i|]; simpl;
    [|exists w; split; [apply only_ticks_refl|by eauto]].
  destruct (doc_created_at data) as [c|].
  - exists w. split; [apply only_ticks_refl|]. eexists. by split.
  - eexists. split; [apply only_ticks_set_ticks|]. eexists. by split.
Qed.

Lemma Videos_of_run videos w :
  ∃ w',
    only_ticks w w'
    ∧ if forallb complete videos
      then ∃ result, Videos_of videos w = Returns result w'
                     ∧ Forall2 built_from videos result
      else ∃ e, Videos_of videos w = Raises e w'.
Proof.
  revert w. induction videos as [|data rest IH]; intros w; simpl.
  - exists w. split; [apply only_ticks_refl|]. by exists [].
  - unfold bind. destruct (Video_of_run data w) as (w1 & Hw1 & Hfirst).
    destruct (complete data); simpl.
    + destruct Hfirst as (video & -> & Hvideo).
      destruct (IH w1) as (w2 & Hw2 & Hrest). exists w2.
      split; [by apply (only_ticks_trans w w1 w2)|].
      destruct (forallb complete rest).
      * destruct Hrest as (result & -> & Hresult).
        exists (video :: result). split; [done|]. by constructor.
      * destruct Hrest as (e & ->). by eauto.
    + destruct Hfirst as (e & ->). exists w1. by eauto.
Qed.

Lemma get_dashboard_eq request w :
  get_dashboard request w
  = match req_auth request with
    | AuthIdentity _ =>
        match videos_documents with
        | inr documents =>
            match Videos_of (dashboard_documents documents) w with
            | Returns videos w' =>
                Returns
                  (jsonify
                     [ ("videos", JList (JDict <$> (to_json <$> videos)));
                       ("count", JInt (Z.of_nat (length (to_json <$> videos)))) ]
                     200) w'
            | Raises _ w' =>
                Returns (jsonify [("error", JStr "Internal server error")] 500) w'
            end
        | inl _ =>
            Returns (jsonify [("error", JStr "Internal server error")] 500) w
        end
    | _ => jwt_required request (λ _, ret (jsonify [] 0)) w
    end.
Proof.
  unfold get_dashboard, jwt_required, get_active_videos, find_active,
    internal_server_error, dashboard_documents.
  destruct (req_auth request); [|done..]. py_run.
  destruct videos_documents as [e|documents]; [done|]. simpl.
  by destruct (Videos_of _ w).
Qed.

Lemma get_video_details_eq video_id request w :
  get_video_details video_id request w
  = match req_auth request with
    | AuthIdentity identity =>
        match find_by_id video_id w with
        | Returns None w1 =>
            Returns (jsonify [("error", JStr "Video not found")] 404) w1
        | Returns (Some video) w1 =>
            if negb (is_active video)
            then Returns (jsonify [("error", JStr "Video is not available")] 404) w1
            else
              match jwt_encode
                      (playback_claims video_id identity (clock (ticks w1))
                         (clock (S (ticks w1))))
                      (secret_of "video-secret-key" w1) with
              | inr token =>
                  Returns
                    (jsonify
                       [ ("video", JDict (to_json video));
                         ("playback_token", JStr token);
                         ("player_url",
                          JStr ("/video/" +:+ video_id +:+ "/player?token="
                                +:+ token)) ]
                       200)
                    (set_ticks (S (S (ticks w1))) w1)
              | inl _ =>
                  Returns
                    (jsonify [("error", JStr "Internal server error")] 500)
                    (set_ticks (S (S (ticks w1))) w1)
              end
        | Raises _ w1 =>
            Returns (jsonify [("error", JStr "Internal server error")] 500) w1
        end
    | _ => jwt_required request (λ _, ret (jsonify [] 0)) w
    end.
Proof.
  unfold get_video_details, jwt_required, internal_server_error.
  destruct (req_auth request) as [identity| | |]; [|done..].
  unfold try_except, bind at 1.
  destruct (find_by_id video_id w) as [[video|] w1|e w1]; [|done..].
  destruct (is_active video); simpl; [|done].
  unfold bind. rewrite generate_eq.
  change [ ("video_id", JStr video_id); ("user_id", JStr identity);
           ("type", JStr "playback"); ("iat", JInt (clock (ticks w1)));
           ("exp", JInt (clock (S (ticks w1)) + 3600)) ]
    with (playback_claims video_id identity (clock (ticks w1))
            (clock (S (ticks w1)))).
  by destruct (jwt_encode _ _).
Qed.

End CatalogueProperties.

Section RelabelProperties.
Context {lib : Collaborators} {catalogue : Catalogue}.
Variable f : string → string.

Lemma find_by_id_relabel video_id w :
  find_by_id (lib := relabel f lib) video_id w
  = relabel_outcome (fmap (relabel_video f)) (find_by_id video_id w).
Proof.
  unfold find_by_id, Video_init. py_run. simpl.
  destruct (bson_ObjectId video_id) as [e|oid]; [done|].
  destruct (videos_find_one oid) as [e|[data|]]; [done| |done]. simpl.
  assert (truthy_doc (relabel_doc f data) = truthy_doc data) as ->.
  { unfold truthy_doc. simpl. by destruct (doc_youtube_id data). }
  destruct (truthy_doc data); [|done].
  destruct (doc_title data) as [t|]; [|done].
  destruct (doc_description data) as [d|]; [|done].
  destruct (doc_youtube_id data) as [y|]; [|done]. simpl.
  destruct (doc_thumbnail_url data) as [u|]; [|done].
  destruct (doc__id data) as [i|]; [|done].
  by destruct (doc_created_at data) as [c|].
Qed.

Lemma Video_of_relabel data w :
  Video_of (lib := relabel f lib) (relabel_doc f data) w
  = relabel_outcome (relabel_video f) (Video_of data w).
Proof.
  unfold Video_of, Video_init. py_run. simpl.
  destruct (doc_title data) as [t|]; [|done].
  destruct (doc_description data) as [d|]; [|done].
  destruct (doc_youtube_id data) as [y|]; [|done]. simpl.
  destruct (doc_thumbnail_url data) as [u|]; [|done].
  destruct (doc__id data) as [i|]; [|done].
  by destruct (doc_created_at data) as [c|].
Qed.

Lemma Videos_of_relabel videos w :
  Videos_of (lib := relabel f lib) (relabel_doc f <$> videos) w
  = relabel_outcome (fmap (relabel_video f)) (Videos_of videos w).
Proof.
  revert w. induction videos as [|data rest IH]; intros w; [done|].
  cbn [fmap list_fmap Videos_of]. unfold bind at 1 3.
  change (list_fmap VideoDoc VideoDoc (relabel_doc f) rest)
    with (relabel_doc f <$> rest).
  rewrite Video_of_relabel.
  destruct (Video_of data w) as [video w1|e w1]; [|done]. simpl.
  unfold bind. rewrite IH.
  by destruct (Videos_of rest w1) as [result w2|e w2].
Qed.

Lemma dashboard_documents_relabel documents :
  dashboard_documents (relabel_doc f <$> documents)
  = relabel_doc f <$> dashboard_documents documents.
Proof.
  unfold dashboard_documents. rewrite fmap_take. f_equal.
  induction documents as [|data rest IH]; [done|].
  rewrite fmap_cons.
  destruct (decide (doc_is_active data = Some true)) as [Hactive|Hactive].
  - rewrite !filter_cons_True by done. by rewrite fmap_cons, IH.
  - by rewrite !filter_cons_False by done.
Qed.

End RelabelProperties.

(** X17.  The JSON endpoints do not depend on [youtube_id]: for every
    renaming of the [youtube_id] values in the database, the details
    endpoint and the dashboard return the same response and leave the same
    state as without the renaming. *)
Theorem json_endpoints_ignore_youtube_id {lib : Collaborators}
    {catalogue : Catalogue} (f : string → string)
    (video_id : string) (request : Request) (w : World) :
  get_video_details (lib := relabel f lib)
    (catalogue := relabel_catalogue f catalogue) video_id request w
  = get_video_details video_id request w
  ∧ get_dashboard (lib := relabel f lib)
      (catalogue := relabel_catalogue f catalogue) request w
    = get_dashboard request w.
Proof.
  split.
  - rewrite !get_video_details_eq.
    destruct (req_auth request) as [identity| | |]; [|done..].
    rewrite find_by_id_relabel.
    destruct (find_by_id video_id w) as [[video|] w1|e w1]; [|done..].
    simpl. by destruct (is_active video).
  - rewrite !get_dashboard_eq.
    destruct (req_auth request) as [identity| | |]; [|done..]. simpl.
    destruct videos_documents as [e|documents]; [done|].
    rewrite dashboard_documents_relabel, Videos_of_relabel.
    destruct (Videos_of _ w) as [videos w1|e w1]; [|done]. simpl.
    rewrite <- !list_fmap_compose. rewrite !length_fmap.
    do 4 f_equal.
Qed.

(** X18.  The details endpoint answers 200, 401, 404 or 500 and reads
    at most the clock; it answers 500 only when [jwt.encode] raises on the
    claims under the key of [get_video_secret].  When it answers 200, the
    body holds the public fields of the video, the token [jwt.encode] made
    under that key of the claims for the video and the caller's identity,
    issued at the last two clock readings of the request, and the player
    path with that token.  When PyJWT's [decode] returns the
    claims its [encode] signed, the stream endpoint answers the same caller
    presenting that token, at a later state of the same environment at which
    PyJWT finds the claims valid and whatever the [videos] collection then
    holds, with 200 when [Video.find_by_id] then finds the video active and
    with 404 when it does not. *)
Theorem details_token_opens_stream {lib : Collaborators} {catalogue : Catalogue}
    (video_id : string) (request : Request) (w : World) :
  ∃ resp w',
    get_video_details video_id request w = Returns resp w'
    ∧ only_ticks w w'
    ∧ status resp ∈ [200; 401; 404; 500]
    ∧ (status resp = 500 →
       ∃ identity issued e,
         req_auth request = AuthIdentity identity
         ∧ jwt_encode
             (playback_claims video_id identity (clock issued)
                (clock (S issued)))
             (secret_of "video-secret-key" w)
           = inl e)
    ∧ (status resp = 200 →
       ∃ identity video issued token,
         let claims :=
           playback_claims video_id identity (clock issued) (clock (S issued)) in
         let key := secret_of "video-secret-key" w in
         req_auth request = AuthIdentity identity
         ∧ ticks w' = S (S issued)
         ∧ jwt_encode claims key = inr token
         ∧ body resp
           = BodyJson
               [ ("video", JDict (to_json video));
                 ("playback_token", JStr token);
                 ("player_url",
                  JStr ("/video/" +:+ video_id +:+ "/player?token=" +:+ token)) ]
         ∧ ∀ find_one follow_up w2,
             req_auth follow_up = AuthIdentity identity →
             req_token follow_up = Some token →
             token ≠ "" →
             environ w2 = environ w →
             (∀ signed, jwt_encode claims key = inr signed →
                        jws_decode signed key = inr claims) →
             jwt_validate_claims claims (clock (ticks w2)) = None →
             let later := with_videos find_one lib in
             status <$> outcome_value
                          (stream_video (lib := later) video_id follow_up w2)
             = Some
                 match find_by_id (lib := later) video_id
                         (set_ticks (S (ticks w2)) w2) with
                 | Returns (Some found) _ =>
                     if is_active found then 200 else 404
                 | _ => 404
                 end).
Proof.
  rewrite get_video_details_eq.
  destruct (req_auth request) as [identity| | |] eqn:Hauth;
    [|unfold jwt_required; rewrite Hauth;
      eexists _, _; split; [done|]; split; [apply only_ticks_refl|];
      split; [set_solver|done]..].
  destruct (find_by_id_returns video_id w) as (found & w1 & Hfound & Hw1).
  rewrite Hfound.
  destruct found as [video|];
    [|eexists _, _; split; [done|]; split; [done|]; split; [set_solver|done]].
  destruct (is_active video) eqn:Hactive; simpl;
    [|eexists _, _; split; [done|]; split; [done|]; split; [set_solver|done]].
  assert (secret_of "video-secret-key" w1 = secret_of "video-secret-key" w)
    as Hsecret.
  { unfold secret_of. by destruct Hw1 as (-> & _). }
  rewrite Hsecret.
  assert (only_ticks w (set_ticks (S (S (ticks w1))) w1)) as Hw'
    by (apply (only_ticks_trans w w1); [done|apply only_ticks_set_ticks]).
  destruct (jwt_encode _ _) as [e|token] eqn:Hencoded.
  { eexists _, _. split; [done|]. split; [done|]. split; [set_solver|].
    split; [|done]. intros _. by exists identity, (ticks w1), e. }
  eexists _, _. split; [done|]. split; [done|]. split; [set_solver|].
  split; [done|]. intros _.
  exists identity, video, (ticks w1), token.
  split; [done|]. split; [done|]. split; [done|]. split; [done|].
  intros find_one follow_up w2 Hcaller Hpresented Hnonempty Henv Hroundtrip
    Hvalid.
  cbv zeta.
  specialize (Hroundtrip token Hencoded).
  rewrite (stream_video_eq (lib := with_videos find_one lib)).
  rewrite Hcaller, Hpresented. simpl.
  rewrite bool_decide_eq_false_2 by done. simpl.
  change (default "" (Some token)) with token.
  rewrite (verify_eq (lib := with_videos find_one lib)).
  change (@jwt_decode (with_videos find_one lib)) with (@jwt_decode lib).
  change (@after_decode (with_videos find_one lib)) with (@after_decode lib).
  change (@clock (with_videos find_one lib)) with (@clock lib).
  assert (secret_of "video-secret-key" w2 = secret_of "video-secret-key" w)
    as -> by (unfold secret_of; by rewrite Henv).
  rewrite (after_decode_inr _ _ _ _ Hroundtrip).
  unfold jwt_decode. rewrite Hroundtrip, Hvalid, verification_eq by done.
  assert (forget_kind
            (spec_verify
               (inr (playback_claims video_id identity (clock (ticks w1))
                       (clock (S (ticks w1)))))
               video_id (Some identity))
          = Some (playback_claims video_id identity (clock (ticks w1))
                    (clock (S (ticks w1))))) as ->.
  { unfold spec_verify, playback_claims, get_ne_str. simpl.
    by rewrite !bool_decide_eq_true_2 by done. }
  simpl.
  destruct (find_by_id_returns (lib := with_videos find_one lib) video_id
              (set_ticks (S (ticks w2)) w2)) as (again & w3 & -> & _).
  destruct again as [found|]; [|done]. by destruct (is_active found).
Qed.

(** The token of a fresh process, presented a hundred clock readings
    later: to the collection as it was, and to one that lost the video. *)
Lemma details_token_opens_stream_witness :
  let lib := Reference.collaborators in
  let catalogue := ReferenceCatalogue.catalogue in
  let w := Reference.boot Reference.configured in
  let follow_up :=
    Reference.request (Some (Reference.token_of Reference.configured)) None in
  status <$> outcome_value
               (get_video_details Reference.video_id
                  (Reference.request None None) w)
  = Some 200
  ∧ status <$> outcome_value
                 (stream_video (lib := with_videos Reference.find_one lib)
                    Reference.video_id follow_up (Reference.later 100 w))
    = Some 200
  ∧ status <$> outcome_value
                 (stream_video (lib := with_videos (λ _, inr None) lib)
                    Reference.video_id follow_up (Reference.later 100 w))
    = Some 404.
Proof.
  intros lib catalogue w follow_up.
  destruct (details_token_opens_stream (lib := lib) (catalogue := catalogue)
              Reference.video_id (Reference.request None None) w)
    as (resp & w' & Hrun & _ & _ & _ & Hok).
  assert (status resp = 200) as Hstatus.
  { transitivity
      (status (default resp
                 (outcome_value
                    (get_video_details Reference.video_id
                       (Reference.request None None) w))));
      [by rewrite Hrun|vm_compute; reflexivity]. }
  split; [rewrite Hrun; simpl; by rewrite Hstatus|].
  destruct (Hok Hstatus)
    as (identity & video & issued & token & Hauth & Hticks & Hsigned & _
        & Hfollow).
  injection Hauth as <-.
  assert (issued = 0%nat) as ->.
  { assert (ticks w' = 2%nat) as Hread.
    { transitivity
        (ticks (outcome_world
                  (get_video_details Reference.video_id
                     (Reference.request None None) w)));
        [by rewrite Hrun|vm_compute; reflexivity]. }
    rewrite Hread in Hticks. by injection Hticks as <-. }
  vm_compute in Hsigned. injection Hsigned as <-.
  assert (∀ find_one,
            status <$> outcome_value
                         (stream_video (lib := with_videos find_one lib)
                            Reference.video_id follow_up
                            (Reference.later 100 w))
            = Some
                match find_by_id (lib := with_videos find_one lib)
                        Reference.video_id
                        (set_ticks (S (ticks (Reference.later 100 w)))
                           (Reference.later 100 w)) with
                | Returns (Some found) _ =>
                    if is_active found then 200 else 404
                | _ => 404
                end) as Hlater.
  { intros find_one. apply Hfollow; [by vm_compute..| |by vm_compute].
    intros signed Hsigned. vm_compute in Hsigned. injection Hsigned as <-.
    by vm_compute. }
  split; rewrite Hlater; by vm_compute.
Defined.

(** X19.  The dashboard answers 200, 401 or 500 and reads at most the
    clock.  When it answers 200 it lists at most two videos, [count] is
    their number, every listed video is active, and no listed video has a
    [youtube_id] key. *)
Theorem dashboard_lists_two_active_videos {lib : Collaborators}
    {catalogue : Catalogue} (request : Request) (w : World) :
  ∃ resp w',
    get_dashboard request w = Returns resp w'
    ∧ only_ticks w w'
    ∧ status resp ∈ [200; 401; 500]
    ∧ (status resp = 200 →
       ∃ listed,
         body resp
         = BodyJson [ ("videos", JList (JDict <$> listed));
                      ("count", JInt (Z.of_nat (length listed))) ]
         ∧ (length listed ≤ 2)%nat
         ∧ Forall (λ video,
                     dict_get video "is_active" = Some (JBool true)
                     ∧ dict_get video "youtube_id" = None) listed).
Proof.
  rewrite get_dashboard_eq.
  destruct (req_auth request) as [identity| | |] eqn:Hauth;
    [|unfold jwt_required; rewrite Hauth;
      eexists _, _; split; [done|]; split; [apply only_ticks_refl|];
      split; [set_solver|done]..].
  destruct videos_documents as [e|documents];
    [eexists _, _; split; [done|]; split; [apply only_ticks_refl|];
     split; [set_solver|done]|].
  destruct (Videos_of_run (dashboard_documents documents) w)
    as (w' & Hw' & Hrun).
  destruct (forallb complete _).
  - destruct Hrun as (videos & -> & Hbuilt).
    eexists _, _. split; [done|]. split; [done|]. split; [set_solver|].
    intros _. exists (to_json <$> videos). split; [done|].
    pose proof (Forall2_length _ _ _ Hbuilt) as Hlength.
    split.
    + rewrite length_fmap, <- Hlength. unfold dashboard_documents.
      rewrite length_take. lia.
    + apply Forall_fmap.
      assert (Forall (λ data, doc_is_active data = Some true)
                (dashboard_documents documents)) as Hactive.
      { unfold dashboard_documents. apply Forall_take.
        apply Forall_forall. by intros data [? _]%list_elem_of_filter. }
      clear Hlength. induction Hbuilt as [|data video rest result Hvideo _ IH];
        [done|].
      apply Forall_cons in Hactive as [Hdata Hrest].
      constructor; [|by apply IH].
      destruct Hvideo as (_ & _ & _ & _ & _ & Hflag). simpl.
      rewrite Hflag, Hdata. done.
  - destruct Hrun as (e & ->).
    eexists _, _. split; [done|]. split; [done|]. split; [set_solver|done].
Qed.

(** X20.  One incomplete document spoils the dashboard: with a database
    that answers, an authenticated dashboard request is answered 200 when
    each of the first two active documents has the keys [title],
    [description], [youtube_id], [thumbnail_url] and [_id], and 500 when one
    of them lacks one; the documents after them are not looked at. *)
Theorem incomplete_document_breaks_dashboard {lib : Collaborators}
    {catalogue : Catalogue} (request : Request) (w : World)
    (identity : string) (documents : list VideoDoc) :
  req_auth request = AuthIdentity identity →
  videos_documents = inr documents →
  status <$> outcome_value (get_dashboard request w)
  = Some (if forallb complete (dashboard_documents documents)
          then 200 else 500).
Proof.
  intros Hauth Hdocuments. rewrite get_dashboard_eq, Hauth, Hdocuments.
  destruct (Videos_of_run (dashboard_documents documents) w)
    as (w' & _ & Hrun).
  destruct (forallb complete _).
  - by destruct Hrun as (videos & -> & _).
  - by destruct Hrun as (e & ->).
Qed.

(** An untitled active document in second place gives 500; in third
    place it is not seen. *)
Lemma incomplete_document_breaks_dashboard_witness :
  let lib := Reference.collaborators in
  let w := Reference.boot Reference.configured in
  let request := Reference.request None None in
  let spoiled :=
    ReferenceCatalogue.catalogue_of
      [Reference.video_doc; ReferenceCatalogue.untitled_doc;
       ReferenceCatalogue.second_doc] in
  let spared :=
    ReferenceCatalogue.catalogue_of
      [Reference.video_doc; ReferenceCatalogue.second_doc;
       ReferenceCatalogue.untitled_doc] in
  status <$> outcome_value (get_dashboard (catalogue := spoiled) request w)
  = Some 500
  ∧ status <$> outcome_value (get_dashboard (catalogue := spared) request w)
    = Some 200.
Proof.
  intros lib w request spoiled spared. split.
  - by rewrite (incomplete_document_breaks_dashboard (lib := lib)
                  (catalogue := spoiled) request w Reference.user_id
                  [Reference.video_doc; ReferenceCatalogue.untitled_doc;
                   ReferenceCatalogue.second_doc] eq_refl eq_refl).
  - by rewrite (incomplete_document_breaks_dashboard (lib := lib)
                  (catalogue := spared) request w Reference.user_id
                  [Reference.video_doc; ReferenceCatalogue.second_doc;
                   ReferenceCatalogue.untitled_doc] eq_refl eq_refl).
Defined.

Section DatabaseNameProperties.

Lemma lstrip_head c s : String.prefix (String c "") (lstrip c s) = false.
Proof.
  induction s as [|c' s IH]; simpl; [done|].
  case_bool_decide as Heq; [done|]. simpl.
  by destruct (ascii_dec c c') as [->|?].
Qed.

Lemma split_head_occurrences c s : occurrences c (split_head c s) = 0%nat.
Proof.
  induction s as [|c' s IH]; simpl; [done|].
  case_bool_decide as Heq; [done|]. simpl.
  by rewrite bool_decide_eq_false_2.
Qed.

Lemma split_head_prefix c c' s :
  String.prefix (String c' "") s = false →
  String.prefix (String c' "") (split_head c s) = false.
Proof.
  destruct s as [|c0 s]; simpl; [done|].
  case_bool_decide; [done|]. simpl.
  destruct (ascii_dec c' c0); [|done]. by rewrite !prefix_empty.
Qed.

End DatabaseNameProperties.

(** X21.  [get_database_name] never returns the empty name, a name that
    starts with a slash, or a name with a question mark, whatever
    [urlparse] made of the URI; it returns ['video_app'] when [urlparse]
    raised and when the path has nothing but slashes before its end or its
    first question mark. *)
Theorem database_name_is_never_empty (parsed_path : PyExc + string) :
  let name := get_database_name parsed_path in
  name ≠ ""
  ∧ String.prefix "/" name = false
  ∧ occurrences "?" name = 0%nat
  ∧ (∀ e, parsed_path = inl e → name = "video_app")
  ∧ (∀ path, parsed_path = inr path →
             split_head "?" (lstrip "/" path) = "" → name = "video_app").
Proof.
  unfold get_database_name.
  destruct parsed_path as [e|path];
    [split_and!; [done|by vm_compute|by vm_compute|done|done]|].
  unfold contains.
  pose proof (lstrip_head "/" path) as Hslash.
  case_bool_decide as Hmark; cbn [negb].
  - destruct (lstrip "/" path) as [|c rest] eqn:Hpath;
      [split_and!; [done|by vm_compute|by vm_compute|done|done]|].
    cbn [truthy_str negb]. rewrite bool_decide_eq_false_2 by done.
    cbn [negb]. split_and!; [done|done|done|done|].
    intros ? [= <-]. rewrite Hpath. cbn [split_head].
    case_bool_decide as Hc; [|done].
    subst c. by simpl in Hmark.
  - pose proof (split_head_occurrences "?" (lstrip "/" path)) as Hnone.
    pose proof (split_head_prefix "?" "/" _ Hslash) as Hslash'.
    destruct (split_head "?" (lstrip "/" path)) as [|c rest] eqn:Hhead;
      [split_and!; [done|by vm_compute|by vm_compute|done|done]|].
    cbn [truthy_str negb]. rewrite bool_decide_eq_false_2 by done.
    cbn [negb]. split_and!; [done|done|done|done|].
    intros ? [= <-] Hempty. by rewrite Hhead in Hempty.
Qed.

Section SeedProperties.
Context {lib : Collaborators}.
Variable ObjectId_new : nat → string.
Hypothesis ObjectId_new_inj : Inj (=) (=) ObjectId_new.

Lemma holds_spec youtube_id documents :
  holds youtube_id documents
  ↔ ∃ data, data ∈ documents ∧ doc_youtube_id data = Some youtube_id.
Proof.
  unfold holds. rewrite list_elem_of_fmap. split.
  - intros (data & Hdata & Hin). by exists data.
  - intros (data & Hin & Hdata). by exists data.
Qed.

Lemma find_one_holds youtube_id db :
  from_option truthy_doc false (find_one_by_youtube_id youtube_id db) = true
  ↔ holds youtube_id (mongo_videos db).
Proof.
  rewrite holds_spec. unfold find_one_by_youtube_id. split.
  - destruct (list_find _ _) as [[i data]|] eqn:Hfind; [|done]. intros _.
    apply list_find_Some in Hfind as (Hi & Hdata & _).
    exists data. split; [|done]. by apply list_elem_of_lookup_2 with i.
  - intros (data & Hin & Hdata).
    destruct (list_find_elem_of
                (λ data, doc_youtube_id data = Some youtube_id)
                (mongo_videos db) data Hin Hdata) as [[i found] Hfind].
    rewrite Hfind. simpl.
    apply list_find_Some in Hfind as (_ & Hfound & _).
    unfold truthy_doc. rewrite Hfound. simpl. by rewrite !orb_true_r.
Qed.

Lemma holds_app youtube_id documents added :
  holds youtube_id (documents ++ added)
  ↔ holds youtube_id documents ∨ holds youtube_id added.
Proof. unfold holds. by rewrite fmap_app, elem_of_app. Qed.

(** With a fresh identifier, [create] appends the sample's document and
    takes one identifier and one clock reading. *)
Lemma create_fresh video_data db :
  fresh_from ObjectId_new db →
  let db' :=
    snd (create ObjectId_new (sample_title video_data)
           (sample_description video_data) (sample_youtube_id video_data)
           (sample_thumbnail_url video_data) (sample_is_active video_data)
           db) in
  db' = {| mongo_videos :=
             mongo_videos db
             ++ [sample_doc video_data (ObjectId_new (mongo_oids db))
                   (clock (mongo_ticks db))];
           mongo_oids := S (mongo_oids db);
           mongo_ticks := S (mongo_ticks db) |}
  ∧ fresh_from ObjectId_new db'.
Proof.
  intros Hfresh. unfold create, save, update_one_upsert. simpl.
  destruct (list_find _ _) as [[i found]|] eqn:Hfind.
  { apply list_find_Some in Hfind as (Hi & Hfound & _). simpl in Hfound.
    destruct (Hfresh (mongo_oids db) found); [lia| |done].
    by apply list_elem_of_lookup_2 with i. }
  simpl. split; [done|].
  intros n data Hn [Hin|Hin]%elem_of_app; simpl in *.
  - apply Hfresh; [lia|done].
  - apply list_elem_of_singleton in Hin as ->. simpl.
    intros [= Heq]. apply ObjectId_new_inj in Heq. lia.
Qed.

Lemma lacking_app samples documents data :
  doc_youtube_id data ∉ Some ∘ sample_youtube_id <$> samples →
  lacking samples (documents ++ [data]) = lacking samples documents.
Proof.
  unfold lacking. induction samples as [|video_data rest IH]; [done|].
  rewrite fmap_cons, not_elem_of_cons. intros [Hother Hrest].
  assert (holds (sample_youtube_id video_data) (documents ++ [data])
          ↔ holds (sample_youtube_id video_data) documents) as Hsame.
  { rewrite holds_app. split; [|by left]. intros [?|Hnew]; [done|].
    unfold holds in Hnew. simpl in Hnew.
    apply list_elem_of_singleton in Hnew. by destruct Hother. }
  rewrite !filter_cons. rewrite (IH Hrest).
  destruct (decide (¬ holds _ (documents ++ [data]))) as [Hlacks|Hhas];
    destruct (decide (¬ holds _ documents)) as [Hlacks'|Hhas']; try done.
  - destruct Hhas'. by rewrite <- Hsame.
  - destruct Hhas. by rewrite Hsame.
Qed.

(** What [seed] leaves, for samples of distinct [youtube_id]s. *)
Lemma seed_spec samples db :
  NoDup (sample_youtube_id <$> samples) →
  fresh_from ObjectId_new db →
  let missing := lacking samples (mongo_videos db) in
  seed ObjectId_new samples db
  = {| mongo_videos :=
         mongo_videos db
         ++ sample_docs ObjectId_new missing (mongo_oids db) (mongo_ticks db);
       mongo_oids := (mongo_oids db + length missing)%nat;
       mongo_ticks := (mongo_ticks db + length missing)%nat |}.
Proof.
  revert db. induction samples as [|video_data rest IH];
    intros db Hdistinct Hfresh.
  - simpl. rewrite app_nil_r, !Nat.add_0_r. by destruct db.
  - rewrite fmap_cons in Hdistinct.
    apply NoDup_cons in Hdistinct as [Hnew Hdistinct].
    cbn [seed]. unfold lacking. rewrite filter_cons.
    destruct (from_option truthy_doc false _) eqn:Hexisting; cbn [negb].
    + apply find_one_holds in Hexisting.
      rewrite decide_False by (intros Hlacks; by destruct Hlacks).
      by apply IH.
    + assert (¬ holds (sample_youtube_id video_data) (mongo_videos db))
        as Hlacks.
      { intros Hheld%find_one_holds. congruence. }
      rewrite decide_True by done.
      destruct (create_fresh video_data db Hfresh) as [-> Hfresh1].
      rewrite (IH _ Hdistinct Hfresh1). cbn [mongo_videos mongo_oids mongo_ticks].
      rewrite lacking_app.
      2: { simpl. intros (other & Hsame & Hin)%list_elem_of_fmap.
           injection Hsame as Hsame. destruct Hnew. rewrite Hsame.
           by apply list_elem_of_fmap_2. }
      fold (lacking rest (mongo_videos db)). simpl.
      f_equal; [by rewrite <- app_assoc|lia..].
Qed.

Lemma seed_nothing_to_do samples db :
  (∀ sample, sample ∈ samples →
             holds (sample_youtube_id sample) (mongo_videos db)) →
  seed ObjectId_new samples db = db.
Proof.
  induction samples as [|sample rest IH]; intros Hall; [done|].
  cbn [seed].
  assert (from_option truthy_doc false
            (find_one_by_youtube_id (sample_youtube_id sample) db) = true)
    as -> by (apply find_one_holds, Hall, elem_of_cons; by left).
  cbn [negb]. apply IH. intros s Hs. apply Hall, elem_of_cons. by right.
Qed.

(** The documents of the samples hold their [youtube_id]s. *)
Lemma sample_docs_hold samples n m video_data :
  video_data ∈ samples →
  holds (sample_youtube_id video_data) (sample_docs ObjectId_new samples n m).
Proof.
  revert n m. induction samples as [|first rest IH]; intros n m;
    [by intros ?%elem_of_nil|].
  unfold holds. simpl. intros [->|Hin]%elem_of_cons.
  - by left.
  - right. by apply IH.
Qed.

End SeedProperties.

(** X22.  Seeding only adds, and adds once: when [ObjectId()] never
    repeats itself nor an identifier of the collection, [seed_videos] leaves
    the collection followed by one new document for each sample whose
    [youtube_id] no document of the collection had, in the order of the
    samples ([title], [description], [youtube_id], [thumbnail_url] and
    [is_active] of the sample, the next identifier and the next clock
    reading), so at most two, and takes that many identifiers and clock
    readings and nothing else; the collection then has a document for the
    [youtube_id] of each sample, and seeding again changes nothing.  The
    premise is needed: with an [ObjectId()] that repeats an identifier of the
    collection, [save] overwrites that document, and seeding a collection
    of that one document leaves a single document, of the second sample. *)
Theorem seeding_twice_adds_nothing {lib : Collaborators}
    (ObjectId_new : nat → string) (db : Mongo) :
  Inj (=) (=) ObjectId_new →
  fresh_from ObjectId_new db →
  let seeded := seed_videos ObjectId_new db in
  let missing := lacking sample_videos (mongo_videos db) in
  seeded
  = {| mongo_videos :=
         mongo_videos db
         ++ sample_docs ObjectId_new missing (mongo_oids db) (mongo_ticks db);
       mongo_oids := (mongo_oids db + length missing)%nat;
       mongo_ticks := (mongo_ticks db + length missing)%nat |}
  ∧ (length missing ≤ 2)%nat
  ∧ (∀ sample, sample ∈ sample_videos →
               holds (sample_youtube_id sample) (mongo_videos seeded))
  ∧ seed_videos ObjectId_new seeded = seeded
  ∧ (let repeating := λ _ : nat, "65f1c0ffee0ddba11ad0be59" in
     let crowded :=
       {| mongo_videos := [ReferenceCatalogue.untitled_doc];
          mongo_oids := 0; mongo_ticks := 0 |} in
     doc__id ReferenceCatalogue.untitled_doc = Some (repeating 0%nat)
     ∧ doc_youtube_id <$> mongo_videos (seed_videos repeating crowded)
       = [Some "rrkrvAUbU9Y"]).
Proof.
  intros Hinj Hfresh seeded missing.
  assert (seeded
          = {| mongo_videos :=
                 mongo_videos db
                 ++ sample_docs ObjectId_new missing (mongo_oids db)
                      (mongo_ticks db);
               mongo_oids := (mongo_oids db + length missing)%nat;
               mongo_ticks := (mongo_ticks db + length missing)%nat |})
    as Hseeded.
  { apply (seed_spec ObjectId_new Hinj sample_videos db); [|done].
    simpl. apply NoDup_cons.
    split; [by intros ?%list_elem_of_singleton|apply NoDup_singleton]. }
  assert (∀ sample, sample ∈ sample_videos →
                    holds (sample_youtube_id sample) (mongo_videos seeded))
    as Hall.
  { intros sample Hin. rewrite Hseeded. cbn [mongo_videos].
    apply holds_app.
    destruct (decide (holds (sample_youtube_id sample) (mongo_videos db)))
      as [Hheld|Hlacks]; [by left|right].
    apply sample_docs_hold. unfold missing, lacking.
    by apply list_elem_of_filter. }
  split_and!; [done| |done| |by vm_compute].
  - unfold missing, lacking.
    etransitivity; [apply length_filter|]. simpl. lia.
  - by apply seed_nothing_to_do.
Qed.

(** An empty collection gets the two samples, once. *)
Lemma seeding_twice_adds_nothing_witness :
  let lib := Reference.collaborators in
  let db := {| mongo_videos := []; mongo_oids := 0; mongo_ticks := 0 |} in
  let seeded := seed_videos pretty db in
  doc_youtube_id <$> mongo_videos seeded = [Some "qp0HIF3SfI4"; Some "rrkrvAUbU9Y"]
  ∧ doc__id <$> mongo_videos seeded = [Some "0"; Some "1"]
  ∧ mongo_oids seeded = 2%nat
  ∧ seed_videos pretty seeded = seeded.
Proof.
  intros lib db seeded.
  destruct (seeding_twice_adds_nothing (lib := lib) pretty db)
    as (Hseeded & _ & _ & Hagain & _).
  - apply _.
  - by intros n data _ ?%elem_of_nil.
  - fold seeded in Hseeded, Hagain. split_and!; [| | |exact Hagain].
    + rewrite Hseeded. by vm_compute.
    + rewrite Hseeded. by vm_compute.
    + rewrite Hseeded. by vm_compute.
Defined.

(** X23.  A secret that PyJWT refuses as an HMAC key is not handled as
    a bad token: when [jwt.decode] raises [InvalidKeyError] on the presented
    token under the secrets of the two verification paths, both
    verification functions raise it, without reading the clock, and the
    proxy, player and stream endpoints answer 500 and leave the state as it
    was. *)
Theorem refused_key_answers_500 {lib : Collaborators}
    (video_id token : string) (request : Request) (w : World) :
  req_token request = Some token →
  token ≠ "" →
  (∀ fallback,
     fallback ∈ ["jwt-secret-key"; "video-secret-key"] →
     jws_decode token (secret_of fallback w) = inl InvalidKeyError) →
  (∀ user_id,
     verify_playback_token token video_id user_id w
     = Raises (PyJWTError InvalidKeyError) w)
  ∧ verify_playback_token_without_user token video_id w
    = Raises (PyJWTError InvalidKeyError) w
  ∧ proxy_video video_id request w
    = Returns (text_response "Failed to stream video" 500) w
  ∧ video_player video_id request w
    = Returns (with_status (_error_html "Internal server error") 500) w
  ∧ (∀ user_id,
       req_auth request = AuthIdentity user_id →
       stream_video video_id request w
       = Returns (jsonify [("error", JStr "Internal server error")] 500) w).
Proof.
  intros Hpresented Hnonempty Hrefused.
  assert (∀ user_id,
            verify_playback_token token video_id user_id w
            = Raises (PyJWTError InvalidKeyError) w) as Hbound.
  { intros user_id. rewrite verify_eq. unfold jwt_decode, after_decode.
    rewrite Hrefused by set_solver. done. }
  assert (verify_playback_token_without_user token video_id w
          = Raises (PyJWTError InvalidKeyError) w) as Hopen.
  { rewrite verify_without_user_eq. unfold jwt_decode, after_decode.
    rewrite Hrefused by set_solver. done. }
  assert (negb (truthy_str (Some token)) = false) as Htruthy.
  { simpl. by rewrite bool_decide_eq_false_2. }
  split_and!; [done|done| | |].
  - rewrite proxy_video_eq, Hpresented, Htruthy.
    change (default "" (Some token)) with token. by rewrite Hopen.
  - rewrite video_player_eq, Hpresented, Htruthy.
    change (default "" (Some token)) with token. by rewrite Hopen.
  - intros user_id Hauth.
    rewrite stream_video_eq, Hauth, Hpresented, Htruthy.
    change (default "" (Some token)) with token. by rewrite Hbound.
Qed.

(** [JWT_SECRET_KEY] holds an SSH public key: the token of a configured
    process, presented to that process. *)
Lemma refused_key_answers_500_witness :
  let lib := Reference.collaborators in
  let w :=
    Reference.boot {[ "JWT_SECRET_KEY" := "ssh-rsa AAAAB3NzaC1yc2E" ]} in
  let request :=
    Reference.request (Some (Reference.token_of Reference.configured)) None in
  status <$> outcome_value (proxy_video Reference.video_id request w)
  = Some 500
  ∧ status <$> outcome_value (video_player Reference.video_id request w)
    = Some 500
  ∧ status <$> outcome_value (stream_video Reference.video_id request w)
    = Some 500.
Proof.
  intros lib w request.
  destruct (refused_key_answers_500 (lib := lib) Reference.video_id
              (Reference.token_of Reference.configured) request w)
    as (_ & _ & -> & -> & Hstream);
    [done|by vm_compute|intros fallback _; by vm_compute|].
  split; [done|]. split; [done|].
  by rewrite (Hstream Reference.user_id).
Defined.
